(** * CLEVR_dataset: render_images.py

    A shallow embedding of the scene-layout code of [render_images.py]:
    the rejection sampler [add_random_objects], the pairwise relation
    table [compute_all_relationships] and the camera loop of
    [render_scene], followed by the properties of these functions.

    Python's [float] is kept abstract behind the interface [NumOps].  Two
    instances are given: IEEE binary64 ([PrimFloat], what CPython runs,
    used to evaluate the definitions) and the real numbers (exact
    arithmetic, used for the statements that speak about distances). *)

From Stdlib Require Import PrimFloat.
From Stdlib Require Uint63.
From stdpp Require Import gmap strings list sorting.
From Stdlib Require Import Reals Lra Lia ZArith.

Set Warnings "-inexact-float".

(** ** Numbers *)

(** The operations the program applies to its floating-point values.
    [nltb a b] is Python's [a < b], [neqb a b] is [a == b], [of_Z] is the
    conversion of an [int] operand in mixed arithmetic. *)
Class NumOps (num : Type) : Type := {
  nadd : num -> num -> num;
  nsub : num -> num -> num;
  nmul : num -> num -> num;
  ndiv : num -> num -> num;
  nsqrt : num -> num;
  nltb : num -> num -> bool;
  neqb : num -> num -> bool;
  of_Z : Z -> num
}.

Definition float_of_Z (z : Z) : PrimFloat.float :=
  match z with
  | Z0 => PrimFloat.zero
  | Zpos p => PrimFloat.of_uint63 (Uint63.of_Z (Zpos p))
  | Zneg p => PrimFloat.opp (PrimFloat.of_uint63 (Uint63.of_Z (Zpos p)))
  end.

#[export] Instance float_ops : NumOps PrimFloat.float := {
  nadd := PrimFloat.add;
  nsub := PrimFloat.sub;
  nmul := PrimFloat.mul;
  ndiv := PrimFloat.div;
  nsqrt := PrimFloat.sqrt;
  nltb := PrimFloat.ltb;
  neqb := PrimFloat.eqb;
  of_Z := float_of_Z
}.

Definition Rltb (a b : R) : bool := if Rlt_dec a b then true else false.
Definition Reqb (a b : R) : bool := if Req_dec_T a b then true else false.

#[export] Instance real_ops : NumOps R := {
  nadd := Rplus;
  nsub := Rminus;
  nmul := Rmult;
  ndiv := Rdiv;
  nsqrt := R_sqrt.sqrt;
  nltb := Rltb;
  neqb := Reqb;
  of_Z := IZR
}.

(** ** Scene records *)

Section Scene.
Context {num : Type} `{NumOps num}.

Definition vec3 : Type := num * num * num.

(** One entry of the list [objects]: the dictionary built at the end of
    each slot of [add_random_objects]. *)
Record object := {
  shape : string;
  size : string;
  material : string;
  coords_3d : vec3;
  rotation : num;
  pixel_coords : Z * Z;
  color : string
}.

Definition vec3_eqb (a b : vec3) : bool :=
  let '(a0, a1, a2) := a in
  let '(b0, b1, b2) := b in
  neqb a0 b0 && neqb a1 b1 && neqb a2 b2.

(** [obj1 == obj2] on two such dictionaries: equal values under every key. *)
Definition object_eqb (o1 o2 : object) : bool :=
  String.eqb (shape o1) (shape o2)
  && String.eqb (size o1) (size o2)
  && String.eqb (material o1) (material o2)
  && vec3_eqb (coords_3d o1) (coords_3d o2)
  && neqb (rotation o1) (rotation o2)
  && (Z.eqb (fst (pixel_coords o1)) (fst (pixel_coords o2))
      && Z.eqb (snd (pixel_coords o1)) (snd (pixel_coords o2)))
  && String.eqb (color o1) (color o2).

(** ** compute_all_relationships *)

(** [enumerate(seq)] *)
Definition enumerate {A} (l : list A) : list (nat * A) :=
  zip (seq 0 (length l)) l.

(** [diff = [coords2[k] - coords1[k] for k in [0, 1, 2]]] *)
Definition diff (coords1 coords2 : vec3) : vec3 :=
  let '(a0, a1, a2) := coords1 in
  let '(b0, b1, b2) := coords2 in
  (nsub b0 a0, nsub b1 a1, nsub b2 a2).

(** [sum(diff[k] * direction_vec[k] for k in [0, 1, 2])]; [sum] starts
    from the integer 0. *)
Definition dot (d direction_vec : vec3) : num :=
  let '(d0, d1, d2) := d in
  let '(v0, v1, v2) := direction_vec in
  nadd (nadd (nadd (of_Z 0) (nmul d0 v0)) (nmul d1 v1)) (nmul d2 v2).

(** One pass of the inner loop over [j, obj2]: the update of [related]. *)
Definition relate_step (direction_vec : vec3) (eps : num) (obj1 : object)
    (related : gset nat) (jo : nat * object) : gset nat :=
  let '(j, obj2) := jo in
  if object_eqb obj1 obj2 then related
  else
    if nltb eps (dot (diff (coords_3d obj1) (coords_3d obj2)) direction_vec)
    then {[ j ]} ∪ related
    else related.

Definition related_set (objects : list object) (direction_vec : vec3)
    (eps : num) (obj1 : object) : gset nat :=
  foldl (relate_step direction_vec eps obj1) ∅ (enumerate objects).

(** [sorted(list(related))] *)
Definition sorted (related : gset nat) : list nat :=
  merge_sort Nat.le (elements related).

(** The list stored under one relation name: one entry per [obj1]. *)
Definition relationship_rows (objects : list object) (direction_vec : vec3)
    (eps : num) : list (list nat) :=
  map (fun obj1 => sorted (related_set objects direction_vec eps obj1))
      objects.

Definition is_vertical (name : string) : bool :=
  String.eqb name "above" || String.eqb name "below".

(** The two fields of [scene_struct] the function reads. *)
Record scene_struct := {
  ss_objects : list object;
  ss_directions : gmap string vec3
}.

Definition compute_all_relationships (scene : scene_struct) (eps : num)
    : gmap string (list (list nat)) :=
  map_fold
    (fun name direction_vec all_relationships =>
       if is_vertical name then all_relationships
       else <[ name := relationship_rows (ss_objects scene) direction_vec eps ]>
              all_relationships)
    ∅ (ss_directions scene).

End Scene.

Arguments object num : clear implicits.
Arguments scene_struct num : clear implicits.
Arguments vec3 num : clear implicits.

(** ** The interpreter state and its monad *)

(** Sine, cosine and pi of the [math] module, used by the camera loop only. *)
Class TrigOps (num : Type) : Type := {
  ncos : num -> num;
  nsin : num -> num;
  npi : num
}.

#[export] Instance real_trig : TrigOps R := {
  ncos := cos;
  nsin := sin;
  npi := PI
}.

(** The exceptions the modelled code can raise. *)
Inductive exn : Type :=
| IndexError (msg : string)
| KeyError (key : string)
| ZeroDivisionError.

Inductive outcome (A : Type) : Type :=
| Ok (a : A)
| Raise (e : exn)
| OutOfFuel.

Arguments Ok {A} a.
Arguments Raise {A} e.
Arguments OutOfFuel {A}.

(** Ordered dictionaries with string keys: [d[k] = v] keeps the position of
    a key that is already present and appends a new one. *)
Fixpoint dict_set {V} (d : list (string * V)) (k : string) (v : V)
    : list (string * V) :=
  match d with
  | [] => [(k, v)]
  | (k', v') :: d' =>
      if String.eqb k' k then (k', v) :: d' else (k', v') :: dict_set d' k v
  end.

Fixpoint dict_get {V} (d : list (string * V)) (k : string) : option V :=
  match d with
  | [] => None
  | (k', v') :: d' => if String.eqb k' k then Some v' else dict_get d' k
  end.

Section Program.
Context {num : Type} `{NumOps num}.

(** An object of the Blender scene graph; [ob_id] stands for its identity. *)
Record blender_object := {
  ob_id : nat;
  ob_location : vec3 num
}.

(** The calls into Blender and [utils] that change or render the scene,
    and [Call], which logs the calls between functions of this file. *)
Inductive event : Type :=
| OpenMainfile
| LoadMaterials
| MoveLamp (lamp : string) (axis : nat) (delta : num)
| MoveCamera (axis : nat) (value : num)
| AddObject (object_dir name : string) (scale : num) (loc : num * num)
    (theta : num) (created : nat)
| SetLayer (target : nat)
| AddMaterial (name : string) (rgba : list num)
| DeleteObject (target : nat)
| Render (file_index : Z) (raised : bool)
| SaveAsMainfile (path : string)
| WriteTransforms
| Call (caller callee : string).

(** What lies outside the program: the random generator (the [t]-th draw
    of the run), the Blender side of [utils] and [bpy], and the renderer. *)
Record env := {
  randbelow_src : nat -> nat;
  random_src : nat -> num;
  base_scene : list blender_object;
  base_camera_location : vec3 num;
  camera_angle_x : num;
  object_location : string -> num -> num * num -> vec3 num;
  get_camera_coords : vec3 num -> vec3 num -> Z * Z;
  matrix_world : vec3 num -> list (list num);
  render_raises : nat -> bool
}.

(** The state a run threads: the number of draws taken from the random
    generator and of calls of the renderer, [bpy.data.objects], the
    location of the camera and the events so far. *)
Record world := {
  draws : nat;
  renders : nat;
  data_objects : list blender_object;
  camera_location : vec3 num;
  trace : list event
}.

(** Computations: a result, an exception or exhausted fuel, with the
    state reached. *)
Definition M (A : Type) : Type := world -> outcome A * world.

#[export] Instance M_ret : MRet M := fun A a w => (Ok a, w).

#[export] Instance M_bind : MBind M := fun A B f m w =>
  match m w with
  | (Ok a, w') => f a w'
  | (Raise e, w') => (Raise e, w')
  | (OutOfFuel, w') => (OutOfFuel, w')
  end.

Definition raise {A} (e : exn) : M A := fun w => (Raise e, w).
Definition get_camera_location : M (vec3 num) := fun w =>
  (Ok (camera_location w), w).
Definition out_of_fuel {A} : M A := fun w => (OutOfFuel, w).

Definition emit (ev : event) : M unit := fun w =>
  (Ok tt, {| draws := draws w; renders := renders w;
             data_objects := data_objects w;
             camera_location := camera_location w;
             trace := trace w ++ [ev] |}).

Definition next_draw (w : world) : world :=
  {| draws := S (draws w); renders := renders w;
     data_objects := data_objects w;
     camera_location := camera_location w;
     trace := trace w |}.

Definition set_data_objects (l : list blender_object) (w : world) : world :=
  {| draws := draws w; renders := renders w;
     data_objects := l;
     camera_location := camera_location w;
     trace := trace w |}.

(** A [for] loop that threads the variables [s] it assigns. *)
Fixpoint for_each {A S} (l : list A) (body : A -> S -> M S) (s : S) : M S :=
  match l with
  | [] => mret s
  | x :: l' => s' ← body x s; for_each l' body s'
  end.

Variable e : env.

(** [random.random()] *)
Definition random_random : M num := fun w =>
  (Ok (random_src e (draws w)), next_draw w).

(** [random.uniform(a, b)], which is [a + (b - a) * random()] *)
Definition random_uniform (a b : num) : M num :=
  u ← random_random; mret (nadd a (nmul (nsub b a) u)).

(** [random.choice(seq)]: the element at index [_randbelow(len(seq))];
    an empty sequence raises. *)
Definition random_choice {A} (seq : list A) : M A := fun w =>
  match seq !! (randbelow_src e (draws w) `mod` length seq)%nat with
  | Some a => (Ok a, next_draw w)
  | None => (Raise (IndexError "Cannot choose from an empty sequence"), w)
  end.

(** The identity of a new object: distinct from every object present. *)
Definition fresh_id (l : list blender_object) : nat :=
  S (list_max (map ob_id l)).

(** Modelled from the spec: [utils.add_object] (utils.py is not part of the
    sources).  It creates one object in the scene graph and leaves it as
    [bpy.context.object]; where Blender puts it is left to
    [object_location]. *)
Definition add_object (object_dir name : string) (scale : num)
    (loc : num * num) (theta : num) : M blender_object := fun w =>
  let obj := {| ob_id := fresh_id (data_objects w);
                ob_location := object_location e name scale loc |} in
  (emit (AddObject object_dir name scale loc theta (ob_id obj));;
   mret obj) (set_data_objects (data_objects w ++ [obj]) w).

(** Modelled from the spec: [utils.delete_object] removes the object from
    the scene graph. *)
Definition delete_object (obj : blender_object) : M unit := fun w =>
  emit (DeleteObject (ob_id obj))
    (set_data_objects
       (filter (fun o => ob_id o ≠ ob_id obj) (data_objects w)) w).

(** Modelled from the spec: [utils.set_layer] and [utils.add_material]
    act on the object and change nothing else. *)
Definition set_layer (obj : blender_object) : M unit :=
  emit (SetLayer (ob_id obj)).

Definition add_material (name : string) (rgba : list num) : M unit :=
  emit (AddMaterial name rgba).

(** ** add_random_objects *)

(** The parsed [properties_json]: the items of its four dictionaries, in
    file order. *)
Record properties := {
  colors : list (string * list num);
  materials : list (string * string);
  shapes : list (string * string);
  sizes : list (string * num)
}.

(** The command-line options the modelled functions read, with the two
    JSON files they name already parsed. *)
Record args := {
  properties_json : properties;
  shape_color_combos_json : option (list (string * list string));
  output_dir : string;
  shape_dir : string;
  min_dist : num;
  margin : num;
  max_retries : Z;
  num_cams : Z;
  key_light_jitter : num;
  back_light_jitter : num;
  fill_light_jitter : num
}.

Variable a : args.

Definition path_join (d f : string) : string := d +:+ "/" +:+ f.

(** [rgba = [float(c) / 255.0 for c in rgb] + [1.0]] under every name *)
Definition color_name_to_rgba : list (string * list num) :=
  foldl (fun d '(name, rgb) =>
           dict_set d name (map (fun c => ndiv c (of_Z 255)) rgb ++ [of_Z 1]))
        [] (colors (properties_json a)).

Definition material_mapping : list (string * string) :=
  map (fun '(k, v) => (v, k)) (materials (properties_json a)).

Definition object_mapping : list (string * string) :=
  map (fun '(k, v) => (v, k)) (shapes (properties_json a)).

Definition size_mapping : list (string * num) := sizes (properties_json a).

(** The three lists the function fills. *)
Record locals := {
  positions : list (num * num * num);
  objects : list (object num);
  blender_objects : list blender_object
}.

(** The loop over [positions] that computes [dists_good]: [r] is the size
    drawn for the slot. *)
Fixpoint dists_good (ps : list (num * num * num)) (x y r : num) : bool :=
  match ps with
  | [] => true
  | (xx, yy, rr) :: rest =>
      let dx := nsub x xx in
      let dy := nsub y yy in
      let dist := nsqrt (nadd (nmul dx dx) (nmul dy dy)) in
      if nltb (nsub (nsub dist r) rr) (min_dist a) then false
      else dists_good rest x y r
  end.

(** The [while True] loop of one slot.  [None] stands for the branch
    [num_tries > args.max_retries]; [Some (x, y)] for the [break]. *)
Fixpoint sample_position (fuel : nat) (num_tries : Z)
    (ps : list (num * num * num)) (r : num) : M (option (num * num)) :=
  match fuel with
  | O => out_of_fuel
  | S fuel' =>
      let num_tries := (num_tries + 1)%Z in
      if (max_retries a <? num_tries)%Z then mret None
      else
        x ← random_uniform (of_Z (-3)) (of_Z 3);
        y ← random_uniform (of_Z (-3)) (of_Z 3);
        if dists_good ps x y r then mret (Some (x, y))
        else sample_position fuel' num_tries ps r
  end.

(** [for obj in blender_objects: utils.delete_object(obj)] *)
Fixpoint delete_all (objs : list blender_object) : M unit :=
  match objs with
  | [] => mret tt
  | obj :: rest => delete_object obj;; delete_all rest
  end.

(** The choice of shape and colour: [(obj_name, obj_name_out, color_name,
    rgba)]. *)
Definition choose_shape_color : M (string * string * string * list num) :=
  match shape_color_combos_json a with
  | None =>
      '(obj_name, obj_name_out) ← random_choice object_mapping;
      '(color_name, rgba) ← random_choice color_name_to_rgba;
      mret (obj_name, obj_name_out, color_name, rgba)
  | Some shape_color_combos =>
      '(obj_name_out, color_choices) ← random_choice shape_color_combos;
      color_name ← random_choice color_choices;
      match filter (fun kv => String.eqb (snd kv) obj_name_out) object_mapping with
      | [] => raise (IndexError "list index out of range")
      | (obj_name, _) :: _ =>
          match dict_get color_name_to_rgba color_name with
          | None => raise (KeyError color_name)
          | Some rgba => mret (obj_name, obj_name_out, color_name, rgba)
          end
      end
  end.

(** [if obj_name == 'Cube': r /= math.sqrt(2)] *)
Definition adjust_size (obj_name : string) (r : num) : num :=
  if String.eqb obj_name "Cube" then ndiv r (nsqrt (of_Z 2)) else r.

(** The rest of a slot once [(x, y)] has been accepted. *)
Definition place_object (size_name : string) (r x y : num) (L : locals)
    : M locals :=
  '(obj_name, obj_name_out, color_name, rgba) ← choose_shape_color;
  let r := adjust_size obj_name r in
  u ← random_random;
  let theta := nmul (of_Z 360) u in
  obj ← add_object (path_join (output_dir a) (shape_dir a)) obj_name r (x, y) theta;
  set_layer obj;;
  let blender_objects' := blender_objects L ++ [obj] in
  let positions' := positions L ++ [(x, y, r)] in
  '(mat_name, mat_name_out) ← random_choice material_mapping;
  add_material mat_name rgba;;
  camera ← get_camera_location;
  let pixel := get_camera_coords e camera (ob_location obj) in
  mret {| positions := positions';
          objects := objects L ++
            [ {| shape := obj_name_out;
                 size := size_name;
                 material := mat_name_out;
                 coords_3d := ob_location obj;
                 rotation := theta;
                 pixel_coords := pixel;
                 color := color_name |} ];
          blender_objects := blender_objects' |}.

(** The [for i in range(num_objects)] loop; [restart] is the recursive call
    [add_random_objects(num_objects, args, camera)], whose result is
    returned at once. *)
Fixpoint place_slots (restart : M locals) (slots : nat) (L : locals)
    : M locals :=
  match slots with
  | O => mret L
  | S slots' =>
      '(size_name, r) ← random_choice size_mapping;
      pos ← sample_position (S (Z.to_nat (max_retries a))) 0 (positions L) r;
      match pos with
      | None =>
          delete_all (blender_objects L);;
          emit (Call "add_random_objects" "add_random_objects");;
          restart
      | Some (x, y) =>
          L' ← place_object size_name r x y L;
          place_slots restart slots' L'
      end
  end.

Definition no_locals : locals :=
  {| positions := []; objects := []; blender_objects := [] |}.

(** The function with all three lists as its result; [fuel] bounds the
    depth of the recursion. *)
Fixpoint add_random_objects_locals (fuel : nat) (num_objects : Z) : M locals :=
  match fuel with
  | O => out_of_fuel
  | S fuel' =>
      place_slots (add_random_objects_locals fuel' num_objects)
                  (Z.to_nat num_objects) no_locals
  end.

(** [return objects, blender_objects] *)
Definition add_random_objects (fuel : nat) (num_objects : Z)
    : M (list (object num) * list blender_object) :=
  L ← add_random_objects_locals fuel num_objects;
  mret (objects L, blender_objects L).

(** ** render_scene *)

Context `{TrigOps num}.

(** One record of [out_data['frames']]; the file path is kept as the
    index that [image_template] formats. *)
Record frame := {
  file_path : Z;
  frame_rotation : num;
  transform_matrix : list (list num)
}.

(** What the function leaves behind: the local [objects] ([None] while it
    has not been assigned) and [out_data['frames']]. *)
Record render_result := {
  final_objects : option (list (object num));
  frames : list frame
}.

Definition num_heights : Z := 8.

(** [rand(L) = 2.0 * L * (random.random() - 0.5)] *)
Definition rand (L : num) : M num :=
  u ← random_random;
  mret (nmul (nmul (of_Z 2) L) (nsub u (ndiv (of_Z 1) (of_Z 2)))).

(** [if jitter > 0: for i in range(3): lamp.location[i] += rand(jitter)] *)
Definition jitter_lamp (lamp : string) (jitter : num) : M unit :=
  if nltb (of_Z 0) jitter then
    for_each (seq 0 3)
      (fun i _ => d ← rand jitter; emit (MoveLamp lamp i d)) tt
  else mret tt.

(** [bpy.ops.wm.open_mainfile]: the scene graph becomes the base scene. *)
Definition open_mainfile : M unit := fun w =>
  emit OpenMainfile
    {| draws := draws w; renders := renders w;
       data_objects := base_scene e;
       camera_location := base_camera_location e;
       trace := trace w |}.

(** [bpy.data.objects['Camera'].location[axis] = value] *)
Definition set_camera (axis : nat) (value : num) : M unit := fun w =>
  let '(c0, c1, c2) := camera_location w in
  let c' :=
    match axis with
    | 0%nat => (value, c1, c2)
    | 1%nat => (c0, value, c2)
    | _ => (c0, c1, value)
    end in
  emit (MoveCamera axis value)
    {| draws := draws w; renders := renders w;
       data_objects := data_objects w;
       camera_location := c';
       trace := trace w |}.

(** [len(bpy.data.objects)] *)
Definition len_data_objects : M nat := fun w =>
  (Ok (length (data_objects w)), w).

(** [bpy.ops.render.render(write_still=True)]: [true] when it raises. *)
Definition render (file_index : Z) : M bool := fun w =>
  let raised := render_raises e (renders w) in
  (emit (Render file_index raised);; mret raised)
    {| draws := draws w; renders := S (renders w);
       data_objects := data_objects w;
       camera_location := camera_location w;
       trace := trace w |}.

(** [math.radians] *)
Definition radians (x : num) : num := nmul x (ndiv npi (of_Z 180)).

(** The [while True: try ... except Exception] loop around the renderer. *)
Fixpoint render_frame (fuel : nat) (file_index : Z) (stepsize : num)
    : M frame :=
  match fuel with
  | O => out_of_fuel
  | S fuel' =>
      raised ← render file_index;
      if raised : bool then render_frame fuel' file_index stepsize
      else
        cam ← get_camera_location;
        mret {| file_path := file_index;
                frame_rotation := radians stepsize;
                transform_matrix := matrix_world e cam |}
  end.

(** The polar angle of tier [j] and the azimuth of shot [i]. *)
Definition tier_phi (j : Z) : num :=
  nmul (ndiv (ndiv (nmul npi (of_Z 3)) (of_Z 10)) (of_Z num_heights))
       (of_Z (j + 1)).

Definition shot_azimuth (i : Z) : num :=
  nmul (nmul (ndiv (of_Z (2 * i - 1)) (of_Z (num_cams a))) (of_Z num_heights))
       npi.

(** The body of the inner loop, for tier [j] and shot [i]; [st] holds the
    variables [objects] and [out_data['frames']]. *)
Definition camera_shot (fuel : nat) (num_objects : Z) (stepsize : num)
    (j i : Z) (st : render_result) : M render_result :=
  let phi := tier_phi j in
  let file_index := (num_cams a / num_heights * j + i)%Z in
  set_camera 0 (nmul (nmul (of_Z 10) (ncos (shot_azimuth i))) (nsin phi));;
  set_camera 1 (nmul (nmul (of_Z 10) (nsin (shot_azimuth i))) (nsin phi));;
  n ← len_data_objects;
  objs ← (if (n =? 7)%nat then
            emit (Call "render_scene" "add_random_objects");;
            res ← add_random_objects fuel num_objects;
            mret (Some (fst res))
          else mret (final_objects st));
  frame_data ← render_frame fuel file_index stepsize;
  mret {| final_objects := objs; frames := frames st ++ [frame_data] |}.

(** The body of the outer loop, for tier [j]. *)
Definition camera_tier (fuel : nat) (num_objects : Z) (stepsize : num)
    (j : Z) (st : render_result) : M render_result :=
  set_camera 2 (nmul (of_Z 10) (ncos (tier_phi j)));;
  for_each (seqZ 0 (num_cams a / num_heights))
           (camera_shot fuel num_objects stepsize j) st.

Definition render_scene (fuel : nat) (num_objects : Z)
    (output_blendfile : option string) : M render_result :=
  open_mainfile;;
  emit LoadMaterials;;
  jitter_lamp "Lamp_Key" (key_light_jitter a);;
  jitter_lamp "Lamp_Back" (back_light_jitter a);;
  jitter_lamp "Lamp_Fill" (fill_light_jitter a);;
  if (num_cams a =? 0)%Z then raise ZeroDivisionError
  else
    let stepsize :=
      nmul (ndiv (of_Z 360) (of_Z (num_cams a))) (of_Z num_heights) in
    st ← for_each (seqZ 0 num_heights)
           (camera_tier fuel num_objects stepsize)
           {| final_objects := None; frames := [] |};
    match output_blendfile with
    | Some path => emit (SaveAsMainfile path)
    | None => mret tt
    end;;
    emit WriteTransforms;;
    mret st.

End Program.

Arguments blender_object num : clear implicits.
Arguments event num : clear implicits.
Arguments env num : clear implicits.
Arguments world num : clear implicits.
Arguments M num A : clear implicits.
Arguments properties num : clear implicits.
Arguments args num : clear implicits.
Arguments locals num : clear implicits.
Arguments frame num : clear implicits.
Arguments render_result num : clear implicits.

(** ** listify_matrix and main *)

(** [listify_matrix(matrix)]: the rows are appended one by one, each copied
    by [list(row)]. *)
Definition listify_matrix {A} (matrix : list (list A)) : list (list A) :=
  foldl (fun matrix_list row => matrix_list ++ [row]) [] matrix.

(** [b.startswith('/')] and [a.endswith('/')] *)
Definition starts_with_sep (b : string) : bool := String.prefix "/" b.

Fixpoint ends_with_sep (a : string) : bool :=
  match a with
  | EmptyString => false
  | String c EmptyString => String.eqb (String c EmptyString) "/"
  | String _ a' => ends_with_sep a'
  end.

(** [os.path.join(a, b)] of [posixpath]: an absolute [b] replaces [a]; the
    separator is added unless [a] is empty or ends with one. *)
Definition os_path_join (a b : string) : string :=
  if starts_with_sep b then b
  else if String.eqb a "" || ends_with_sep a then a +:+ b
  else a +:+ "/" +:+ b.

(** [s[:-1]] *)
Fixpoint drop_last (s : string) : string :=
  match s with
  | EmptyString => EmptyString
  | String _ EmptyString => EmptyString
  | String c s' => String c (drop_last s')
  end.

Section Main.
Context {num : Type} `{NumOps num} `{TrigOps num}.

(** The options [main] reads besides those of [render_scene]. *)
Record main_args := {
  scene_args : args num;
  filename_prefix : string;
  split : string;
  save_blendfiles : Z;
  min_objects : Z;
  max_objects : Z
}.

(** The file system as [main] meets it: which paths are directories, and
    for which paths [os.makedirs] raises. *)
Record os_env := {
  isdir : string -> bool;
  makedirs_raises : string -> bool
}.

Inductive main_exn : Type :=
| ValueError
| OSError (path : string)
| SceneError (x : exn).

Inductive main_outcome : Type :=
| MainOk (res : render_result num)
| MainRaise (x : main_exn)
| MainOutOfFuel.

(** What a call of [main] leaves behind: the calls of [os.makedirs] in
    order, how the call ended and the state of Blender. *)
Record main_run := {
  made_dirs : list string;
  returned_main : main_outcome;
  left_world : world num
}.

Variable ma : main_args.

Definition output_image_dir : string :=
  os_path_join (output_dir (scene_args ma)) "images".

Definition output_blend_dir : string :=
  os_path_join (output_dir (scene_args ma)) "blendfiles".

(** ['%s_%s_' % (args.filename_prefix, args.split)] *)
Definition prefix : string :=
  filename_prefix ma +:+ "_" +:+ split ma +:+ "_".

(** ['%s%%0%dd.png' % (prefix, num_digits)], joined to the image
    directory.  [render_scene] formats it with the index of each shot; the
    events of a render carry that index. *)
Definition img_template : string :=
  os_path_join output_image_dir (prefix +:+ "%06d.png").

(** [f"{prefix[:-1]}.blend"], joined to the blend directory. *)
Definition blend_path : string :=
  os_path_join output_blend_dir (drop_last prefix +:+ ".blend").

(** [if wanted and not os.path.isdir(path): os.makedirs(path)]: the calls
    made and whether the last one raised. *)
Definition ensure_dir (os : os_env) (wanted : bool) (path : string)
    : list string * bool :=
  if wanted && negb (isdir os path) then ([path], makedirs_raises os path)
  else ([], false).

(** [random.randint(a, b)], which is [randrange(a, b + 1)]: the value
    [a + _randbelow(b + 1 - a)], or [None] for the [ValueError] of an empty
    range. *)
Definition random_randint (e : env num) (lo hi : Z)
    : world num -> option Z * world num := fun w =>
  let width := (hi + 1 - lo)%Z in
  if (0 <? width)%Z then
    (Some (lo + Z.of_nat (randbelow_src e (draws w) `mod` Z.to_nat width))%Z,
     next_draw w)
  else (None, w).

Definition main (os : os_env) (e : env num) (fuel : nat) (w : world num)
    : main_run :=
  let '(made1, failed1) := ensure_dir os true output_image_dir in
  if failed1 : bool then
    {| made_dirs := made1;
       returned_main := MainRaise (OSError output_image_dir);
       left_world := w |}
  else
    let '(made2, failed2) :=
      ensure_dir os (save_blendfiles ma =? 1)%Z output_blend_dir in
    if failed2 : bool then
      {| made_dirs := made1 ++ made2;
         returned_main := MainRaise (OSError output_blend_dir);
         left_world := w |}
    else
      match random_randint e (min_objects ma) (max_objects ma) w with
      | (None, w1) =>
          {| made_dirs := made1 ++ made2;
             returned_main := MainRaise ValueError;
             left_world := w1 |}
      | (Some num_objects, w1) =>
          let '(r, w2) :=
            render_scene e (scene_args ma) fuel num_objects
              (if (save_blendfiles ma =? 1)%Z then Some blend_path else None)
              w1 in
          {| made_dirs := made1 ++ made2;
             returned_main :=
               match r with
               | Ok res => MainOk res
               | Raise x => MainRaise (SceneError x)
               | OutOfFuel => MainOutOfFuel
               end;
             left_world := w2 |}
      end.

(** The defaults of the argument parser, for the options the model reads;
    the two JSON files and [--output_dir], whose default comes from
    Blender, are given. *)
Definition parser_defaults (p : properties num)
    (combos : option (list (string * list string))) (out : string)
    : main_args :=
  {| scene_args :=
       {| properties_json := p;
          shape_color_combos_json := combos;
          output_dir := out;
          shape_dir := "data/shapes";
          min_dist := ndiv (of_Z 1) (of_Z 4);
          margin := ndiv (of_Z 2) (of_Z 5);
          max_retries := 50;
          num_cams := 1;
          key_light_jitter := of_Z 1;
          back_light_jitter := of_Z 1;
          fill_light_jitter := of_Z 1 |};
     filename_prefix := "CLEVR";
     split := "new";
     save_blendfiles := 0;
     min_objects := 3;
     max_objects := 10 |}.

End Main.

Arguments main_args num : clear implicits.
Arguments main_outcome num : clear implicits.
Arguments main_run num : clear implicits.

(** ** Vocabulary of the statements *)

Section Vocabulary.
Context {num : Type} `{NumOps num}.

(** [same_scene w w']: only the number of consumed draws may differ. *)
Definition same_scene (w w' : world num) : Prop :=
  data_objects w' = data_objects w ∧
  camera_location w' = camera_location w ∧
  renders w' = renders w ∧
  trace w' = trace w.

(** The scene-graph calls of one completed slot. *)
Definition slot_events (evs : list (event num)) : Prop :=
  ∃ dir name scale loc theta id mat rgba,
    evs = [AddObject dir name scale loc theta id; SetLayer id;
           AddMaterial mat rgba].

(** The calls left by a slot that failed at the choice of its material. *)
Definition broken_slot_events (evs : list (event num)) : Prop :=
  ∃ dir name scale loc theta id,
    evs = [AddObject dir name scale loc theta id; SetLayer id].

(** An object created after everything in [base]. *)
Definition newer_than (base : list (blender_object num))
    (o : blender_object num) : Prop :=
  list_max (map ob_id base) < ob_id o.

(** The recorded shape is a key of the restriction table and the recorded
    colour is in the list stored under it. *)
Definition permitted (combos : list (string * list string))
    (shape_name color_name : string) : Prop :=
  ∃ color_choices,
    (shape_name, color_choices) ∈ combos ∧ color_name ∈ color_choices.

Variable a : args num.

(** How the recorded radius [p] of an object [o] derives from the
    catalogue: [name] is the asset listed for the recorded shape and [r0]
    the scale factor listed for the recorded size. *)
Definition radius_derived (o : object num) (p : num * num * num) : Prop :=
  ∃ (name : string) (r0 : num),
    (name, shape o) ∈ object_mapping a ∧
    (size o, r0) ∈ size_mapping a ∧
    snd p = adjust_size name r0.

(** What the choice of shape and colour guarantees when it succeeds. *)
Definition shape_color_ok (obj_name obj_name_out color_name : string)
    (rgba : list num) : Prop :=
  (obj_name, obj_name_out) ∈ object_mapping a ∧
  match shape_color_combos_json a with
  | None => (color_name, rgba) ∈ color_name_to_rgba a
  | Some shape_color_combos =>
      (∃ color_choices,
          (obj_name_out, color_choices) ∈ shape_color_combos ∧
          color_name ∈ color_choices) ∧
      dict_get (color_name_to_rgba a) color_name = Some rgba
  end.

(** One completed slot: the lists [L'] extend [L] by an object of drawn
    size [r], accepted at [(x, y)] against the positions of [L]. *)
Inductive placement (L L' : locals num) : Prop :=
| placement_intro (size_name : string) (r x y : num)
    (obj_name obj_name_out color_name : string) (rgba : list num)
    (theta : num) (obj : blender_object num)
    (mat_name mat_name_out : string) (pixel : Z * Z) :
    (size_name, r) ∈ size_mapping a →
    dists_good a (positions L) x y r = true →
    shape_color_ok obj_name obj_name_out color_name rgba →
    (mat_name, mat_name_out) ∈ material_mapping a →
    L' = {| positions := positions L ++ [(x, y, adjust_size obj_name r)];
            objects := objects L ++
              [ {| shape := obj_name_out;
                   size := size_name;
                   material := mat_name_out;
                   coords_3d := ob_location obj;
                   rotation := theta;
                   pixel_coords := pixel;
                   color := color_name |} ];
            blender_objects := blender_objects L ++ [obj] |} →
    placement L L'.

End Vocabulary.

(** Separation of two recorded placements [(x, y, r)]: their planar distance
    minus the sum of their radii, against the minimum distance. *)
Definition planar_distance (p q : R * R * R) : R :=
  let '(x, y, _) := p in
  let '(xx, yy, _) := q in
  sqrt ((x - xx) * (x - xx) + (y - yy) * (y - yy)).

Definition radius (p : R * R * R) : R := snd p.

Definition separated (min_distance : R) (p q : R * R * R) : Prop :=
  (min_distance <= planar_distance p q - (radius p + radius q))%R.

Definition pairwise_separated (min_distance : R) (ps : list (R * R * R))
    : Prop :=
  ∀ (i j : nat) (p q : R * R * R),
    i ≠ j → ps !! i = Some p → ps !! j = Some q → separated min_distance p q.

Definition sizes_nonnegative (a : args R) : Prop :=
  ∀ (size_name : string) (r : R), (size_name, r) ∈ size_mapping a → (0 <= r)%R.

Section TraceVocabulary.
Context {num : Type} `{NumOps num}.

(** [emits T F m]: a run of [m] that does not end in an exception outside
    [F] appends to the trace a list of events in the language [T]. *)
Definition emits {A} (T : list (event num) → Prop) (F : exn → Prop)
    (m : M num A) : Prop :=
  ∀ (w w' : world num) (r : outcome A),
    m w = (r, w') →
    (∀ x, r = Raise x → F x) →
    ∃ evs, trace w' = trace w ++ evs ∧ T evs.

(** Languages of traces that contain the empty trace and are closed under
    concatenation. *)
Class TraceMonoid (T : list (event num) → Prop) : Prop := {
  trace_nil : T [];
  trace_app : ∀ evs1 evs2, T evs1 → T evs2 → T (evs1 ++ evs2)
}.

(** Traces made of completed slots, of the deletions of a restart, and of
    the recursive call that follows them. *)
Inductive whole_slots : list (event num) → Prop :=
| whole_nil : whole_slots []
| whole_slot (evs rest : list (event num)) :
    slot_events evs → whole_slots rest → whole_slots (evs ++ rest)
| whole_delete (id : nat) (rest : list (event num)) :
    whole_slots rest → whole_slots (DeleteObject id :: rest)
| whole_restart (rest : list (event num)) :
    whole_slots rest →
    whole_slots (Call "add_random_objects" "add_random_objects" :: rest).

(** The exceptions of a name that cannot be resolved: the shape missing
    from [object_mapping] and the colour missing from
    [color_name_to_rgba]. *)
Definition unresolved_name (x : exn) : Prop :=
  x = IndexError "list index out of range" ∨ ∃ key, x = KeyError key.

(** Events that change the objects of the scene or their materials. *)
Definition is_add_object (ev : event num) : bool :=
  match ev with AddObject _ _ _ _ _ _ => true | _ => false end.

Definition is_add_material (ev : event num) : bool :=
  match ev with AddMaterial _ _ => true | _ => false end.

Definition is_call (caller callee : string) (ev : event num) : bool :=
  match ev with
  | Call c c' => String.eqb c caller && String.eqb c' callee
  | _ => false
  end.

(** The events [add_random_objects] can append. *)
Definition placing_event (ev : event num) : Prop :=
  match ev with
  | AddObject _ _ _ _ _ _ | SetLayer _ | AddMaterial _ _ | DeleteObject _ => True
  | Call c c' => c = "add_random_objects" ∧ c' = "add_random_objects"
  | _ => False
  end.

End TraceVocabulary.

Section RenderVocabulary.
Context {num : Type} `{NumOps num}.

(** A call of [callee], whoever the caller is. *)
Definition is_call_to (callee : string) (ev : event num) : bool :=
  match ev with
  | Call _ c' => String.eqb c' callee
  | _ => false
  end.

(** The invocation of [add_random_objects] by the camera loop. *)
Definition is_top_call (ev : event num) : bool :=
  is_call "render_scene" "add_random_objects" ev.

Definition count_top_calls (evs : list (event num)) : nat :=
  length (filter (fun ev => is_top_call ev = true) evs).

Definition no_add_object (evs : list (event num)) : Prop :=
  Forall (fun ev => is_add_object ev = false) evs.

(** No object has been added before any invocation by the camera loop:
    all the objects of the trace were added by its last invocation. *)
Definition placed_once (evs : list (event num)) : Prop :=
  ∀ pre post ev,
    evs = pre ++ ev :: post → is_top_call ev = true → no_add_object pre.

(** Events that neither add an object nor invoke [add_random_objects]
    from the camera loop. *)
Definition neutral (ev : event num) : Prop :=
  is_add_object ev = false ∧ is_top_call ev = false.

(** [neutral_step m]: whatever its outcome, [m] appends neutral events
    and leaves [bpy.data.objects] alone. *)
Definition neutral_step {A} (m : M num A) : Prop :=
  ∀ (w w' : world num) (r : outcome A),
    m w = (r, w') →
    ∃ evs, trace w' = trace w ++ evs ∧ Forall neutral evs ∧
           data_objects w' = data_objects w.

(** The events the modelled functions can append. *)
Definition known_event (ev : event num) : Prop :=
  match ev with
  | Call c c' =>
      (c = "render_scene" ∧ c' = "add_random_objects") ∨
      (c = "add_random_objects" ∧ c' = "add_random_objects")
  | _ => True
  end.

End RenderVocabulary.

(** Separation of two placements along a planar direction [d], the quantity
    the margin option speaks of, and the margin constraint over a set of
    directions. *)
Definition along (d : R * R) (p q : R * R * R) : R :=
  let '(x, y, _) := p in
  let '(xx, yy, _) := q in
  ((xx - x) * fst d + (yy - y) * snd d)%R.

Definition margin_kept (m : R) (dirs : list (R * R)) (ps : list (R * R * R))
    : Prop :=
  ∀ (i j : nat) (p q : R * R * R) (d : R * R),
    i ≠ j → ps !! i = Some p → ps !! j = Some q → d ∈ dirs →
    (m <= Rabs (along d p q))%R.

Section OrbitVocabulary.
Context {num : Type} `{NumOps num}.

(** [keeps_objects m]: whatever its outcome, [m] leaves [bpy.data.objects]
    as it found it. *)
Definition keeps_objects {A} (m : M num A) : Prop :=
  ∀ (w w' : world num) (r : outcome A),
    m w = (r, w') → data_objects w' = data_objects w.

Definition hoare {A} (P : world num → Prop) (m : M num A)
    (Q : outcome A → world num → Prop) : Prop :=
  ∀ (w w' : world num) (r : outcome A), P w → m w = (r, w') → Q r w'.

(** What holds of the events [evs] of a call of [render_scene] at any
    point of the camera loop: [n] is [num_objects], [b] the number of
    objects of the base scene and [cams] the option [num_cams]. *)
Definition orbit_inv (n : Z) (b : nat) (cams : Z) (evs : list (event num))
    : Prop :=
  placed_once evs ∧
  (count_top_calls evs = 0%nat → no_add_object evs) ∧
  ((1 <= n)%Z → count_top_calls evs ≤ 1) ∧
  (b ≠ 7%nat → count_top_calls evs = 0%nat) ∧
  ((cams / 8 <= 0)%Z → count_top_calls evs = 0%nat).

(** What holds in addition between two passes of the loop: [d] is
    [len(bpy.data.objects)] and [objs] the variable [objects]. *)
Definition orbit_state (n : Z) (b : nat) (evs : list (event num)) (d : nat)
    (objs : option (list (object num))) : Prop :=
  (no_add_object evs ∨ d ≠ 7%nat) ∧
  (count_top_calls evs = 0%nat → d = b ∧ objs = None) ∧
  ((1 <= n)%Z → count_top_calls evs = 1%nat → d ≠ 7%nat).

(** The two together, for the events appended to [t0], and what is left
    of them when a step ends in an exception or out of fuel. *)
Definition orbit_holds (t0 : list (event num)) (n : Z) (b : nat) (cams : Z)
    (objs : option (list (object num))) (w : world num) : Prop :=
  ∃ evs, trace w = t0 ++ evs ∧ orbit_inv n b cams evs ∧
         orbit_state n b evs (length (data_objects w)) objs.

Definition orbit_aborted (t0 : list (event num)) (n : Z) (b : nat)
    (cams : Z) (w : world num) : Prop :=
  ∃ evs, trace w = t0 ++ evs ∧ orbit_inv n b cams evs.

Definition orbit_post {A} (t0 : list (event num)) (n : Z) (b : nat)
    (cams : Z) (f : A → option (list (object num))) (r : outcome A)
    (w : world num) : Prop :=
  match r with
  | Ok x => orbit_holds t0 n b cams (f x) w
  | _ => orbit_aborted t0 n b cams w
  end.

End OrbitVocabulary.

(** ** Concrete inputs

    The catalogue, options and surroundings on which the statements below
    are exercised. *)

Section Inputs.
Context {num : Type} `{NumOps num}.

(** A Blender side that puts an object where [add_object] is told to and
    a renderer that never fails; the base scene holds seven objects. *)
Definition plain_env (randbelow : nat -> nat) (random : nat -> num)
    : env num :=
  {| randbelow_src := randbelow;
     random_src := random;
     base_scene :=
       map (fun i => {| ob_id := i;
                        ob_location := (of_Z 0, of_Z 0, of_Z 0) |})
           (seq 0 7);
     base_camera_location := (of_Z 0, of_Z 0, of_Z 10);
     camera_angle_x := of_Z 1;
     object_location := fun _ scale '(x, y) => (x, y, scale);
     get_camera_coords := fun _ _ => (0%Z, 0%Z);
     matrix_world := fun _ => [];
     render_raises := fun _ => false |}.

Definition cube_catalogue (size_value : num) : properties num :=
  {| colors := [("red", [of_Z 173; of_Z 35; of_Z 35])];
     materials := [("rubber", "Rubber")];
     shapes := [("cube", "Cube")];
     sizes := [("large", size_value)] |}.

Definition options (p : properties num)
    (combos : option (list (string * list string)))
    (min_distance margin_value : num) (cams : Z) : args num :=
  {| properties_json := p;
     shape_color_combos_json := combos;
     output_dir := "output";
     shape_dir := "shapes";
     min_dist := min_distance;
     margin := margin_value;
     max_retries := 50;
     num_cams := cams;
     key_light_jitter := of_Z 1;
     back_light_jitter := of_Z 1;
     fill_light_jitter := of_Z 1 |}.

(** The state right after the base scene has been loaded. *)
Definition loaded_world (e : env num) : world num :=
  {| draws := 0; renders := 0;
     data_objects := base_scene e;
     camera_location := base_camera_location e;
     trace := [] |}.

End Inputs.

(** Draws that put the first object at the origin and the second one at
    [(-3 + 6 * u, 0)]. *)
Definition second_at (u : R) (t : nat) : R :=
  if (t =? 8)%nat then u else (1 / 2)%R.

Definition cube_args (size_value min_distance : R) : args R :=
  options (cube_catalogue size_value) None min_distance (2 / 5)%R 16.

Definition cube_env (u : R) : env R := plain_env (fun _ => 0%nat) (second_at u).

Definition origin_x : R := (-3 + (3 - -3) * (1 / 2))%R.
Definition second_x (u : R) : R := (-3 + (3 - -3) * u)%R.

Section MoreInputs.
Context {num : Type} `{NumOps num}.

Definition with_max_retries (m : Z) (a : args num) : args num :=
  {| properties_json := properties_json a;
     shape_color_combos_json := shape_color_combos_json a;
     output_dir := output_dir a;
     shape_dir := shape_dir a;
     min_dist := min_dist a;
     margin := margin a;
     max_retries := m;
     num_cams := num_cams a;
     key_light_jitter := key_light_jitter a;
     back_light_jitter := back_light_jitter a;
     fill_light_jitter := fill_light_jitter a |}.

Definition two_color_catalogue (size_value : num) : properties num :=
  {| colors := [("red", [of_Z 173; of_Z 35; of_Z 35]);
                ("blue", [of_Z 42; of_Z 75; of_Z 215])];
     materials := [("rubber", "Rubber")];
     shapes := [("cube", "Cube")];
     sizes := [("large", size_value)] |}.

End MoreInputs.

(** Binary64 inputs.  All draws of [random.random()] are [0.5], which puts
    a candidate at the origin, except the draw numbered [far], which is
    [0.75] and gives the coordinate [1.5]. *)
Definition float_draws (far : nat) (t : nat) : float :=
  if (t =? far)%nat then 0.75%float else 0.5%float.

(** Two cubes with at most one try per slot: the second slot of the first
    attempt fails and the second attempt succeeds. *)
Definition retry_env : env float := plain_env (fun _ => 0%nat) (float_draws 18).

Definition retry_args : args float :=
  with_max_retries 1
    (options (cube_catalogue 0.7%float) None 0.25%float 0.4%float 16).

(** The state of the first attempt when its second slot starts. *)
Definition retry_first_slot : outcome (locals float) * world float :=
  Eval vm_compute in
    add_random_objects_locals retry_env retry_args 1 1 (loaded_world retry_env).

Definition retry_locals : locals float :=
  match fst retry_first_slot with
  | Ok L => L
  | _ => no_locals
  end.

Definition retry_world : world float := snd retry_first_slot.

(** A restriction table over the two-colour catalogue. *)
Definition cogent_args : args float :=
  options (two_color_catalogue 0.7%float)
          (Some [("cube", ["red"; "blue"])]) 0.25%float 0.4%float 16.

Definition cogent_env : env float :=
  plain_env (fun t => if (t =? 11)%nat then 1%nat else 0%nat) (float_draws 8).

(** A restriction table that names a shape the catalogue does not have. *)
Definition ghost_args : args float :=
  options (cube_catalogue 0.7%float)
          (Some [("cube", ["red"]); ("ghost", ["red"])])
          0.25%float 0.4%float 16.

(** The second slot draws the second entry of the table. *)
Definition ghost_env : env float :=
  plain_env (fun t => if (t =? 10)%nat then 1%nat else 0%nat) (float_draws 8).

Section CameraInputs.
Context {num : Type} `{NumOps num}.

Definition with_num_cams (cams : Z) (a : args num) : args num :=
  {| properties_json := properties_json a;
     shape_color_combos_json := shape_color_combos_json a;
     output_dir := output_dir a;
     shape_dir := shape_dir a;
     min_dist := min_dist a;
     margin := margin a;
     max_retries := max_retries a;
     num_cams := cams;
     key_light_jitter := key_light_jitter a;
     back_light_jitter := back_light_jitter a;
     fill_light_jitter := fill_light_jitter a |}.

End CameraInputs.

(** One cube of size 7/10 and [cams] cameras, over the reals. *)
Definition orbit_args (cams : Z) : args R :=
  with_num_cams cams (cube_args (7 / 10) (1 / 4)).

Definition orbit_env : env R := cube_env (1 / 2).

(** The run on the table with the unknown shape. *)
Definition ghost_run
    : outcome (list (object float) * list (blender_object float)) * world float :=
  Eval vm_compute in
    add_random_objects ghost_env ghost_args 1 2 (loaded_world ghost_env).

(** The run with the default [--num_cams 1], and a run with eight cameras;
    both place one object. *)
Definition default_cams_run : outcome (render_result R) * world R :=
  render_scene orbit_env (orbit_args 1) 1 1 None (loaded_world orbit_env).

Definition eight_cams_run : outcome (render_result R) * world R :=
  render_scene orbit_env (orbit_args 8) 1 1 None (loaded_world orbit_env).

(** Two objects one unit apart along the x axis, and a frame of four
    direction vectors with the vertical pair. *)
Definition object_at (x y z : R) : object R :=
  {| shape := "cube"; size := "large"; material := "rubber";
     coords_3d := (x, y, z); rotation := 0%R; pixel_coords := (0%Z, 0%Z);
     color := "red" |}.

Definition axis_scene : scene_struct R :=
  {| ss_objects := [object_at 0 0 0; object_at 1 0 0];
     ss_directions :=
       <[ "right" := (1, 0, 0)%R ]>
         (<[ "left" := (-1, 0, 0)%R ]>
            (<[ "above" := (0, 0, 1)%R ]>
               (<[ "below" := (0, 0, -1)%R ]> ∅))) |}.

(** The same scene in binary64. *)
Definition axis_scene_binary64 : scene_struct float :=
  {| ss_objects :=
       [ {| shape := "cube"; size := "large"; material := "rubber";
            coords_3d := (0, 0, 0)%float; rotation := 0%float;
            pixel_coords := (0%Z, 0%Z); color := "red" |};
         {| shape := "cube"; size := "large"; material := "rubber";
            coords_3d := (1, 0, 0)%float; rotation := 0%float;
            pixel_coords := (0%Z, 0%Z); color := "red" |} ];
     ss_directions :=
       <[ "right" := (1, 0, 0)%float ]>
         (<[ "left" := (-1, 0, 0)%float ]>
            (<[ "above" := (0, 0, 1)%float ]>
               (<[ "below" := (0, 0, -1)%float ]> ∅))) |}.

(** ** Further vocabulary *)

Section RelationVocabulary.
Context {num : Type} `{NumOps num}.

(** [related_to scene eps name i j]: the index [j] is listed in row [i] of
    the table stored under [name], that is, [j in output[name][i]]. *)
Definition related_to (scene : scene_struct num) (eps : num) (name : string)
    (i j : nat) : Prop :=
  ∃ rows row,
    compute_all_relationships scene eps !! name = Some rows ∧
    rows !! i = Some row ∧ j ∈ row.

(** The opposite of a direction vector. *)
Definition opposite (v : vec3 num) : vec3 num :=
  let '(v0, v1, v2) := v in
  (nsub (of_Z 0) v0, nsub (of_Z 0) v1, nsub (of_Z 0) v2).

End RelationVocabulary.

Section CameraVocabulary.
Context {num : Type} `{NumOps num} `{TrigOps num}.
Variable e : env num.
Variable a : args num.

(** Where the camera loop puts the camera for shot [i] of tier [j]. *)
Definition camera_pose (j i : Z) : vec3 num :=
  (nmul (nmul (of_Z 10) (ncos (shot_azimuth a i))) (nsin (tier_phi j)),
   nmul (nmul (of_Z 10) (nsin (shot_azimuth a i))) (nsin (tier_phi j)),
   nmul (of_Z 10) (ncos (tier_phi j))).

(** The record of that shot in [out_data['frames']]. *)
Definition frame_of (j i : Z) : frame num :=
  {| file_path := (num_cams a / num_heights * j + i)%Z;
     frame_rotation :=
       radians (nmul (ndiv (of_Z 360) (of_Z (num_cams a))) (of_Z num_heights));
     transform_matrix := matrix_world e (camera_pose j i) |}.

Definition tier_frames (j : Z) : list (frame num) :=
  map (frame_of j) (seqZ 0 (num_cams a / num_heights)).

Definition all_frames : list (frame num) :=
  concat (map tier_frames (seqZ 0 num_heights)).

(** The value of [rand(L)] at the draw numbered [t], and the moves of one
    lamp when the generator stands at [t]. *)
Definition rand_draw (L : num) (t : nat) : num :=
  nmul (nmul (of_Z 2) L) (nsub (random_src e t) (ndiv (of_Z 1) (of_Z 2))).

Definition lamp_moves (lamp : string) (L : num) (t : nat)
    : list (event num) :=
  if nltb (of_Z 0) L then
    [MoveLamp lamp 0 (rand_draw L t); MoveLamp lamp 1 (rand_draw L (S t));
     MoveLamp lamp 2 (rand_draw L (S (S t)))]
  else [].

Definition lamp_draws (L : num) : nat := if nltb (of_Z 0) L then 3 else 0.

(** The moves of the three lamps, in the order of the code. *)
Definition all_lamp_moves (t : nat) : list (event num) :=
  lamp_moves "Lamp_Key" (key_light_jitter a) t
  ++ lamp_moves "Lamp_Back" (back_light_jitter a)
       (t + lamp_draws (key_light_jitter a))
  ++ lamp_moves "Lamp_Fill" (fill_light_jitter a)
       (t + lamp_draws (key_light_jitter a)
          + lamp_draws (back_light_jitter a)).

(** The jitter option that governs a lamp. *)
Definition lamp_jitter (lamp : string) : option num :=
  if String.eqb lamp "Lamp_Key" then Some (key_light_jitter a)
  else if String.eqb lamp "Lamp_Back" then Some (back_light_jitter a)
  else if String.eqb lamp "Lamp_Fill" then Some (fill_light_jitter a)
  else None.

End CameraVocabulary.

Section PhaseVocabulary.
Context {num : Type} `{NumOps num}.

(** Events of the camera loop: moves of the camera, calls of the renderer,
    the invocation of [add_random_objects] and what that function does. *)
Definition loop_event (ev : event num) : Prop :=
  match ev with
  | MoveCamera _ _ | Render _ _ => True
  | Call c c' => c' = "add_random_objects" ∧
                 (c = "render_scene" ∨ c = "add_random_objects")
  | AddObject _ _ _ _ _ _ | SetLayer _ | AddMaterial _ _ | DeleteObject _ => True
  | _ => False
  end.

(** Events that produce no output file. *)
Definition unrendered (ev : event num) : Prop :=
  match ev with
  | Render _ _ | SaveAsMainfile _ | WriteTransforms => False
  | _ => True
  end.

(** The indices of the renders that succeeded, in order. *)
Definition rendered_indices (evs : list (event num)) : list Z :=
  omap (fun ev => match ev with
                  | Render file_index false => Some file_index
                  | _ => None
                  end) evs.

Definition returned {A} (r : outcome A) : bool :=
  match r with Ok _ => true | _ => false end.

(** [keeps_camera m]: whatever its outcome, [m] leaves the camera where it
    is. *)
Definition keeps_camera {A} (m : M num A) : Prop :=
  ∀ (w w' : world num) (r : outcome A),
    m w = (r, w') → camera_location w' = camera_location w.

End PhaseVocabulary.

Section TailVocabulary.
Context {num : Type} `{NumOps num} `{TrigOps num}.
Variable e : env num.
Variable a : args num.

(** [render_scene] from the computation of [stepsize] on: the camera loop
    and the two output files. *)
Definition render_scene_tail (fuel : nat) (num_objects : Z)
    (output_blendfile : option string) : M num (render_result num) :=
  if (num_cams a =? 0)%Z then raise ZeroDivisionError
  else
    let stepsize :=
      nmul (ndiv (of_Z 360) (of_Z (num_cams a))) (of_Z num_heights) in
    st ← for_each (seqZ 0 num_heights)
           (camera_tier e a fuel num_objects stepsize)
           {| final_objects := None; frames := [] |};
    match output_blendfile with
    | Some path => emit (SaveAsMainfile path)
    | None => mret tt
    end;;
    emit WriteTransforms;;
    mret st.

(** The events of the two output files of a call that returns. *)
Definition output_events (output_blendfile : option string)
    : list (event num) :=
  match output_blendfile with
  | Some path => [SaveAsMainfile path; WriteTransforms]
  | None => [WriteTransforms]
  end.

End TailVocabulary.

Section OutcomeVocabulary.
Context {num : Type} `{NumOps num}.

(** Nothing has been rendered or written since the trace [t0]. *)
Definition quiet_since (t0 : list (event num)) (w : world num) : Prop :=
  ∃ evs, trace w = t0 ++ evs ∧ Forall unrendered evs.

(** The gate of the camera loop is closed for good, or the function behind
    it has nothing to place ([n] is [num_objects]). *)
Definition settled (n : Z) (w : world num) : Prop :=
  length (data_objects w) ≠ 7%nat ∨ (n <= 0)%Z.

(** The two states of the variable [objects] and of the scene graph in a
    call for [n >= 1] objects on a base scene of seven: before and after
    the placement. *)
Definition unplaced (st : render_result num) (w : world num) : Prop :=
  final_objects st = None ∧ length (data_objects w) = 7%nat.

Definition placed (n : Z) (st : render_result num) (w : world num) : Prop :=
  ∃ objs, final_objects st = Some objs ∧
          length objs = Z.to_nat n ∧
          length (data_objects w) = (7 + Z.to_nat n)%nat.

(** A lamp move within the jitter of its lamp. *)
Definition is_move_lamp (ev : event num) : bool :=
  match ev with MoveLamp _ _ _ => true | _ => false end.

End OutcomeVocabulary.

(** A lamp move whose lamp has a positive jitter [L] and whose amount lies
    in [-L, L). *)
Definition bounded_move (a : args R) (ev : event R) : Prop :=
  match ev with
  | MoveLamp lamp axis d =>
      ∃ L, lamp_jitter a lamp = Some L ∧ (0 < L)%R ∧ (- L <= d < L)%R ∧
           (axis < 3)%nat
  | _ => False
  end.

Section FixedVocabulary.
Context {num : Type} `{NumOps num}.

(** Events that leave the objects of the scene and their materials
    alone. *)
Definition still (ev : event num) : Prop :=
  match ev with
  | AddObject _ _ _ _ _ _ | SetLayer _ | AddMaterial _ _ | DeleteObject _ =>
      False
  | _ => True
  end.

(** From the first call of the renderer on, the events are still. *)
Definition fixed_after_render (evs : list (event num)) : Prop :=
  ∀ pre file_index raised post,
    evs = pre ++ Render file_index raised :: post → Forall still post.

End FixedVocabulary.

Section SlotVocabulary.
Context {num : Type} `{NumOps num}.
Variable e : env num.
Variable a : args num.

(** The value of [random.uniform(-3, 3)] at the draw numbered [t]. *)
Definition coordinate_draw (t : nat) : num :=
  nadd (of_Z (-3)) (nmul (nsub (of_Z 3) (of_Z (-3))) (random_src e t)).

(** The list stored in [color_name_to_rgba] for the catalogue entry [rgb]. *)
Definition rgba_of (rgb : list num) : list num :=
  map (fun c => ndiv c (of_Z 255)) rgb ++ [of_Z 1].

(** The three lists after a slot that drew the size [(size_name, r)], took
    its accepted candidate from the draws [t] and [S t] and its rotation
    from the draw [t'], and created the object [id], with the camera at
    [cam]. *)
Definition slot_locals (cam : vec3 num) (L : locals num)
    (size_name : string) (r : num) (t : nat)
    (obj_name obj_name_out color_name : string) (t' : nat) (id : nat)
    (mat_name_out : string) : locals num :=
  let x := coordinate_draw t in
  let y := coordinate_draw (S t) in
  let scale := adjust_size obj_name r in
  let location := object_location e obj_name scale (x, y) in
  {| positions := positions L ++ [(x, y, scale)];
     objects := objects L ++
       [ {| shape := obj_name_out;
            size := size_name;
            material := mat_name_out;
            coords_3d := location;
            rotation := nmul (of_Z 360) (random_src e t');
            pixel_coords := get_camera_coords e cam location;
            color := color_name |} ];
     blender_objects := blender_objects L ++
       [ {| ob_id := id; ob_location := location |} ] |}.

(** One completed slot, with where its values come from. *)
Inductive slot_step (cam : vec3 num) (L L' : locals num) : Prop :=
| slot_step_intro (size_name : string) (r : num) (t : nat)
    (obj_name obj_name_out color_name : string) (rgba : list num)
    (t' : nat) (id : nat) (mat_name mat_name_out : string) :
    (size_name, r) ∈ size_mapping a →
    dists_good a (positions L) (coordinate_draw t) (coordinate_draw (S t)) r
      = true →
    shape_color_ok a obj_name obj_name_out color_name rgba →
    (mat_name, mat_name_out) ∈ material_mapping a →
    L' = slot_locals cam L size_name r t obj_name obj_name_out color_name
                     t' id mat_name_out →
    slot_step cam L L'.

(** The calls a slot makes into the scene graph, with arguments that come
    from the catalogue: the asset and the material file are listed there,
    the scale is a listed size (divided by [sqrt 2] for the asset "Cube")
    and the colour is a listed colour with the alpha value 1 appended. *)
Definition catalogue_event (ev : event num) : Prop :=
  match ev with
  | AddObject dir name scale _ _ _ =>
      dir = path_join (output_dir a) (shape_dir a) ∧
      (∃ shape_name, (shape_name, name) ∈ shapes (properties_json a)) ∧
      (∃ size_name r, (size_name, r) ∈ sizes (properties_json a) ∧
                      scale = adjust_size name r)
  | AddMaterial mat rgba =>
      (∃ mat_name, (mat_name, mat) ∈ materials (properties_json a)) ∧
      (∃ color_name rgb, (color_name, rgb) ∈ colors (properties_json a) ∧
                         rgba = rgba_of rgb)
  | SetLayer _ | DeleteObject _ => True
  | Call c c' => c = "add_random_objects" ∧ c' = "add_random_objects"
  | _ => False
  end.

End SlotVocabulary.

(** Options of [main] around the options of the camera runs, and a file
    system without any of the output directories. *)
Definition studio_args (cams lo hi blend : Z) : main_args R :=
  {| scene_args := orbit_args cams;
     filename_prefix := "CLEVR";
     split := "new";
     save_blendfiles := blend;
     min_objects := lo;
     max_objects := hi |}.

Definition fresh_disk : os_env :=
  {| isdir := fun _ => false; makedirs_raises := fun _ => false |}.

(** Options whose file name prefix is an absolute path. *)
Definition escaping_args : main_args R :=
  {| scene_args := orbit_args 8;
     filename_prefix := "/tmp/CLEVR";
     split := "new";
     save_blendfiles := 1;
     min_objects := 1;
     max_objects := 2 |}.

(** ** Further inputs *)

(** Three objects on the x axis, one unit apart. *)
Definition line_scene : scene_struct R :=
  {| ss_objects := [object_at 0 0 0; object_at 1 0 0; object_at 2 0 0];
     ss_directions := ss_directions axis_scene |}.

(** Surroundings in which every call of the renderer raises. *)
Definition stuck_env : env R :=
  {| randbelow_src := fun _ => 0%nat;
     random_src := fun _ => (1 / 2)%R;
     base_scene := base_scene orbit_env;
     base_camera_location := base_camera_location orbit_env;
     camera_angle_x := 1%R;
     object_location := object_location orbit_env;
     get_camera_coords := get_camera_coords orbit_env;
     matrix_world := matrix_world orbit_env;
     render_raises := fun _ => true |}.

(** A catalogue without materials, options without a single retry, and a
    generator whose draws of [random.random()] are all [0.5]. *)
Definition bare_args : args float :=
  options {| colors := [("red", [173%float; 35%float; 35%float])];
             materials := [];
             shapes := [("cube", "Cube")];
             sizes := [("large", 0.7%float)] |}
          None 0.25%float 0.4%float 16.

Definition hasty_args : args float :=
  with_max_retries 0
    (options (cube_catalogue 0.7%float) None 0.25%float 0.4%float 16).

Definition sizeless_args : args float :=
  options {| colors := [("red", [173%float; 35%float; 35%float])];
             materials := [("rubber", "Rubber")];
             shapes := [("cube", "Cube")];
             sizes := [] |}
          None 0.25%float 0.4%float 16.

Definition steady_env : env float :=
  plain_env (fun _ => 0%nat) (fun _ => 0.5%float).

(** Options with two tries for each slot. *)
Definition two_tries_args : args float :=
  with_max_retries 2
    (options (cube_catalogue 0.7%float) None 0.25%float 0.4%float 16).

(** * Properties *)

(** ** The relation table *)

Section RelationFacts.
Context {num : Type} `{NumOps num}.

Lemma elem_of_enumerate {A} (l : list A) (j : nat) (x : A) :
  (j, x) ∈ enumerate l ↔ l !! j = Some x.
Proof.
  unfold enumerate. split.
  - intros (i & k & y & Heq & Hseq & Hl)%elem_of_lookup_zip_with_1.
    simplify_eq. apply lookup_seq in Hseq as [-> _]. exact Hl.
  - intros Hl. apply (elem_of_lookup_zip_with_2 pair _ _ j x (j, x) j); [|done].
    apply lookup_seq. split; [done|]. by eapply lookup_lt_Some.
Qed.

(** Membership after the inner loop over any list of indexed objects. *)
Lemma elem_of_foldl_relate_step (vec : vec3 num) (eps : num)
    (obj1 : object num) (l : list (nat * object num)) (acc : gset nat)
    (j : nat) :
  j ∈ foldl (relate_step vec eps obj1) acc l ↔
  j ∈ acc ∨ ∃ obj2, (j, obj2) ∈ l ∧ object_eqb obj1 obj2 = false ∧
      nltb eps (dot (diff (coords_3d obj1) (coords_3d obj2)) vec) = true.
Proof.
  revert acc. induction l as [|[k o] l IH]; intros acc; cbn [foldl].
  - split; [by left|]. intros [?|(? & Hin & _)]; [done|]. by apply elem_of_nil in Hin.
  - rewrite IH. unfold relate_step.
    destruct (object_eqb obj1 o) eqn:Heq;
      [|destruct (nltb eps _) eqn:Hlt].
    + split.
      * intros [?|(o2 & Hin & ?)]; [by left|]. right. exists o2.
        split; [by apply elem_of_cons; right|done].
      * intros [?|(o2 & Hin & Hne & Hd)]; [by left|].
        apply elem_of_cons in Hin as [Hhd|Hin]; [congruence|].
        right. by exists o2.
    + rewrite elem_of_union, elem_of_singleton. split.
      * intros [[->|?]|(o2 & Hin & ?)].
        -- right. exists o. split; [apply elem_of_cons; by left|done].
        -- by left.
        -- right. exists o2. split; [by apply elem_of_cons; right|done].
      * intros [?|(o2 & Hin & Hne & Hd)]; [by left; right|].
        apply elem_of_cons in Hin as [Hhd|Hin].
        -- left; left. congruence.
        -- right. by exists o2.
    + split.
      * intros [?|(o2 & Hin & ?)]; [by left|]. right. exists o2.
        split; [by apply elem_of_cons; right|done].
      * intros [?|(o2 & Hin & Hne & Hd)]; [by left|].
        apply elem_of_cons in Hin as [Hhd|Hin]; [|right; by exists o2].
        simplify_eq. congruence.
Qed.

Lemma elem_of_related_set (objs : list (object num)) (vec : vec3 num)
    (eps : num) (obj1 : object num) (j : nat) :
  j ∈ related_set objs vec eps obj1 ↔
  ∃ obj2, objs !! j = Some obj2 ∧ object_eqb obj1 obj2 = false ∧
      nltb eps (dot (diff (coords_3d obj1) (coords_3d obj2)) vec) = true.
Proof.
  unfold related_set. rewrite elem_of_foldl_relate_step. split.
  - intros [Hemp|(o2 & Hin & ?)]; [by apply not_elem_of_empty in Hemp|].
    exists o2. by rewrite <- elem_of_enumerate.
  - intros (o2 & Hl & ?). right. exists o2. by rewrite elem_of_enumerate.
Qed.

Lemma elem_of_sorted (s : gset nat) (j : nat) : j ∈ sorted s ↔ j ∈ s.
Proof.
  unfold sorted. rewrite merge_sort_Permutation. apply elem_of_elements.
Qed.

Lemma StronglySorted_le_NoDup_lt (l : list nat) :
  StronglySorted Nat.le l → NoDup l → StronglySorted lt l.
Proof.
  induction 1 as [|x l Hs IH Hall]; intros Hnd; [constructor|].
  apply NoDup_cons in Hnd as [Hx Hnd]. constructor; [by apply IH|].
  rewrite Forall_forall in Hall |- *. intros y Hy.
  specialize (Hall y Hy). unfold Nat.le in Hall.
  assert (x ≠ y) by (intros ->; done). lia.
Qed.

Lemma sorted_increasing (s : gset nat) : StronglySorted lt (sorted s).
Proof.
  apply StronglySorted_le_NoDup_lt.
  - unfold sorted. apply (StronglySorted_merge_sort Nat.le).
  - unfold sorted. rewrite merge_sort_Permutation. apply NoDup_elements.
Qed.

Lemma relationship_rows_length (objs : list (object num)) (vec : vec3 num)
    (eps : num) :
  length (relationship_rows objs vec eps) = length objs.
Proof. unfold relationship_rows. apply length_map. Qed.

Lemma relationship_rows_lookup (objs : list (object num)) (vec : vec3 num)
    (eps : num) (i : nat) (obj1 : object num) :
  objs !! i = Some obj1 →
  relationship_rows objs vec eps !! i
    = Some (sorted (related_set objs vec eps obj1)).
Proof.
  intros Hi. unfold relationship_rows.
  change (map ?f ?l) with (f <$> l). by rewrite list_lookup_fmap, Hi.
Qed.

(** The table holds exactly the non-vertical direction names. *)
Lemma compute_all_relationships_lookup (scene : scene_struct num)
    (eps : num) (name : string) :
  compute_all_relationships scene eps !! name =
  if is_vertical name then None
  else (fun vec => relationship_rows (ss_objects scene) vec eps)
         <$> ss_directions scene !! name.
Proof.
  unfold compute_all_relationships. revert name.
  apply (map_fold_weak_ind
           (fun r m => ∀ name, r !! name =
              if is_vertical name then None
              else (fun vec => relationship_rows (ss_objects scene) vec eps)
                     <$> m !! name)).
  - intros name. rewrite !lookup_empty. by destruct (is_vertical name).
  - intros i x m r Hnone IH name.
    destruct (decide (i = name)) as [->|Hne].
    + rewrite lookup_insert_eq.
      destruct (is_vertical name) eqn:Hv; [|by rewrite lookup_insert_eq].
      by rewrite IH, Hv.
    + rewrite (lookup_insert_ne m) by done.
      destruct (is_vertical i); [apply IH|].
      rewrite lookup_insert_ne by done. apply IH.
Qed.

End RelationFacts.

(** Facts that need exact arithmetic. *)

Lemma Rltb_true (x y : R) : Rltb x y = true ↔ (x < y)%R.
Proof. unfold Rltb. destruct (Rlt_dec x y); split; (done || lra). Qed.

Lemma Rltb_false (x y : R) : Rltb x y = false ↔ (y <= x)%R.
Proof. unfold Rltb. destruct (Rlt_dec x y); split; (done || lra). Qed.

Lemma Reqb_true (x y : R) : Reqb x y = true ↔ x = y.
Proof. unfold Reqb. destruct (Req_dec_T x y); split; done. Qed.

Lemma object_eqb_refl (o : object R) : object_eqb o o = true.
Proof.
  unfold object_eqb, vec3_eqb. destruct (coords_3d o) as [[c0 c1] c2]. simpl.
  rewrite !String.eqb_refl, !Z.eqb_refl.
  by rewrite !(proj2 (Reqb_true _ _) eq_refl).
Qed.

Lemma object_eqb_coords (o1 o2 : object R) :
  object_eqb o1 o2 = true → coords_3d o1 = coords_3d o2.
Proof.
  unfold object_eqb, vec3_eqb.
  destruct (coords_3d o1) as [[a0 a1] a2], (coords_3d o2) as [[b0 b1] b2].
  simpl. rewrite !andb_true_iff, !Reqb_true.
  intros [[[[_ [[-> ->] ->]] _] _] _]. done.
Qed.

Lemma dot_diff_same (c v : vec3 R) : dot (diff c c) v = 0%R.
Proof.
  destruct c as [[c0 c1] c2], v as [[v0 v1] v2]. unfold dot, diff. simpl. lra.
Qed.



(** The table of the same scene in binary64. *)
Example compute_all_relationships_binary64 :
  compute_all_relationships axis_scene_binary64 0.2%float !! "right"
    = Some [[1%nat]; []] ∧
  compute_all_relationships axis_scene_binary64 0.2%float !! "left"
    = Some [[]; [0%nat]] ∧
  compute_all_relationships axis_scene_binary64 0.2%float !! "above" = None.
Proof. vm_compute. split_and!; reflexivity. Qed.

(** ** Runs of the interpreter *)

Section RunFacts.
Context {num : Type} `{NumOps num}.

Lemma bind_Ok_inv {A B} (m : M num A) (f : A → M num B) (w w' : world num) (b : B) :
  (m ≫= f) w = (Ok b, w') →
  ∃ a w1, m w = (Ok a, w1) ∧ f a w1 = (Ok b, w').
Proof.
  unfold mbind, M_bind. destruct (m w) as [[a| |] w1]; intros Heq;
    [by exists a, w1|done..].
Qed.

Lemma bind_Raise_inv {A B} (m : M num A) (f : A → M num B) (w w' : world num) (x : exn) :
  (m ≫= f) w = (Raise x, w') →
  m w = (Raise x, w') ∨ ∃ a w1, m w = (Ok a, w1) ∧ f a w1 = (Raise x, w').
Proof.
  unfold mbind, M_bind. destruct (m w) as [[a| |] w1]; intros Heq.
  - right. by exists a, w1.
  - left. by simplify_eq.
  - done.
Qed.

Lemma bind_fuel_inv {A B} (m : M num A) (f : A → M num B) (w w' : world num) :
  (m ≫= f) w = (OutOfFuel, w') →
  m w = (OutOfFuel, w') ∨ ∃ a w1, m w = (Ok a, w1) ∧ f a w1 = (OutOfFuel, w').
Proof.
  unfold mbind, M_bind. destruct (m w) as [[a| |] w1]; intros Heq.
  - right. by exists a, w1.
  - done.
  - left. by simplify_eq.
Qed.

Lemma bind_Ok_run {A B} (m : M num A) (f : A → M num B) (w w1 : world num) (a : A) :
  m w = (Ok a, w1) → (m ≫= f) w = f a w1.
Proof. unfold mbind, M_bind. by intros ->. Qed.

#[export] Instance same_scene_refl : Reflexive (@same_scene num).
Proof. by intros w. Qed.

#[export] Instance same_scene_trans : Transitive (@same_scene num).
Proof.
  intros w1 w2 w3 (?&?&?&?) (?&?&?&?). unfold same_scene. by split_and!; etrans.
Qed.

Lemma same_scene_next_draw (w : world num) : same_scene w (next_draw w).
Proof. done. Qed.

Variable e : env num.

Lemma random_random_run (w : world num) :
  random_random e w = (Ok (random_src e (draws w)), next_draw w).
Proof. done. Qed.

Lemma random_uniform_run (lo hi : num) (w : world num) :
  random_uniform e lo hi w =
  (Ok (nadd lo (nmul (nsub hi lo) (random_src e (draws w)))), next_draw w).
Proof. done. Qed.

Lemma random_choice_Ok {A} (l : list A) (w w' : world num) (x : A) :
  random_choice e l w = (Ok x, w') → x ∈ l ∧ w' = next_draw w.
Proof.
  unfold random_choice. destruct (l !! _) as [y|] eqn:Hl; [|done].
  intros ?; simplify_eq. split; [|done]. by eapply list_elem_of_lookup_2.
Qed.

Lemma random_choice_Raise {A} (l : list A) (w w' : world num) (x : exn) :
  random_choice e l w = (Raise x, w') →
  l = [] ∧ w' = w ∧ x = IndexError "Cannot choose from an empty sequence".
Proof.
  unfold random_choice. destruct (l !! _) as [y|] eqn:Hl; [done|].
  intros Heq. split; [|by simplify_eq].
  destruct l as [|z l]; [done|]. apply lookup_ge_None in Hl.
  pose proof (Nat.mod_upper_bound (randbelow_src e (draws w)) (length (z :: l))) as Hb.
  simpl in *. lia.
Qed.

Lemma random_choice_fuel {A} (l : list A) (w w' : world num) :
  random_choice e l w ≠ (OutOfFuel, w').
Proof. unfold random_choice. by destruct (l !! _). Qed.

Variable a : args num.

(** *** The retry loop *)

Lemma sample_position_Ok (fuel : nat) (num_tries : Z)
    (ps : list (num * num * num)) (r : num) (w w' : world num)
    (pos : option (num * num)) :
  sample_position e a fuel num_tries ps r w = (Ok pos, w') →
  same_scene w w' ∧
  match pos with
  | Some (x, y) => dists_good a ps x y r = true
  | None => True
  end.
Proof.
  revert num_tries w. induction fuel as [|fuel IH]; intros num_tries w; [done|].
  cbn [sample_position].
  destruct (max_retries a <? num_tries + 1)%Z.
  { intros Heq. cbv [mret M_ret] in Heq. by simplify_eq. }
  rewrite (bind_Ok_run _ _ _ _ _ (random_uniform_run _ _ _)).
  rewrite (bind_Ok_run _ _ _ _ _ (random_uniform_run _ _ _)).
  destruct (dists_good a ps _ _ r) eqn:Hgood.
  - intros Heq. cbv [mret M_ret] in Heq. by simplify_eq.
  - intros [Hs Hp]%IH. split; [|done]. etrans; [|exact Hs]. done.
Qed.

Lemma sample_position_Raise (fuel : nat) (num_tries : Z)
    (ps : list (num * num * num)) (r : num) (w w' : world num) (x : exn) :
  sample_position e a fuel num_tries ps r w ≠ (Raise x, w').
Proof.
  revert num_tries w. induction fuel as [|fuel IH]; intros num_tries w; [done|].
  cbn [sample_position].
  destruct (max_retries a <? num_tries + 1)%Z; [done|].
  rewrite (bind_Ok_run _ _ _ _ _ (random_uniform_run _ _ _)).
  rewrite (bind_Ok_run _ _ _ _ _ (random_uniform_run _ _ _)).
  destruct (dists_good a ps _ _ r); [done|]. apply IH.
Qed.

(** The loop takes the branch [num_tries > max_retries] before its fuel
    runs out whenever the fuel covers the remaining tries. *)
Lemma sample_position_fuel (fuel : nat) (num_tries : Z)
    (ps : list (num * num * num)) (r : num) (w w' : world num) :
  (0 < fuel)%nat →
  (max_retries a - num_tries < Z.of_nat fuel)%Z →
  sample_position e a fuel num_tries ps r w ≠ (OutOfFuel, w').
Proof.
  revert num_tries w. induction fuel as [|fuel IH]; intros num_tries w H0 Hf;
    [lia|].
  cbn [sample_position].
  destruct (max_retries a <? num_tries + 1)%Z eqn:Hlt; [done|].
  rewrite (bind_Ok_run _ _ _ _ _ (random_uniform_run _ _ _)).
  rewrite (bind_Ok_run _ _ _ _ _ (random_uniform_run _ _ _)).
  destruct (dists_good a ps _ _ r); [done|].
  apply Z.ltb_ge in Hlt. apply IH; lia.
Qed.

(** The loop gives up only after [max_retries] candidates of the slot
    have been drawn and rejected: two draws for each. *)
Lemma sample_position_None (fuel : nat) (num_tries : Z)
    (ps : list (num * num * num)) (r : num) (w w' : world num) :
  sample_position e a fuel num_tries ps r w = (Ok None, w') →
  draws w' = (draws w + 2 * Z.to_nat (max_retries a - num_tries))%nat.
Proof.
  revert num_tries w. induction fuel as [|fuel IH]; intros num_tries w; [done|].
  cbn [sample_position].
  destruct (max_retries a <? num_tries + 1)%Z eqn:Hlt.
  { intros Heq. cbv [mret M_ret] in Heq. simplify_eq.
    apply Z.ltb_lt in Hlt. lia. }
  rewrite (bind_Ok_run _ _ _ _ _ (random_uniform_run _ _ _)).
  rewrite (bind_Ok_run _ _ _ _ _ (random_uniform_run _ _ _)).
  destruct (dists_good a ps _ _ r); [done|].
  intros Hrec%IH. rewrite Hrec. cbn [draws next_draw].
  apply Z.ltb_ge in Hlt. lia.
Qed.

End RunFacts.

Section SlotFacts.
Context {num : Type} `{NumOps num}.
Variable e : env num.
Variable a : args num.

(** *** Shape and colour *)

Lemma choose_shape_color_Ok (w w' : world num)
    (obj_name obj_name_out color_name : string) (rgba : list num) :
  choose_shape_color e a w = (Ok (obj_name, obj_name_out, color_name, rgba), w') →
  shape_color_ok a obj_name obj_name_out color_name rgba ∧ same_scene w w'.
Proof.
  unfold choose_shape_color, shape_color_ok.
  destruct (shape_color_combos_json a) as [combos|].
  - intros ([out choices] & w1 & [Hin ->]%random_choice_Ok & Hrun)%bind_Ok_inv.
    apply bind_Ok_inv in Hrun as (cname & w2 & [Hc ->]%random_choice_Ok & Hrun).
    destruct (filter _ (object_mapping a)) as [|[k v] rest] eqn:Hf; [done|].
    destruct (dict_get _ cname) as [rg|] eqn:Hget; [|done].
    cbv [mret M_ret] in Hrun. simplify_eq.
    assert (Hk : (obj_name, v) ∈ filter
              (fun kv : string * string => String.eqb (snd kv) obj_name_out)
              (object_mapping a)) by (rewrite Hf; apply elem_of_cons; by left).
    apply list_elem_of_filter in Hk as [Hv Hk]. simpl in Hv.
    apply Is_true_true, String.eqb_eq in Hv. subst v.
    split_and!; [done|by exists choices|done|done].
  - intros ([name out] & w1 & [Hin ->]%random_choice_Ok & Hrun)%bind_Ok_inv.
    apply bind_Ok_inv in Hrun as ([cname rg] & w2 & [Hc ->]%random_choice_Ok & Hrun).
    cbv [mret M_ret] in Hrun. simplify_eq. done.
Qed.

(** A failed choice leaves the scene as it was. *)
Lemma choose_shape_color_Raise (w w' : world num) (x : exn) :
  choose_shape_color e a w = (Raise x, w') → same_scene w w'.
Proof.
  unfold choose_shape_color.
  destruct (shape_color_combos_json a) as [combos|].
  - intros [(_ & -> & _)%random_choice_Raise
           |([out choices] & w1 & [_ ->]%random_choice_Ok & Hrun)]%bind_Raise_inv;
      [done|].
    apply bind_Raise_inv in Hrun as [(_ & -> & _)%random_choice_Raise
           |(cname & w2 & [_ ->]%random_choice_Ok & Hrun)]; [done|].
    destruct (filter _ (object_mapping a)) as [|[k v] rest].
    { cbv [raise] in Hrun. by simplify_eq. }
    destruct (dict_get _ cname); cbv [raise mret M_ret] in Hrun; by simplify_eq.
  - intros [(_ & -> & _)%random_choice_Raise
           |([name out] & w1 & [_ ->]%random_choice_Ok & Hrun)]%bind_Raise_inv;
      [done|].
    apply bind_Raise_inv in Hrun as [(_ & -> & _)%random_choice_Raise
           |([cname rg] & w2 & [_ ->]%random_choice_Ok & Hrun)]; [done|].
    cbv [mret M_ret] in Hrun. by simplify_eq.
Qed.

Lemma choose_shape_color_fuel (w w' : world num) :
  choose_shape_color e a w ≠ (OutOfFuel, w').
Proof.
  unfold choose_shape_color.
  destruct (shape_color_combos_json a) as [combos|].
  - intros [Hf|([out choices] & w1 & _ & Hrun)]%bind_fuel_inv;
      [by apply random_choice_fuel in Hf|].
    apply bind_fuel_inv in Hrun as [Hf|(cname & w2 & _ & Hrun)];
      [by apply random_choice_fuel in Hf|].
    destruct (filter _ (object_mapping a)) as [|[k v] rest]; [done|].
    by destruct (dict_get _ cname).
  - intros [Hf|([name out] & w1 & _ & Hrun)]%bind_fuel_inv;
      [by apply random_choice_fuel in Hf|].
    apply bind_fuel_inv in Hrun as [Hf|([cname rg] & w2 & _ & Hrun)];
      [by apply random_choice_fuel in Hf|]. done.
Qed.

(** *** One slot *)

Lemma add_object_run (dir name : string) (scale : num) (loc : num * num)
    (theta : num) (w : world num) :
  let obj := {| ob_id := fresh_id (data_objects w);
                ob_location := object_location e name scale loc |} in
  add_object e dir name scale loc theta w =
  (Ok obj, {| draws := draws w; renders := renders w;
              data_objects := data_objects w ++ [obj];
              camera_location := camera_location w;
              trace := trace w ++ [AddObject dir name scale loc theta (ob_id obj)] |}).
Proof. done. Qed.

Lemma emit_run (ev : event num) (w : world num) :
  emit ev w = (Ok tt, {| draws := draws w; renders := renders w;
                         data_objects := data_objects w;
                         camera_location := camera_location w;
                         trace := trace w ++ [ev] |}).
Proof. done. Qed.

(** Every way a slot can end once its position is accepted. *)
Lemma place_object_run (size_name : string) (r x y : num) (L : locals num)
    (w w' : world num) (res : outcome (locals num)) :
  place_object e a size_name r x y L w = (res, w') →
  match res with
  | Ok L' =>
      ((size_name, r) ∈ size_mapping a →
       dists_good a (positions L) x y r = true →
       placement a L L') ∧
      (∃ obj, blender_objects L' = blender_objects L ++ [obj] ∧
              ob_id obj = fresh_id (data_objects w) ∧
              data_objects w' = data_objects w ++ [obj]) ∧
      ∃ evs, trace w' = trace w ++ evs ∧ slot_events evs
  | Raise x =>
      same_scene w w' ∨
      (x = IndexError "Cannot choose from an empty sequence" ∧
       ∃ evs, trace w' = trace w ++ evs ∧ broken_slot_events evs)
  | OutOfFuel => False
  end.
Proof.
  unfold place_object.
  unfold mbind at 1, M_bind at 1.
  destruct (choose_shape_color e a w) as [[[[[on oo] cn] rg]|ex|] w1] eqn:Hch.
  - apply choose_shape_color_Ok in Hch as [Hok (Hd & Hc & Hr & Ht)].
    rewrite (bind_Ok_run _ _ _ _ _ (random_random_run _ _)).
    rewrite (bind_Ok_run _ _ _ _ _ (add_object_run _ _ _ _ _ _)).
    unfold set_layer, add_material.
    rewrite (bind_Ok_run _ _ _ _ _ (emit_run _ _)).
    unfold mbind at 1, M_bind at 1.
    destruct (random_choice e (material_mapping a) _)
      as [[[mn mo]|ex|] w2] eqn:Hm.
    + apply random_choice_Ok in Hm as [Hm ->].
      rewrite (bind_Ok_run _ _ _ _ _ (emit_run _ _)).
      cbv [mbind M_bind get_camera_location mret M_ret].
      intros Heq. injection Heq as <- <-. simpl.
      split; [|split].
      * intros Hsize Hgood.
        eapply (placement_intro _ _ _ size_name r x y on oo cn rg _
                  (Build_blender_object _ _) mn mo _); [done..|].
        reflexivity.
      * eexists. split; [done|]. simpl. rewrite Hd. done.
      * eexists. rewrite Ht, <- !app_assoc. split; [done|].
        unfold slot_events. by repeat eexists.
    + apply random_choice_Raise in Hm as (_ & -> & ->).
      intros Heq. injection Heq as <- <-. right. split; [done|].
      simpl. eexists. rewrite Ht, <- !app_assoc. split; [done|].
      unfold broken_slot_events. by repeat eexists.
    + by apply random_choice_fuel in Hm.
  - intros Heq. injection Heq as <- <-. left.
    by eapply choose_shape_color_Raise.
  - by apply choose_shape_color_fuel in Hch.
Qed.

End SlotFacts.

Lemma filter_all {A} (P : A → Prop) `{∀ x, Decision (P x)} (l : list A) :
  Forall P l → filter P l = l.
Proof.
  induction 1 as [|x l Hx _ IH]; [done|]. by rewrite filter_cons_True, IH.
Qed.

Lemma filter_none {A} (P : A → Prop) `{∀ x, Decision (P x)} (l : list A) :
  Forall (fun x => ¬ P x) l → filter P l = [].
Proof.
  induction 1 as [|x l Hx _ IH]; [done|]. by rewrite filter_cons_False.
Qed.

Section AttemptFacts.
Context {num : Type} `{NumOps num}.

(** *** Deleting the objects of an abandoned attempt *)

Lemma delete_object_run (obj : blender_object num) (w : world num) :
  delete_object obj w =
  (Ok tt, {| draws := draws w; renders := renders w;
             data_objects :=
               filter (fun o => ob_id o ≠ ob_id obj) (data_objects w);
             camera_location := camera_location w;
             trace := trace w ++ [DeleteObject (ob_id obj)] |}).
Proof. done. Qed.

Lemma delete_all_run (objs : list (blender_object num)) (w : world num) :
  ∃ w', delete_all objs w = (Ok tt, w') ∧
    draws w' = draws w ∧ renders w' = renders w ∧
    camera_location w' = camera_location w ∧
    trace w' = trace w ++ map (fun o => DeleteObject (ob_id o)) objs ∧
    data_objects w' =
      filter (fun o => ob_id o ∉ map ob_id objs) (data_objects w).
Proof.
  revert w. induction objs as [|obj objs IH]; intros w.
  - exists w. cbn [delete_all map]. rewrite app_nil_r.
    split_and!; try done.
    symmetry. apply filter_all, Forall_forall. intros o _.
    apply not_elem_of_nil.
  - cbn [delete_all].
    rewrite (bind_Ok_run _ _ _ _ _ (delete_object_run _ _)).
    edestruct IH as (w' & -> & Hd & Hr & Hc & Ht & Ho).
    exists w'. split; [done|]. rewrite Hd, Hr, Hc, Ht, Ho. simpl.
    split_and!; try done.
    + by rewrite <- app_assoc.
    + rewrite list_filter_filter.
      apply list_filter_iff. intros o. rewrite elem_of_cons. tauto.
Qed.

Lemma filter_attempt (base objs : list (blender_object num)) :
  Forall (newer_than base) objs →
  filter (fun o => ob_id o ∉ map ob_id objs) (base ++ objs) = base.
Proof.
  intros Hnew. rewrite filter_app.
  assert (Hobjs : filter (fun o => ob_id o ∉ map ob_id objs) objs = []).
  { apply filter_none, Forall_forall. intros o Ho Hn. apply Hn.
    change (map ob_id objs) with (ob_id <$> objs). by apply list_elem_of_fmap_2. }
  rewrite Hobjs, app_nil_r. apply filter_all.
  apply Forall_forall. intros o Ho Hin.
  change (map ob_id objs) with (ob_id <$> objs) in Hin.
  apply list_elem_of_fmap in Hin as (o' & Heq & Ho').
  rewrite Forall_forall in Hnew. specialize (Hnew o' Ho'). unfold newer_than in Hnew.
  assert (ob_id o <= list_max (map ob_id base)); [|lia].
  pose proof (proj1 (list_max_le (map ob_id base) _) (Nat.le_refl _)) as Hall.
  rewrite List.Forall_forall in Hall. apply Hall, in_map.
  by apply list_elem_of_In.
Qed.

Lemma fresh_id_newer (base objs : list (blender_object num))
    (o : blender_object num) :
  ob_id o = fresh_id (base ++ objs) → newer_than base o.
Proof.
  unfold newer_than, fresh_id. intros ->.
  rewrite map_app, list_max_app. lia.
Qed.

Variable e : env num.
Variable a : args num.

(** *** The loop over the slots, when it returns *)

Lemma place_slots_Ok (restart : M num (locals num)) (slots : nat)
    (L Lf : locals num) (w w' : world num)
    (base : list (blender_object num)) :
  data_objects w = base ++ blender_objects L →
  Forall (newer_than base) (blender_objects L) →
  place_slots e a restart slots L w = (Ok Lf, w') →
  (nsteps (placement a) slots L Lf ∧
   data_objects w' = base ++ blender_objects Lf) ∨
  (∃ w1, data_objects w1 = base ∧ restart w1 = (Ok Lf, w')).
Proof.
  revert L w. induction slots as [|slots IH]; intros L w Hdata Hnew.
  - cbn [place_slots]. cbv [mret M_ret]. intros ?; simplify_eq.
    left. split; [constructor|done].
  - cbn [place_slots].
    intros ([sn r] & w1 & [Hsize ->]%random_choice_Ok & Hrun)%bind_Ok_inv.
    apply bind_Ok_inv in Hrun as (pos & w2 & Hpos & Hrun).
    apply sample_position_Ok in Hpos as [(Hd2 & _ & _ & _) Hgood].
    simpl in Hd2. destruct pos as [[x y]|].
    + apply bind_Ok_inv in Hrun as (L' & w3 & Hplace & Hrun).
      apply place_object_run in Hplace as (Hstep & (obj & Hbl & Hid & Hd3) & _).
      specialize (Hstep Hsize Hgood). apply IH in Hrun.
      * destruct Hrun as [[Hsteps Hfin]|Hrestart]; [left|by right].
        split; [by eapply nsteps_l|done].
      * rewrite Hd3, Hd2, Hdata, Hbl. by rewrite app_assoc.
      * rewrite Hbl. apply Forall_app. split; [done|].
        apply Forall_singleton. eapply fresh_id_newer.
        by rewrite Hid, Hd2, Hdata.
    + destruct (delete_all_run (blender_objects L) w2)
        as (w3 & Hdel & _ & _ & _ & _ & Hd3).
      rewrite (bind_Ok_run _ _ _ _ _ Hdel) in Hrun.
      rewrite (bind_Ok_run _ _ _ _ _ (emit_run _ _)) in Hrun.
      right. eexists. split; [|exact Hrun]. simpl.
      rewrite Hd3, Hd2, Hdata. by apply filter_attempt.
Qed.

(** A run of the function that returns has completed [num_objects] slots
    in its last attempt, and the scene graph holds its objects on top
    of what was there before the call. *)
Lemma add_random_objects_locals_Ok (fuel : nat) (num_objects : Z)
    (w w' : world num) (L : locals num) :
  add_random_objects_locals e a fuel num_objects w = (Ok L, w') →
  nsteps (placement a) (Z.to_nat num_objects) no_locals L ∧
  data_objects w' = data_objects w ++ blender_objects L.
Proof.
  revert w. induction fuel as [|fuel IH]; intros w; [done|].
  cbn [add_random_objects_locals]. intros Hrun.
  eapply (place_slots_Ok _ _ _ _ _ _ (data_objects w)) in Hrun
    as [?|(w1 & Hbase & Hrun)]; [done| |by rewrite app_nil_r|constructor].
  apply IH in Hrun as [? ?]. split; [done|]. congruence.
Qed.

End AttemptFacts.

(** ** Stepping through a run *)

Section EvalFacts.
Context {num : Type} `{NumOps num}.
Variable e : env num.
Variable a : args num.

(** A candidate that passes at the first try. *)
Lemma sample_position_first_try (fuel : nat)
    (ps : list (num * num * num)) (r : num) (w : world num) :
  (1 <= max_retries a)%Z →
  let x := nadd (of_Z (-3)) (nmul (nsub (of_Z 3) (of_Z (-3)))
                                  (random_src e (draws w))) in
  let y := nadd (of_Z (-3)) (nmul (nsub (of_Z 3) (of_Z (-3)))
                                  (random_src e (S (draws w)))) in
  dists_good a ps x y r = true →
  sample_position e a (S fuel) 0 ps r w =
  (Ok (Some (x, y)), next_draw (next_draw w)).
Proof.
  intros Hmax x y Hgood. cbn [sample_position].
  destruct (max_retries a <? 0 + 1)%Z eqn:Hlt; [apply Z.ltb_lt in Hlt; lia|].
  rewrite (bind_Ok_run _ _ _ _ _ (random_uniform_run _ _ _ _)).
  rewrite (bind_Ok_run _ _ _ _ _ (random_uniform_run _ _ _ _)).
  cbn [draws next_draw]. fold x y. by rewrite Hgood.
Qed.

(** A slot whose candidate is accepted and whose object is created. *)
Lemma place_slots_accept (restart : M num (locals num)) (slots : nat)
    (L L' : locals num) (w w1 w2 w3 : world num)
    (size_name : string) (r x y : num) :
  random_choice e (size_mapping a) w = (Ok (size_name, r), w1) →
  sample_position e a (S (Z.to_nat (max_retries a))) 0 (positions L) r w1
    = (Ok (Some (x, y)), w2) →
  place_object e a size_name r x y L w2 = (Ok L', w3) →
  place_slots e a restart (S slots) L w = place_slots e a restart slots L' w3.
Proof.
  intros Hsize Hpos Hobj. cbn [place_slots].
  rewrite (bind_Ok_run _ _ _ _ _ Hsize). cbn beta iota.
  rewrite (bind_Ok_run _ _ _ _ _ Hpos). cbn beta iota.
  by rewrite (bind_Ok_run _ _ _ _ _ Hobj).
Qed.

(** A slot whose object cannot be created: the exception leaves the loop. *)
Lemma place_slots_raise (restart : M num (locals num)) (slots : nat)
    (L : locals num) (w w1 w2 w3 : world num)
    (size_name : string) (r x y : num) (x0 : exn) :
  random_choice e (size_mapping a) w = (Ok (size_name, r), w1) →
  sample_position e a (S (Z.to_nat (max_retries a))) 0 (positions L) r w1
    = (Ok (Some (x, y)), w2) →
  place_object e a size_name r x y L w2 = (Raise x0, w3) →
  place_slots e a restart (S slots) L w = (Raise x0, w3).
Proof.
  intros Hsize Hpos Hobj. cbn [place_slots].
  rewrite (bind_Ok_run _ _ _ _ _ Hsize). cbn beta iota.
  rewrite (bind_Ok_run _ _ _ _ _ Hpos). cbn beta iota.
  unfold mbind, M_bind. by rewrite Hobj.
Qed.

End EvalFacts.

(** ** What a run appends to the trace *)

Section EmitFacts.
Context {num : Type} `{NumOps num}.
Context (T : list (event num) → Prop) `{!TraceMonoid T} (F : exn → Prop).

Lemma emits_ret {A} (x : A) : emits T F (mret x : M num A).
Proof.
  intros w w' r Hrun _. cbv [mret M_ret] in Hrun. simplify_eq.
  exists []. split; [by rewrite app_nil_r|apply trace_nil].
Qed.

Lemma emits_bind {A B} (m : M num A) (f : A → M num B) :
  emits T F m → (∀ x, emits T F (f x)) → emits T F (m ≫= f).
Proof.
  intros Hm Hf w w' r Hrun HF. unfold mbind, M_bind in Hrun.
  destruct (m w) as [[x|x|] w1] eqn:Hmw.
  - destruct (Hm _ _ _ Hmw) as (evs1 & Ht1 & HT1); [done|].
    destruct (Hf x _ _ _ Hrun HF) as (evs2 & Ht2 & HT2).
    exists (evs1 ++ evs2). split; [|by apply trace_app].
    by rewrite Ht2, Ht1, app_assoc.
  - injection Hrun as <- <-. apply (Hm _ _ _ Hmw). intros x0 [= <-]. by apply HF.
  - injection Hrun as <- <-. by apply (Hm _ _ _ Hmw).
Qed.

Lemma emits_same_scene {A} (m : M num A) :
  (∀ w w' r, m w = (r, w') → same_scene w w') → emits T F m.
Proof.
  intros Hm w w' r Hrun _. apply Hm in Hrun as (_ & _ & _ & Ht).
  exists []. split; [by rewrite app_nil_r|apply trace_nil].
Qed.

Lemma emits_emit (ev : event num) : T [ev] → emits T F (emit ev).
Proof.
  intros HT w w' r Hrun _. rewrite emit_run in Hrun. simplify_eq.
  by exists [ev].
Qed.

Lemma emits_out_of_fuel {A} : emits T F (out_of_fuel : M num A).
Proof.
  intros w w' r Hrun _. cbv [out_of_fuel] in Hrun. simplify_eq.
  exists []. split; [by rewrite app_nil_r|apply trace_nil].
Qed.

Lemma emits_for_each {A S} (l : list A) (body : A → S → M num S) (s : S) :
  (∀ x s', emits T F (body x s')) → emits T F (for_each l body s).
Proof.
  intros Hbody. revert s. induction l as [|x l IH]; intros s; cbn [for_each].
  - apply emits_ret.
  - apply emits_bind; [apply Hbody|]. intros s'. apply IH.
Qed.

Variable e : env num.

Lemma random_choice_same_scene {A} (l : list A) (w w' : world num)
    (r : outcome A) :
  random_choice e l w = (r, w') → same_scene w w'.
Proof.
  unfold random_choice. destruct (l !! _); intros ?; by simplify_eq.
Qed.

Lemma emits_random_choice {A} (l : list A) : emits T F (random_choice e l).
Proof. apply emits_same_scene, random_choice_same_scene. Qed.

Lemma emits_random_random : emits T F (random_random e).
Proof.
  apply emits_same_scene. intros w w' r Hrun.
  rewrite random_random_run in Hrun. by simplify_eq.
Qed.

Variable a : args num.

Lemma sample_position_same_scene (fuel : nat) (num_tries : Z)
    (ps : list (num * num * num)) (r : num) (w w' : world num)
    (res : outcome (option (num * num))) :
  sample_position e a fuel num_tries ps r w = (res, w') → same_scene w w'.
Proof.
  revert num_tries w. induction fuel as [|fuel IH]; intros num_tries w.
  { cbv [sample_position out_of_fuel]. intros ?; by simplify_eq. }
  cbn [sample_position].
  destruct (max_retries a <? num_tries + 1)%Z.
  { cbv [mret M_ret]. intros ?; by simplify_eq. }
  rewrite (bind_Ok_run _ _ _ _ _ (random_uniform_run _ _ _ _)).
  rewrite (bind_Ok_run _ _ _ _ _ (random_uniform_run _ _ _ _)).
  destruct (dists_good a ps _ _ r).
  - cbv [mret M_ret]. intros ?; by simplify_eq.
  - intros Hs%IH. etrans; [|exact Hs]. done.
Qed.

Lemma emits_delete_all (objs : list (blender_object num)) :
  (∀ id, T [DeleteObject id]) → emits T F (delete_all objs).
Proof.
  intros Hdel w w' r Hrun _.
  destruct (delete_all_run objs w) as (w1 & Hw1 & _ & _ & _ & Ht & _).
  rewrite Hw1 in Hrun. simplify_eq. eexists. split; [done|].
  clear Ht Hw1. induction objs as [|o objs IH]; [apply trace_nil|].
  cbn [map]. by apply (trace_app [_]).
Qed.

(** The events of a call of [add_random_objects], in any language that
    holds the events of a slot, of a deletion and of a restart. *)
Lemma emits_place_slots (restart : M num (locals num)) (slots : nat)
    (L : locals num) :
  (∀ evs, slot_events evs → T evs) →
  (∀ evs, broken_slot_events evs →
      F (IndexError "Cannot choose from an empty sequence") → T evs) →
  (∀ id, T [DeleteObject id]) →
  T [Call "add_random_objects" "add_random_objects"] →
  emits T F restart →
  emits T F (place_slots e a restart slots L).
Proof.
  intros Hslot Hbroken Hdel Hcall Hrestart. revert L.
  induction slots as [|slots IH]; intros L; cbn [place_slots].
  { apply emits_ret. }
  apply emits_bind; [apply emits_random_choice|]. intros [sn sz].
  apply emits_bind.
  { apply emits_same_scene. intros w w' r. apply sample_position_same_scene. }
  intros [[x y]|].
  - apply emits_bind; [|intros L'; apply IH].
    intros w w' r Hrun HF. apply place_object_run in Hrun.
    destruct r as [L'|x0|]; [|destruct Hrun as [Hs|[-> Hb]]|done].
    + destruct Hrun as (_ & _ & evs & Ht & Hevs). exists evs. auto.
    + destruct Hs as (_ & _ & _ & Ht). exists [].
      split; [by rewrite app_nil_r|apply trace_nil].
    + destruct Hb as (evs & Ht & Hevs). exists evs. split; [done|].
      apply Hbroken; [done|]. by apply HF.
  - apply emits_bind; [by apply emits_delete_all|]. intros _.
    apply emits_bind; [by apply emits_emit|]. intros _. exact Hrestart.
Qed.

Lemma emits_add_random_objects_locals (fuel : nat) (num_objects : Z) :
  (∀ evs, slot_events evs → T evs) →
  (∀ evs, broken_slot_events evs →
      F (IndexError "Cannot choose from an empty sequence") → T evs) →
  (∀ id, T [DeleteObject id]) →
  T [Call "add_random_objects" "add_random_objects"] →
  emits T F (add_random_objects_locals e a fuel num_objects).
Proof.
  intros Hslot Hbroken Hdel Hcall.
  induction fuel as [|fuel IH]; cbn [add_random_objects_locals].
  - apply emits_out_of_fuel.
  - by apply emits_place_slots.
Qed.

End EmitFacts.

(** ** Minimum distance between placed objects *)

Lemma planar_distance_sym (p q : R * R * R) :
  planar_distance p q = planar_distance q p.
Proof.
  destruct p as [[x y] r], q as [[xx yy] rr]. unfold planar_distance.
  f_equal. lra.
Qed.

Lemma separated_sym (d : R) (p q : R * R * R) :
  separated d p q → separated d q p.
Proof. unfold separated. rewrite (planar_distance_sym q p). lra. Qed.

Lemma sqrt_2_ge_1 : (1 <= sqrt 2)%R.
Proof. rewrite <- sqrt_1 at 1. apply sqrt_le_1_alt. lra. Qed.

(** The shrink applied to cubes never enlarges a non-negative size. *)
Lemma adjust_size_le (obj_name : string) (r : R) :
  (0 <= r)%R → (adjust_size obj_name r <= r)%R.
Proof.
  intros Hr. unfold adjust_size. destruct (String.eqb obj_name "Cube"); [|lra].
  simpl. pose proof sqrt_2_ge_1 as Hs.
  apply (Rmult_le_reg_r (sqrt 2)); [lra|].
  unfold Rdiv. rewrite Rmult_assoc, Rinv_l by lra. nra.
Qed.

(** [dists_good] accepts a candidate exactly when it keeps the minimum
    distance, with its drawn size as radius, to every recorded placement. *)
Lemma dists_good_true (a : args R) (ps : list (R * R * R)) (x y r : R) :
  dists_good a ps x y r = true ↔
  Forall (fun q => separated (min_dist a) (x, y, r) q) ps.
Proof.
  induction ps as [|[[xx yy] rr] ps IH]; cbn [dists_good].
  - split; [constructor|done].
  - rewrite Forall_cons, <- IH. unfold separated at 1, planar_distance, radius.
    cbn [nltb nsub nadd nmul nsqrt real_ops snd].
    destruct (Rltb _ (min_dist a)) eqn:Hlt.
    + apply Rltb_true in Hlt. split; [done|]. intros [Hsep _]. lra.
    + apply Rltb_false in Hlt. split; [|tauto]. intros ->. split; [lra|done].
Qed.

Lemma dists_good_false (a : args R) (ps : list (R * R * R)) (x y r : R) :
  dists_good a ps x y r = false ↔
  ∃ q, q ∈ ps ∧ ¬ separated (min_dist a) (x, y, r) q.
Proof.
  rewrite <- not_true_iff_false, dists_good_true, <- Exists_exists.
  split.
  - intros Hn. by apply not_Forall_Exists; [intros q; apply Rle_dec|].
  - intros Hex Hall. apply Exists_exists in Hex as (q & Hq & Hn).
    rewrite Forall_forall in Hall. by apply Hn, Hall.
Qed.

Lemma placement_separated (a : args R) (L L' : locals R) :
  sizes_nonnegative a →
  placement a L L' →
  pairwise_separated (min_dist a) (positions L) →
  pairwise_separated (min_dist a) (positions L').
Proof.
  intros Hsz [sn r x y on oo cn rg th ob mn mo px Hsize Hgood _ _ ->] Hpw.
  cbn [positions]. apply dists_good_true in Hgood.
  assert (Hnew : ∀ k q, positions L !! k = Some q →
            separated (min_dist a) (x, y, adjust_size on r) q).
  { intros k q Hq. rewrite Forall_forall in Hgood.
    specialize (Hgood q (list_elem_of_lookup_2 _ _ _ Hq)).
    pose proof (adjust_size_le on r (Hsz _ _ Hsize)) as Hle.
    destruct q as [[xx yy] rr]. unfold separated, planar_distance, radius in *.
    simpl in *. lra. }
  intros i j p q Hij Hi Hj.
  apply lookup_app_Some in Hi as [Hi|[Hilen Hi]];
    apply lookup_app_Some in Hj as [Hj|[Hjlen Hj]].
  - by eapply Hpw.
  - apply list_lookup_singleton_Some in Hj as [_ <-].
    apply separated_sym. by eapply Hnew.
  - apply list_lookup_singleton_Some in Hi as [_ <-]. by eapply Hnew.
  - apply list_lookup_singleton_Some in Hi as [Hi _].
    apply list_lookup_singleton_Some in Hj as [Hj _]. lia.
Qed.

Lemma placements_separated (a : args R) (n : nat) (L L' : locals R) :
  sizes_nonnegative a →
  nsteps (placement a) n L L' →
  pairwise_separated (min_dist a) (positions L) →
  pairwise_separated (min_dist a) (positions L').
Proof.
  intros Hsz. induction 1 as [|n L0 L1 L2 Hstep _ IH]; [done|].
  intros Hpw. by eapply IH, placement_separated.
Qed.

(** C1, as the code has it.  When no size in the catalogue is negative, the
    placements recorded by a call that returns are pairwise separated: planar
    distance minus the two recorded radii is at least [min_dist].  And a
    candidate that, with its drawn size as radius, comes closer than that to
    a recorded placement is not accepted: the loop goes on to its next try. *)
Theorem add_random_objects_min_dist (e : env R) (a : args R) :
  sizes_nonnegative a →
  (∀ (fuel : nat) (num_objects : Z) (w w' : world R) (L : locals R),
      add_random_objects_locals e a fuel num_objects w = (Ok L, w') →
      pairwise_separated (min_dist a) (positions L)) ∧
  (∀ (fuel : nat) (num_tries : Z) (ps : list (R * R * R)) (r : R)
      (w : world R),
      (num_tries + 1 <= max_retries a)%Z →
      let x := (-3 + (3 - -3) * random_src e (draws w))%R in
      let y := (-3 + (3 - -3) * random_src e (S (draws w)))%R in
      (∃ q, q ∈ ps ∧ ¬ separated (min_dist a) (x, y, r) q) →
      sample_position e a (S fuel) num_tries ps r w =
      sample_position e a fuel (num_tries + 1) ps r (next_draw (next_draw w))).
Proof.
  intros Hsz. split.
  - intros fuel n w w' L [Hsteps _]%add_random_objects_locals_Ok.
    eapply placements_separated; [done..|].
    intros i j p q _ Hi. done.
  - intros fuel nt ps r w Hnt x y Hbad.
    cbn [sample_position].
    destruct (max_retries a <? nt + 1)%Z eqn:Hlt; [apply Z.ltb_lt in Hlt; lia|].
    rewrite (bind_Ok_run _ _ _ _ _ (random_uniform_run _ _ _ _)).
    rewrite (bind_Ok_run _ _ _ _ _ (random_uniform_run _ _ _ _)).
    apply dists_good_false in Hbad. cbn [nadd nmul nsub of_Z real_ops].
    cbn [draws next_draw]. fold x y. by rewrite Hbad.
Qed.

(** Evaluation of a run over the reals: everything but the arithmetic. *)
Ltac run_eval :=
  lazy -[Rplus Rminus Rmult Rdiv Rinv Ropp sqrt IZR Rlt_dec Req_dec_T];
  reflexivity.

Section CubeRuns.
Local Open Scope R_scope.

(** Two cubes of size [s]: the first at the origin, the second at
  [(second_x u, 0)], provided the second candidate is accepted. *)
Lemma cube_run (s md u : R) :
dists_good (cube_args s md) [(origin_x, origin_x, (s / sqrt 2)%R)]
           (second_x u) origin_x s = true →
∃ L w', add_random_objects_locals (cube_env u) (cube_args s md) 1 2
          (loaded_world (cube_env u)) = (Ok L, w') ∧
        positions L = [(origin_x, origin_x, (s / sqrt 2)%R);
                       (second_x u, origin_x, (s / sqrt 2)%R)].
Proof.
intros Hgood. cbn [add_random_objects_locals].
change (Z.to_nat 2) with 2%nat.
erewrite place_slots_accept; cycle 1.
{ run_eval. }
{ apply sample_position_first_try; [done|]. reflexivity. }
{ run_eval. }
erewrite place_slots_accept; cycle 1.
{ run_eval. }
{ apply sample_position_first_try; [done|]. exact Hgood. }
{ run_eval. }
eexists _, _. split; reflexivity.
Qed.

Lemma sqrt_2_bounds : (7 / 5 <= sqrt 2 <= 3 / 2)%R.
Proof.
split.
- rewrite <- (sqrt_square (7 / 5)) by lra. apply sqrt_le_1_alt. lra.
- rewrite <- (sqrt_square (3 / 2)) by lra. apply sqrt_le_1_alt. lra.
Qed.

Lemma inv_sqrt_2_bounds : (3 / 5 <= 1 / sqrt 2 <= 3 / 4)%R.
Proof.
pose proof sqrt_2_bounds as [Hlo Hhi].
assert (Hinv : (1 / sqrt 2 * sqrt 2 = 1)%R) by (field; lra).
split; nra.
Qed.

Lemma cube_args_sizes_nonnegative (s md : R) :
(0 <= s)%R → sizes_nonnegative (cube_args s md).
Proof.
intros Hs sn r Hin. apply list_elem_of_singleton in Hin. by simplify_eq.
Qed.

Lemma cube_far_accepted :
dists_good (cube_args (7 / 10) (1 / 4))
  [(origin_x, origin_x, (7 / 10 / sqrt 2)%R)] (second_x (5 / 6)) origin_x
  (7 / 10) = true.
Proof.
apply dists_good_true, Forall_singleton.
unfold separated, planar_distance, radius, origin_x, second_x. cbn [snd min_dist cube_args options].
replace ((-3 + (3 - -3) * (5 / 6) - (-3 + (3 - -3) * (1 / 2))) *
         (-3 + (3 - -3) * (5 / 6) - (-3 + (3 - -3) * (1 / 2))) +
         (-3 + (3 - -3) * (1 / 2) - (-3 + (3 - -3) * (1 / 2))) *
         (-3 + (3 - -3) * (1 / 2) - (-3 + (3 - -3) * (1 / 2))))%R
  with (2 * 2)%R by lra.
rewrite sqrt_square by lra.
pose proof inv_sqrt_2_bounds. lra.
Qed.

Lemma add_random_objects_min_dist_witness :
pairwise_separated (1 / 4)
  [(origin_x, origin_x, (7 / 10 / sqrt 2)%R);
   (second_x (5 / 6), origin_x, (7 / 10 / sqrt 2)%R)].
Proof.
destruct (cube_run (7 / 10) (1 / 4) (5 / 6) cube_far_accepted)
  as (L & w' & Hrun & Hpos).
rewrite <- Hpos.
apply (proj1 (add_random_objects_min_dist
                (cube_env (5 / 6)) (cube_args (7 / 10) (1 / 4))
                (cube_args_sizes_nonnegative (7 / 10) (1 / 4) ltac:(lra)))
             _ _ _ _ _ Hrun).
Defined.

Lemma cube_inverted_accepted :
dists_good (cube_args (-1) (8 / 5))
  [(origin_x, origin_x, (-1 / sqrt 2)%R)] (second_x (1 / 2)) origin_x
  (-1) = true.
Proof.
apply dists_good_true, Forall_singleton.
unfold separated, planar_distance, radius, origin_x, second_x. cbn [snd min_dist cube_args options].
replace ((-3 + (3 - -3) * (1 / 2) - (-3 + (3 - -3) * (1 / 2))) *
         (-3 + (3 - -3) * (1 / 2) - (-3 + (3 - -3) * (1 / 2))) +
         (-3 + (3 - -3) * (1 / 2) - (-3 + (3 - -3) * (1 / 2))) *
         (-3 + (3 - -3) * (1 / 2) - (-3 + (3 - -3) * (1 / 2))))%R
  with 0%R by lra.
rewrite sqrt_0. pose proof inv_sqrt_2_bounds. lra.
Qed.

(** C1 as it is written, without a condition on the sizes, fails: with the
  size [-1], the minimum distance [8/5] and both draws at the origin, the
  call returns two cubes whose distance minus radii is [sqrt 2 < 8/5]. *)
Lemma add_random_objects_min_dist_negative_size :
∃ (L : locals R) (w' : world R),
  add_random_objects_locals (cube_env (1 / 2)) (cube_args (-1) (8 / 5)) 1 2
    (loaded_world (cube_env (1 / 2))) = (Ok L, w') ∧
  ¬ pairwise_separated (min_dist (cube_args (-1) (8 / 5))) (positions L).
Proof.
destruct (cube_run (-1) (8 / 5) (1 / 2) cube_inverted_accepted)
  as (L & w' & Hrun & Hpos).
exists L, w'. split; [exact Hrun|]. intros Hall. rewrite Hpos in Hall.
specialize (Hall 0%nat 1%nat _ _ ltac:(lia) eq_refl eq_refl).
unfold separated, planar_distance, radius, origin_x, second_x in Hall.
cbn [snd min_dist cube_args options] in Hall.
replace ((-3 + (3 - -3) * (1 / 2) - (-3 + (3 - -3) * (1 / 2))) *
         (-3 + (3 - -3) * (1 / 2) - (-3 + (3 - -3) * (1 / 2))) +
         (-3 + (3 - -3) * (1 / 2) - (-3 + (3 - -3) * (1 / 2))) *
         (-3 + (3 - -3) * (1 / 2) - (-3 + (3 - -3) * (1 / 2))))%R
  with 0%R in Hall by lra.
rewrite sqrt_0 in Hall. pose proof inv_sqrt_2_bounds. lra.
Qed.

End CubeRuns.

(** ** Restart and completeness *)

Section CompleteFacts.
Context {num : Type} `{NumOps num}.
Variable e : env num.
Variable a : args num.

Lemma placements_length (n : nat) (L L' : locals num) :
  nsteps (placement a) n L L' →
  length (positions L') = (length (positions L) + n)%nat ∧
  length (objects L') = (length (objects L) + n)%nat ∧
  length (blender_objects L') = (length (blender_objects L) + n)%nat.
Proof.
  induction 1 as [|n L0 L1 L2 Hstep _ IH]; [lia|].
  destruct Hstep as [? ? ? ? ? ? ? ? ? ? ? ? ? _ _ _ _ ->].
  cbn [positions objects blender_objects] in IH.
  rewrite !length_app in IH. simpl in IH. lia.
Qed.

Lemma add_random_objects_Ok (fuel : nat) (num_objects : Z)
    (w w' : world num) (objs : list (object num))
    (bobjs : list (blender_object num)) :
  add_random_objects e a fuel num_objects w = (Ok (objs, bobjs), w') →
  ∃ L, add_random_objects_locals e a fuel num_objects w = (Ok L, w') ∧
       objs = objects L ∧ bobjs = blender_objects L.
Proof.
  unfold add_random_objects.
  intros (L & w1 & Hrun & Hret)%bind_Ok_inv.
  cbv [mret M_ret] in Hret. simplify_eq. by exists L.
Qed.

(** C3. When the retry loop of a slot gives up, every object placed so far
    is deleted (the scene graph is back to what the call found) and the
    function is called again for the full [num_objects]; and a call that
    returns has recorded exactly [num_objects] objects, which are what it
    added to the scene graph. *)
Theorem add_random_objects_restart (fuel : nat) (num_objects : Z) :
  (∀ (slots : nat) (L : locals num) (w w1 w2 : world num)
      (base : list (blender_object num)) (size_name : string) (r : num),
      data_objects w = base ++ blender_objects L →
      Forall (newer_than base) (blender_objects L) →
      random_choice e (size_mapping a) w = (Ok (size_name, r), w1) →
      sample_position e a (S (Z.to_nat (max_retries a))) 0 (positions L) r w1
        = (Ok None, w2) →
      ∃ w3,
        place_slots e a (add_random_objects_locals e a fuel num_objects)
                    (S slots) L w
          = add_random_objects_locals e a fuel num_objects w3 ∧
        data_objects w3 = base ∧
        trace w3 = trace w
                   ++ map (fun o => DeleteObject (ob_id o)) (blender_objects L)
                   ++ [Call "add_random_objects" "add_random_objects"]) ∧
  (∀ (w w' : world num) (objs : list (object num))
      (bobjs : list (blender_object num)),
      add_random_objects e a fuel num_objects w = (Ok (objs, bobjs), w') →
      length objs = Z.to_nat num_objects ∧
      length bobjs = Z.to_nat num_objects ∧
      data_objects w' = data_objects w ++ bobjs).
Proof.
  split.
  - intros slots L w w1 w2 base sn r Hdata Hnew Hsize Hpos.
    pose proof (sample_position_same_scene _ _ _ _ _ _ _ _ _ Hpos)
      as (Hd2 & _ & _ & Ht2).
    apply random_choice_Ok in Hsize as Hw1. destruct Hw1 as [_ ->].
    destruct (delete_all_run (blender_objects L) w2)
      as (w3 & Hdel & _ & _ & _ & Ht3 & Hd3).
    eexists. split; [|split].
    + cbn [place_slots]. rewrite (bind_Ok_run _ _ _ _ _ Hsize). cbn beta iota.
      rewrite (bind_Ok_run _ _ _ _ _ Hpos). cbn beta iota.
      rewrite (bind_Ok_run _ _ _ _ _ Hdel).
      rewrite (bind_Ok_run _ _ _ _ _ (emit_run _ _)). reflexivity.
    + cbn [data_objects]. rewrite Hd3, Hd2. cbn [next_draw data_objects].
      rewrite Hdata. by apply filter_attempt.
    + cbn [trace]. rewrite Ht3, Ht2. cbn [next_draw trace].
      by rewrite <- app_assoc.
  - intros w w' objs bobjs (L & Hrun & -> & ->)%add_random_objects_Ok.
    apply add_random_objects_locals_Ok in Hrun as [Hsteps Hdata].
    apply placements_length in Hsteps as (_ & Hobjs & Hbobjs).
    cbn [no_locals objects blender_objects length] in *. split_and!; [lia..|done].
Qed.

End CompleteFacts.

Lemma add_random_objects_restart_witness :
  (∃ w3,
      place_slots retry_env retry_args
        (add_random_objects_locals retry_env retry_args 1 2) 1
        retry_locals retry_world
      = add_random_objects_locals retry_env retry_args 1 2 w3 ∧
      data_objects w3 = base_scene retry_env ∧
      trace w3 = trace retry_world
                 ++ map (fun o => DeleteObject (ob_id o))
                        (blender_objects retry_locals)
                 ++ [Call "add_random_objects" "add_random_objects"]) ∧
  ∃ objs bobjs w',
    add_random_objects retry_env retry_args 2 2 (loaded_world retry_env)
      = (Ok (objs, bobjs), w') ∧
    length objs = 2%nat ∧ length bobjs = 2%nat ∧
    data_objects w' = data_objects (loaded_world retry_env) ++ bobjs.
Proof.
  split.
  - eapply (proj1 (add_random_objects_restart retry_env retry_args 1 2)
              0%nat retry_locals retry_world _ _ (base_scene retry_env)).
    + vm_compute. reflexivity.
    + repeat constructor.
    + vm_compute. reflexivity.
    + vm_compute. reflexivity.
  - eexists _, _, _. split; [vm_compute; reflexivity|].
    eapply (proj2 (add_random_objects_restart retry_env retry_args 2 2)
                  (loaded_world retry_env)).
    vm_compute. reflexivity.
Defined.

(** ** Recorded radius *)

Section RadiusFacts.
Context {num : Type} `{NumOps num}.
Variable a : args num.

Lemma placements_radius (n : nat) (L L' : locals num) :
  nsteps (placement a) n L L' →
  Forall2 (radius_derived a) (objects L) (positions L) →
  Forall2 (radius_derived a) (objects L') (positions L').
Proof.
  induction 1 as [|n L0 L1 L2 Hstep _ IH]; [done|]. intros Hall. apply IH.
  destruct Hstep as [sn r x y on oo cn rg th ob mn mo px Hsize _ [Hshape _] _ ->].
  cbn [objects positions]. apply Forall2_app; [done|].
  constructor; [|constructor]. by exists on, r.
Qed.

End RadiusFacts.

(** C7. In every list a call returns, the radius recorded for an object is
    the scale factor of its size divided by [sqrt 2] when the asset of its
    shape is named "Cube", and that scale factor itself for any other
    asset. *)
Theorem recorded_radius (e : env R) (a : args R) (fuel : nat)
    (num_objects : Z) (w w' : world R) (L : locals R) :
  add_random_objects_locals e a fuel num_objects w = (Ok L, w') →
  Forall2
    (fun (o : object R) (p : R * R * R) =>
       ∃ (name : string) (r0 : R),
         (name, shape o) ∈ object_mapping a ∧
         (size o, r0) ∈ size_mapping a ∧
         (name = "Cube" → radius p = (r0 / sqrt 2)%R) ∧
         (name ≠ "Cube" → radius p = r0))
    (objects L) (positions L).
Proof.
  intros [Hsteps _]%add_random_objects_locals_Ok.
  eapply placements_radius in Hsteps; [|constructor].
  eapply Forall2_impl; [exact Hsteps|].
  intros o p (name & r0 & Hshape & Hsize & Hr). exists name, r0.
  split_and!; [done..| |]; intros Hname; unfold radius; rewrite Hr;
    unfold adjust_size.
  - subst name. done.
  - apply String.eqb_neq in Hname. by rewrite Hname.
Qed.

Lemma recorded_radius_witness :
  ∃ L : locals R,
    positions L = [(origin_x, origin_x, (7 / 10 / sqrt 2)%R);
                   (second_x (5 / 6), origin_x, (7 / 10 / sqrt 2)%R)] ∧
    Forall2
      (fun (o : object R) (p : R * R * R) =>
         ∃ (name : string) (r0 : R),
           (name, shape o) ∈ object_mapping (cube_args (7 / 10) (1 / 4)) ∧
           (size o, r0) ∈ size_mapping (cube_args (7 / 10) (1 / 4)) ∧
           (name = "Cube" → radius p = (r0 / sqrt 2)%R) ∧
           (name ≠ "Cube" → radius p = r0))
      (objects L) (positions L).
Proof.
  destruct (cube_run (7 / 10) (1 / 4) (5 / 6) cube_far_accepted)
    as (L & w' & Hrun & Hpos).
  exists L. split; [exact Hpos|].
  exact (recorded_radius _ _ _ _ _ _ _ Hrun).
Defined.

(** The same shrink in binary64: the size 0.7 of a cube is recorded as
    0.49497474683058318. *)
Example recorded_radius_binary64 :
  adjust_size "Cube" 0.7%float = 0.49497474683058318%float ∧
  adjust_size "Sphere" 0.7%float = 0.7%float.
Proof. split; vm_compute; reflexivity. Qed.

(** ** Shape and colour under a restriction table *)

Section RestrictionFacts.
Context {num : Type} `{NumOps num}.
Variable e : env num.
Variable a : args num.

Lemma placements_permitted (combos : list (string * list string))
    (n : nat) (L L' : locals num) :
  shape_color_combos_json a = Some combos →
  nsteps (placement a) n L L' →
  Forall (fun o => permitted combos (shape o) (color o)) (objects L) →
  Forall (fun o => permitted combos (shape o) (color o)) (objects L').
Proof.
  intros Hcombos. induction 1 as [|n L0 L1 L2 Hstep _ IH]; [done|].
  intros Hall. apply IH.
  destruct Hstep as [sn r x y on oo cn rg th ob mn mo px _ _ [_ Hok] _ ->].
  rewrite Hcombos in Hok. destruct Hok as [Hperm _].
  cbn [objects]. apply Forall_app. split; [done|]. by apply Forall_singleton.
Qed.

(** C8. With a restriction table, every successful choice of shape and
    colour, and so every object of a returned list, has its shape among
    the keys of the table and its colour in that shape's list. *)
Theorem restricted_colors (combos : list (string * list string)) :
  shape_color_combos_json a = Some combos →
  (∀ (w w' : world num) (obj_name obj_name_out color_name : string)
      (rgba : list num),
      choose_shape_color e a w
        = (Ok (obj_name, obj_name_out, color_name, rgba), w') →
      permitted combos obj_name_out color_name) ∧
  (∀ (fuel : nat) (num_objects : Z) (w w' : world num)
      (objs : list (object num)) (bobjs : list (blender_object num)),
      add_random_objects e a fuel num_objects w = (Ok (objs, bobjs), w') →
      Forall (fun o => permitted combos (shape o) (color o)) objs).
Proof.
  intros Hcombos. split.
  - intros w w' on oo cn rg [[_ Hok] _]%choose_shape_color_Ok.
    rewrite Hcombos in Hok. by destruct Hok.
  - intros fuel n w w' objs bobjs (L & Hrun & -> & _)%add_random_objects_Ok.
    apply add_random_objects_locals_Ok in Hrun as [Hsteps _].
    apply (placements_permitted _ _ _ _ Hcombos Hsteps). constructor.
Qed.

End RestrictionFacts.

Lemma restricted_colors_witness :
  ∃ objs bobjs w',
    add_random_objects cogent_env cogent_args 1 2 (loaded_world cogent_env)
      = (Ok (objs, bobjs), w') ∧
    map color objs = ["red"; "blue"] ∧
    Forall (fun o => permitted [("cube", ["red"; "blue"])] (shape o) (color o))
           objs.
Proof.
  eexists _, _, _. split; [vm_compute; reflexivity|]. split; [reflexivity|].
  eapply (proj2 (restricted_colors cogent_env cogent_args _ eq_refl)
                1%nat 2%Z (loaded_world cogent_env)).
  vm_compute. reflexivity.
Defined.

(** ** Names that cannot be resolved *)

Section UnresolvedFacts.
Context {num : Type} `{NumOps num}.

Lemma whole_slots_app (evs1 evs2 : list (event num)) :
  whole_slots evs1 → whole_slots evs2 → whole_slots (evs1 ++ evs2).
Proof.
  induction 1 as [|evs rest Hs _ IH|id rest _ IH|rest _ IH]; intros H2.
  - done.
  - rewrite <- app_assoc. apply whole_slot; auto.
  - cbn. apply whole_delete; auto.
  - cbn. apply whole_restart; auto.
Qed.

#[export] Instance whole_slots_monoid : TraceMonoid (@whole_slots num).
Proof. split; [constructor|apply whole_slots_app]. Qed.

(** In a trace of whole slots every [add_object] has its
    [add_material]. *)
Lemma whole_slots_balanced (evs : list (event num)) :
  whole_slots evs →
  length (filter (fun ev => is_add_object ev = true) evs) =
  length (filter (fun ev => is_add_material ev = true) evs).
Proof.
  induction 1 as [|evs rest Hs _ IH|id rest _ IH|rest _ IH]; [done| |done..].
  destruct Hs as (? & ? & ? & ? & ? & ? & ? & ? & ->).
  rewrite !filter_app, !length_app, IH. done.
Qed.


End UnresolvedFacts.

(** The run on the table with the unknown shape "ghost": the first slot
    places a cube, the second one raises. *)
Example ghost_run_trace :
  fst ghost_run = Raise (IndexError "list index out of range") ∧
  trace (snd ghost_run) =
    [AddObject "output/shapes" "Cube" 0.49497474683058318%float
       (0%float, 0%float) 180%float 7;
     SetLayer 7;
     AddMaterial "Rubber"
       [0.67843137254901964%float; 0.13725490196078433%float;
        0.13725490196078433%float; 1%float]].
Proof. split; reflexivity. Qed.



(** ** The margin option *)

Section MarginRuns.
Local Open Scope R_scope.

Lemma cube_near_accepted :
dists_good (cube_args (1 / 20) (1 / 4))
  [(origin_x, origin_x, (1 / 20 / sqrt 2)%R)] (second_x (9 / 16)) origin_x
  (1 / 20) = true.
Proof.
apply dists_good_true, Forall_singleton.
unfold separated, planar_distance, radius, origin_x, second_x.
cbn [snd min_dist cube_args options].
replace ((-3 + (3 - -3) * (9 / 16) - (-3 + (3 - -3) * (1 / 2))) *
         (-3 + (3 - -3) * (9 / 16) - (-3 + (3 - -3) * (1 / 2))) +
         (-3 + (3 - -3) * (1 / 2) - (-3 + (3 - -3) * (1 / 2))) *
         (-3 + (3 - -3) * (1 / 2) - (-3 + (3 - -3) * (1 / 2))))
  with (3 / 8 * (3 / 8)) by lra.
rewrite sqrt_square by lra.
pose proof inv_sqrt_2_bounds. lra.
Qed.

(** C5 fails on the code.  With the size 1/20, the minimum distance 1/4 and
  the margin 2/5, the call returns two cubes whose centres are 3/8 apart:
  along every direction of length at most 1 they are closer than the
  margin, so no choice of the four cardinal directions satisfies the
  constraint.  The loop never reads [args.margin]. *)
Theorem add_random_objects_ignores_margin :
∃ (L : locals R) (w' : world R),
  add_random_objects_locals (cube_env (9 / 16)) (cube_args (1 / 20) (1 / 4))
    1 2 (loaded_world (cube_env (9 / 16))) = (Ok L, w') ∧
  ∀ (dirs : list (R * R)) (d : R * R),
    d ∈ dirs →
    fst d * fst d + snd d * snd d <= 1 →
    ¬ margin_kept (margin (cube_args (1 / 20) (1 / 4))) dirs (positions L).
Proof.
destruct (cube_run (1 / 20) (1 / 4) (9 / 16) cube_near_accepted)
  as (L & w' & Hrun & Hpos).
exists L, w'. split; [exact Hrun|].
intros dirs [d0 d1] Hd Hunit Hkept. rewrite Hpos in Hkept.
specialize (Hkept 0%nat 1%nat _ _ _ ltac:(lia) eq_refl eq_refl Hd).
unfold along, origin_x, second_x in Hkept.
cbn [fst snd margin cube_args options] in *.
revert Hkept. unfold Rabs. destruct (Rcase_abs _); nra.
Qed.

End MarginRuns.

(** The same run in binary64, and the separation of the two placements
    along the two axes. *)
Example ignores_margin_binary64 :
  let a := options (cube_catalogue 0.05%float) None 0.25%float 0.4%float 16 in
  let e := plain_env (fun _ => 0%nat)
             (fun t => if (t =? 8)%nat then 0.5625%float else 0.5%float) in
  match fst (add_random_objects_locals e a 1 2 (loaded_world e)) with
  | Ok L => map (fun p => (fst (fst p), snd (fst p))) (positions L)
            = [(0%float, 0%float); (0.375%float, 0%float)] ∧
            PrimFloat.ltb 0.375%float (margin a) = true
  | _ => False
  end.
Proof. vm_compute. split; reflexivity. Qed.

(** ** The camera loop *)

Section ForallTraces.
Context {num : Type} `{NumOps num}.

#[export] Instance Forall_monoid (P : event num → Prop) :
  TraceMonoid (Forall P).
Proof. split; [constructor|]. intros. by apply Forall_app. Qed.

End ForallTraces.

Section RenderFacts.
Context {num : Type} `{NumOps num} `{TrigOps num}.
Variable e : env num.
Variable a : args num.

Section Emits.
Context (T : list (event num) → Prop) `{!TraceMonoid T} (F : exn → Prop).
Hypothesis T_slot : ∀ evs, slot_events evs → T evs.
Hypothesis T_broken : ∀ evs, broken_slot_events evs → T evs.
Hypothesis T_plain : ∀ ev,
  is_add_object ev = false → is_add_material ev = false →
  (∀ c c', ev ≠ Call c c') → T [ev].
Hypothesis T_restart : T [Call "add_random_objects" "add_random_objects"].
Hypothesis T_top : T [Call "render_scene" "add_random_objects"].

Lemma emits_rand (L : num) : emits T F (rand e L).
Proof.
  unfold rand. apply (emits_bind T F); [apply (emits_random_random T F)|].
  intros u. apply (emits_ret T F).
Qed.

Lemma emits_jitter_lamp (lamp : string) (jitter : num) :
  emits T F (jitter_lamp e lamp jitter).
Proof.
  unfold jitter_lamp. destruct (nltb _ jitter); [|apply (emits_ret T F)].
  apply (emits_for_each T F). intros i []. apply (emits_bind T F); [apply emits_rand|].
  intros d. by apply (emits_emit T F), T_plain.
Qed.

Lemma emits_open_mainfile : emits T F (open_mainfile e).
Proof.
  intros w w' r Hrun _. unfold open_mainfile in Hrun.
  rewrite emit_run in Hrun. simplify_eq. eexists. split; [done|].
  by apply T_plain.
Qed.

Lemma emits_set_camera (axis : nat) (value : num) :
  emits T F (set_camera axis value).
Proof.
  intros w w' r Hrun _. unfold set_camera in Hrun.
  destruct (camera_location w) as [[c0 c1] c2].
  rewrite emit_run in Hrun. simplify_eq. eexists. split; [done|].
  by apply T_plain.
Qed.

Lemma emits_render (file_index : Z) : emits T F (render e file_index).
Proof.
  intros w w' r Hrun _. unfold render in Hrun.
  rewrite (bind_Ok_run _ _ _ _ _ (emit_run _ _)) in Hrun.
  cbv [mret M_ret] in Hrun. simplify_eq. eexists. split; [done|].
  by apply T_plain.
Qed.

Lemma emits_render_frame (fuel : nat) (file_index : Z) (stepsize : num) :
  emits T F (render_frame e fuel file_index stepsize).
Proof.
  induction fuel as [|fuel IH]; cbn [render_frame].
  - apply (emits_out_of_fuel T F).
  - apply (emits_bind T F); [apply emits_render|]. intros [|]; [exact IH|].
    apply (emits_bind T F); [|intros cam; apply (emits_ret T F)].
    apply (emits_same_scene T F). intros w w' r Hrun.
    cbv [get_camera_location] in Hrun. by simplify_eq.
Qed.

Lemma emits_add_random_objects (fuel : nat) (num_objects : Z) :
  emits T F (add_random_objects e a fuel num_objects).
Proof.
  unfold add_random_objects. apply (emits_bind T F); [|intros L; apply (emits_ret T F)].
  apply (emits_add_random_objects_locals T F); [done|auto|..].
  - intros id. by apply T_plain.
  - exact T_restart.
Qed.

Lemma emits_camera_shot (fuel : nat) (num_objects : Z) (stepsize : num)
    (j i : Z) (st : render_result num) :
  emits T F (camera_shot e a fuel num_objects stepsize j i st).
Proof.
  unfold camera_shot.
  apply (emits_bind T F); [apply emits_set_camera|]. intros _.
  apply (emits_bind T F); [apply emits_set_camera|]. intros _.
  apply (emits_bind T F).
  { apply (emits_same_scene T F). intros w w' r Hrun.
    cbv [len_data_objects] in Hrun. by simplify_eq. }
  intros n. apply (emits_bind T F).
  { destruct (n =? 7)%nat; [|apply (emits_ret T F)].
    apply (emits_bind T F); [apply (emits_emit T F), T_top|].
    intros _. apply (emits_bind T F); [apply emits_add_random_objects|].
    intros res. apply (emits_ret T F). }
  intros objs. apply (emits_bind T F); [apply emits_render_frame|].
  intros fr. apply (emits_ret T F).
Qed.

Lemma emits_render_scene (fuel : nat) (num_objects : Z)
    (output_blendfile : option string) :
  emits T F (render_scene e a fuel num_objects output_blendfile).
Proof.
  unfold render_scene.
  apply (emits_bind T F); [apply emits_open_mainfile|]. intros _.
  apply (emits_bind T F); [by apply (emits_emit T F), T_plain|]. intros _.
  apply (emits_bind T F); [apply emits_jitter_lamp|]. intros _.
  apply (emits_bind T F); [apply emits_jitter_lamp|]. intros _.
  apply (emits_bind T F); [apply emits_jitter_lamp|]. intros _.
  destruct (num_cams a =? 0)%Z.
  { intros w w' r Hrun _. cbv [raise] in Hrun. simplify_eq.
    exists []. split; [by rewrite app_nil_r|apply trace_nil]. }
  apply (emits_bind T F).
  { apply (emits_for_each T F). intros j st. unfold camera_tier.
    apply (emits_bind T F); [apply emits_set_camera|]. intros _.
    apply (emits_for_each T F). intros i st'. apply emits_camera_shot. }
  intros st. apply (emits_bind T F).
  { destruct output_blendfile;
      [by apply (emits_emit T F), T_plain|apply (emits_ret T F)]. }
  intros _. apply (emits_bind T F); [by apply (emits_emit T F), T_plain|].
  intros _. apply (emits_ret T F).
Qed.

End Emits.

End RenderFacts.

(** ** Relationship inference and render_scene *)

Section InferenceFacts.
Context {num : Type} `{NumOps num} `{TrigOps num}.
Variable e : env num.
Variable a : args num.

(** Every logged call is one of the two calls of [add_random_objects]. *)
Lemma render_scene_known_events (fuel : nat) (num_objects : Z)
    (output_blendfile : option string) :
  emits (Forall known_event) (fun _ => True)
        (render_scene e a fuel num_objects output_blendfile).
Proof.
  apply (emits_render_scene e a (Forall known_event) (fun _ => True)).
  - intros evs (? & ? & ? & ? & ? & ? & ? & ? & ->). by repeat constructor.
  - intros evs (? & ? & ? & ? & ? & ? & ->). by repeat constructor.
  - intros ev _ _ Hk. apply Forall_singleton. destruct ev; try done.
    by destruct (Hk caller callee).
  - apply Forall_singleton. by right.
  - apply Forall_singleton. by left.
Qed.

Lemma known_event_not_inference (ev : event num) :
  known_event ev → is_call_to "compute_all_relationships" ev = false.
Proof.
  destruct ev; try done. simpl. by intros [[_ ->]|[_ ->]].
Qed.


End InferenceFacts.

(** ** Number of rendered frames *)

Section FrameFacts.
Context {num : Type} `{NumOps num} `{TrigOps num}.

(** A property of the loop variables that each completed pass advances
    holds, after a loop that completes, for the length of its list. *)
Lemma for_each_Ok_count {A St} (I : nat → St → Prop) (l : list A)
    (body : A → St → M num St) (s s' : St) (w w' : world num) (k0 : nat) :
  I k0 s →
  (∀ k x s1 s2 w1 w2, I k s1 → body x s1 w1 = (Ok s2, w2) → I (S k) s2) →
  for_each l body s w = (Ok s', w') →
  I (k0 + length l)%nat s'.
Proof.
  intros Hinit Hstep. revert s w k0 Hinit.
  induction l as [|x l IH]; intros s w k0 Hinit; cbn [for_each].
  - cbv [mret M_ret]. intros ?; simplify_eq. by rewrite Nat.add_0_r.
  - intros (s1 & w1 & Hbody & Hrest)%bind_Ok_inv.
    cbn [length]. rewrite <- Nat.add_succ_comm. eapply IH; [|exact Hrest].
    by eapply Hstep.
Qed.

Variable e : env num.
Variable a : args num.

Lemma camera_shot_Ok_frames (fuel : nat) (num_objects : Z) (stepsize : num)
    (j i : Z) (st st' : render_result num) (w w' : world num) :
  camera_shot e a fuel num_objects stepsize j i st w = (Ok st', w') →
  length (frames st') = S (length (frames st)).
Proof.
  unfold camera_shot.
  intros (_ & w1 & _ & Hrun)%bind_Ok_inv.
  apply bind_Ok_inv in Hrun as (_ & w2 & _ & Hrun).
  apply bind_Ok_inv in Hrun as (n & w3 & _ & Hrun).
  apply bind_Ok_inv in Hrun as (objs & w4 & _ & Hrun).
  apply bind_Ok_inv in Hrun as (fr & w5 & _ & Hrun).
  cbv [mret M_ret] in Hrun. simplify_eq. cbn [frames].
  rewrite length_app. simpl. lia.
Qed.

Lemma camera_tier_Ok_frames (fuel : nat) (num_objects : Z) (stepsize : num)
    (j : Z) (st st' : render_result num) (w w' : world num) :
  camera_tier e a fuel num_objects stepsize j st w = (Ok st', w') →
  length (frames st') =
  (length (frames st) + Z.to_nat (num_cams a / num_heights))%nat.
Proof.
  unfold camera_tier. intros (_ & w1 & _ & Hrun)%bind_Ok_inv.
  eapply (for_each_Ok_count
            (fun k s => length (frames s) = (length (frames st) + k)%nat)
            _ _ _ _ _ _ 0%nat) in Hrun.
  - rewrite Hrun, length_seqZ. lia.
  - lia.
  - intros k i s1 s2 w2 w3 Hk Hshot.
    apply camera_shot_Ok_frames in Hshot. lia.
Qed.

(** A call that returns has rendered [num_cams // 8] frames for each of
    the eight tiers. *)
Lemma render_scene_frames (fuel : nat) (num_objects : Z)
    (output_blendfile : option string) (w w' : world num)
    (res : render_result num) :
  render_scene e a fuel num_objects output_blendfile w = (Ok res, w') →
  length (frames res) = (8 * Z.to_nat (num_cams a / 8))%nat.
Proof.
  unfold render_scene.
  intros (_ & w1 & _ & Hrun)%bind_Ok_inv.
  apply bind_Ok_inv in Hrun as (_ & w2 & _ & Hrun).
  apply bind_Ok_inv in Hrun as (_ & w3 & _ & Hrun).
  apply bind_Ok_inv in Hrun as (_ & w4 & _ & Hrun).
  apply bind_Ok_inv in Hrun as (_ & w5 & _ & Hrun).
  destruct (num_cams a =? 0)%Z; [done|].
  apply bind_Ok_inv in Hrun as (st & w6 & Hloop & Hrun).
  apply bind_Ok_inv in Hrun as (_ & w7 & _ & Hrun).
  apply bind_Ok_inv in Hrun as (_ & w8 & _ & Hrun).
  cbv [mret M_ret] in Hrun. simplify_eq.
  eapply (for_each_Ok_count
            (fun k s => length (frames s) =
                        (k * Z.to_nat (num_cams a / num_heights))%nat)
            _ _ _ _ _ _ 0%nat) in Hloop.
  - rewrite Hloop. done.
  - done.
  - intros k j s1 s2 w9 w10 Hk Htier.
    apply camera_tier_Ok_frames in Htier. lia.
Qed.

End FrameFacts.

(** Within a tier the azimuth advances by the same angle from one shot to
    the next. *)
Lemma shot_azimuth_step (a : args R) (i : Z) :
  num_cams a ≠ 0%Z →
  (shot_azimuth a (i + 1) - shot_azimuth a i
   = 2 / IZR (num_cams a) * 8 * PI)%R.
Proof.
  intros Hn. unfold shot_azimuth, num_heights.
  cbn [nmul ndiv of_Z real_ops npi real_trig].
  rewrite !minus_IZR, !mult_IZR, plus_IZR.
  assert (IZR (num_cams a) ≠ 0%R) by (by apply not_0_IZR).
  field. done.
Qed.

Lemma Rltb_0_1 : Rltb 0 1 = true.
Proof. apply Rltb_true. lra. Qed.

(** Evaluation of [render_scene] on the inputs [orbit_args], whose three
    jitter magnitudes are 1. *)
Ltac orbit_eval :=
  unfold render_scene, jitter_lamp;
  cbn [nltb real_ops of_Z key_light_jitter back_light_jitter
       fill_light_jitter orbit_args with_num_cams cube_args options];
  rewrite !Rltb_0_1;
  lazy -[Rplus Rminus Rmult Rdiv Rinv Ropp sqrt IZR Rlt_dec Req_dec_T
         cos sin PI];
  reflexivity.

(** C4 fails on the code at the default number of cameras: the call returns
    without a single frame, where C4 requires one pose.  In general a
    call that returns has rendered [8 * (num_cams // 8)] frames. *)
Theorem camera_loop_default_renders_nothing :
  (∃ w', default_cams_run = (Ok {| final_objects := None; frames := [] |}, w')) ∧
  ∀ (e : env R) (a : args R) (fuel : nat) (num_objects : Z)
    (output_blendfile : option string) (w w' : world R)
    (res : render_result R),
    render_scene e a fuel num_objects output_blendfile w = (Ok res, w') →
    length (frames res) = (8 * Z.to_nat (num_cams a / 8))%nat.
Proof.
  split.
  - unfold default_cams_run. eexists. orbit_eval.
  - intros. by eapply render_scene_frames.
Qed.

Lemma camera_loop_default_renders_nothing_witness :
  length (frames {| final_objects := @None (list (object R)); frames := [] |})
  = (8 * Z.to_nat (num_cams (orbit_args 1) / 8))%nat.
Proof.
  destruct camera_loop_default_renders_nothing as [[w' Hrun] Hcount].
  exact (Hcount orbit_env (orbit_args 1) 1%nat 1%Z None
                (loaded_world orbit_env) w' _ Hrun).
Defined.


Lemma eight_cams_run_Ok :
  ∃ res w', eight_cams_run = (Ok res, w') ∧ length (frames res) = 8%nat ∧
            count_top_calls (trace w') = 1%nat ∧
            ∃ objs, final_objects res = Some objs ∧ length objs = 1%nat.
Proof.
  unfold eight_cams_run. eexists _, _. split; [orbit_eval|].
  split; [reflexivity|]. split; [vm_compute; reflexivity|].
  eexists. split; reflexivity.
Qed.



(** ** The gate on the number of scene objects *)

Section CountFacts.
Context {num : Type} `{NumOps num}.

Lemma count_top_calls_app (evs1 evs2 : list (event num)) :
  count_top_calls (evs1 ++ evs2) =
  (count_top_calls evs1 + count_top_calls evs2)%nat.
Proof. unfold count_top_calls. by rewrite filter_app, length_app. Qed.

Lemma count_top_calls_quiet (evs : list (event num)) :
  Forall (fun ev => is_top_call ev = false) evs → count_top_calls evs = 0%nat.
Proof.
  intros Hq. unfold count_top_calls. rewrite filter_none; [done|].
  eapply Forall_impl; [exact Hq|]. intros ev ->. done.
Qed.

Lemma neutral_quiet (evs : list (event num)) :
  Forall neutral evs → Forall (fun ev => is_top_call ev = false) evs.
Proof. intros Hn. eapply Forall_impl; [exact Hn|]. by intros ev [_ ?]. Qed.

Lemma neutral_no_add (evs : list (event num)) :
  Forall neutral evs → no_add_object evs.
Proof. intros Hn. eapply Forall_impl; [exact Hn|]. by intros ev [? _]. Qed.

Lemma placed_once_no_add (evs : list (event num)) :
  no_add_object evs → placed_once evs.
Proof.
  intros Hno pre post ev -> _. by apply Forall_app in Hno as [? _].
Qed.

Lemma placed_once_app_quiet (evs evs' : list (event num)) :
  placed_once evs → Forall (fun ev => is_top_call ev = false) evs' →
  placed_once (evs ++ evs').
Proof.
  intros Hp Hq pre post ev Heq Htop.
  apply app_eq_app in Heq as [l [[-> Heq]|[-> Heq]]].
  - destruct l as [|ev' l].
    + cbn in Heq. subst evs'. apply Forall_cons in Hq as [Hq _]. congruence.
    + cbn in Heq. injection Heq as <- ->. by eapply Hp.
  - subst evs'. apply Forall_app in Hq as [_ Hq].
    apply Forall_cons in Hq as [Hq _]. congruence.
Qed.

(** Neutral events keep the invariant and the state of the loop. *)
Lemma orbit_inv_neutral (n : Z) (b : nat) (cams : Z)
    (evs evs1 : list (event num)) :
  orbit_inv n b cams evs → Forall neutral evs1 →
  orbit_inv n b cams (evs ++ evs1).
Proof.
  intros (Hp & Hz & Hn & Hb & Hc) Hne.
  pose proof (count_top_calls_quiet _ (neutral_quiet _ Hne)) as H0.
  unfold orbit_inv. rewrite count_top_calls_app, H0, Nat.add_0_r.
  split_and!; [|intros Hcount|done..].
  - by apply placed_once_app_quiet, neutral_quiet.
  - apply Forall_app. split; [by apply Hz|by apply neutral_no_add].
Qed.

Lemma orbit_state_neutral (n : Z) (b : nat) (evs evs1 : list (event num))
    (d : nat) (objs : option (list (object num))) :
  orbit_state n b evs d objs → Forall neutral evs1 →
  orbit_state n b (evs ++ evs1) d objs.
Proof.
  intros (Ha & Hz & Hn) Hne.
  pose proof (count_top_calls_quiet _ (neutral_quiet _ Hne)) as H0.
  unfold orbit_state. rewrite count_top_calls_app, H0, Nat.add_0_r.
  split_and!; [|done..].
  destruct Ha as [Ha|Ha]; [left|by right].
  apply Forall_app. split; [done|by apply neutral_no_add].
Qed.

(** The invocation from the camera loop: the call is logged when
    [bpy.data.objects] holds seven objects, [evs1] are the events of
    [add_random_objects]. *)
Lemma orbit_inv_gate (n : Z) (b : nat) (cams : Z)
    (evs evs1 : list (event num)) (objs : option (list (object num))) :
  (0 < cams / 8)%Z →
  orbit_inv n b cams evs → orbit_state n b evs 7 objs →
  Forall (fun ev => is_top_call ev = false) evs1 →
  orbit_inv n b cams
    (evs ++ [Call "render_scene" "add_random_objects"] ++ evs1).
Proof.
  intros Hcams (Hp & Hz & Hn & Hb & Hc) (Ha & Hsz & Hsn) Hq.
  destruct Ha as [Ha|Ha]; [|done].
  unfold orbit_inv.
  rewrite !count_top_calls_app, (count_top_calls_quiet evs1 Hq).
  change (count_top_calls [Call "render_scene" "add_random_objects"])
    with 1%nat.
  split_and!.
  - rewrite app_assoc. apply placed_once_app_quiet; [|done].
    apply placed_once_no_add, Forall_app. split; [done|].
    by apply Forall_singleton.
  - lia.
  - intros Hn1. specialize (Hn Hn1). specialize (Hsn Hn1).
    destruct (count_top_calls evs) as [|[|k]]; [lia|by destruct Hsn|lia].
  - intros Hb7. specialize (Hb Hb7). destruct (Hsz Hb) as [Heq _]. congruence.
  - lia.
Qed.

Lemma orbit_state_gate (n : Z) (b : nat) (evs evs1 : list (event num))
    (objs objs' : option (list (object num))) :
  orbit_state n b evs 7 objs →
  Forall (fun ev => is_top_call ev = false) evs1 →
  (Z.to_nat n = 0%nat → no_add_object evs1) →
  orbit_state n b
    (evs ++ [Call "render_scene" "add_random_objects"] ++ evs1)
    (7 + Z.to_nat n) objs'.
Proof.
  intros (Ha & Hsz & Hsn) Hq Hnone.
  destruct Ha as [Ha|Ha]; [|done].
  unfold orbit_state.
  rewrite !count_top_calls_app, (count_top_calls_quiet evs1 Hq).
  change (count_top_calls [Call "render_scene" "add_random_objects"])
    with 1%nat.
  split_and!; [|lia|lia].
  destruct (decide (Z.to_nat n = 0%nat)) as [Hn0|Hn0]; [left|right; lia].
  apply Forall_app. split; [done|]. apply Forall_cons. split; [done|].
  by apply Hnone.
Qed.

End CountFacts.

Section NeutralSteps.
Context {num : Type} `{NumOps num} `{TrigOps num}.

Lemma neutral_ret {A} (x : A) : neutral_step (mret x : M num A).
Proof.
  intros w w' r Hrun. cbv [mret M_ret] in Hrun. simplify_eq.
  exists []. by rewrite app_nil_r.
Qed.

Lemma neutral_bind {A B} (m : M num A) (f : A → M num B) :
  neutral_step m → (∀ x, neutral_step (f x)) → neutral_step (m ≫= f).
Proof.
  intros Hm Hf w w' r Hrun. unfold mbind, M_bind in Hrun.
  destruct (m w) as [[x|x|] w1] eqn:Hmw.
  - destruct (Hm _ _ _ Hmw) as (evs1 & Ht1 & Hn1 & Hd1).
    destruct (Hf x _ _ _ Hrun) as (evs2 & Ht2 & Hn2 & Hd2).
    exists (evs1 ++ evs2). rewrite Ht2, Ht1, Hd2, Hd1, app_assoc.
    split_and!; [done| |done]. by apply Forall_app.
  - simplify_eq. by eapply Hm.
  - simplify_eq. by eapply Hm.
Qed.

Lemma neutral_same_scene {A} (m : M num A) :
  (∀ w w' r, m w = (r, w') → same_scene w w') → neutral_step m.
Proof.
  intros Hm w w' r Hrun. apply Hm in Hrun as (Hd & _ & _ & Ht).
  exists []. by rewrite app_nil_r.
Qed.

Lemma neutral_emit (ev : event num) : neutral ev → neutral_step (emit ev).
Proof.
  intros Hev w w' r Hrun. rewrite emit_run in Hrun. simplify_eq.
  exists [ev]. split_and!; [done| |done]. by apply Forall_singleton.
Qed.

Lemma neutral_out_of_fuel {A} : neutral_step (out_of_fuel : M num A).
Proof.
  intros w w' r Hrun. cbv [out_of_fuel] in Hrun. simplify_eq.
  exists []. by rewrite app_nil_r.
Qed.

Lemma neutral_for_each {A St} (l : list A) (body : A → St → M num St)
    (s : St) :
  (∀ x s', neutral_step (body x s')) → neutral_step (for_each l body s).
Proof.
  intros Hbody. revert s. induction l as [|x l IH]; intros s; cbn [for_each].
  - apply neutral_ret.
  - apply neutral_bind; [apply Hbody|]. intros s'. apply IH.
Qed.

Variable e : env num.

Lemma neutral_jitter_lamp (lamp : string) (jitter : num) :
  neutral_step (jitter_lamp e lamp jitter).
Proof.
  unfold jitter_lamp. destruct (nltb _ jitter); [|apply neutral_ret].
  apply neutral_for_each. intros i []. apply neutral_bind.
  - unfold rand. apply neutral_bind; [|intros u; apply neutral_ret].
    apply neutral_same_scene. intros w w' r Hrun.
    rewrite random_random_run in Hrun. by simplify_eq.
  - intros d. by apply neutral_emit.
Qed.

Lemma neutral_set_camera (axis : nat) (value : num) :
  neutral_step (set_camera axis value).
Proof.
  intros w w' r Hrun. unfold set_camera in Hrun.
  destruct (camera_location w) as [[c0 c1] c2].
  rewrite emit_run in Hrun. simplify_eq. eexists. split_and!; [done| |done].
  by apply Forall_singleton.
Qed.

Lemma neutral_render_frame (fuel : nat) (file_index : Z) (stepsize : num) :
  neutral_step (render_frame e fuel file_index stepsize).
Proof.
  induction fuel as [|fuel IH]; cbn [render_frame].
  - apply neutral_out_of_fuel.
  - apply neutral_bind.
    + intros w w' r Hrun. unfold render in Hrun.
      rewrite (bind_Ok_run _ _ _ _ _ (emit_run _ _)) in Hrun.
      cbv [mret M_ret] in Hrun. simplify_eq. eexists.
      split_and!; [done| |done]. by apply Forall_singleton.
    + intros [|]; [exact IH|].
      apply neutral_bind; [|intros cam; apply neutral_ret].
      apply neutral_same_scene. intros w w' r Hrun.
      cbv [get_camera_location] in Hrun. by simplify_eq.
Qed.

Variable a : args num.

(** The events of the function the gate guards, and the objects it leaves
    in the scene graph when it returns. *)
Lemma add_random_objects_step (fuel : nat) (num_objects : Z)
    (w w' : world num)
    (r : outcome (list (object num) * list (blender_object num))) :
  add_random_objects e a fuel num_objects w = (r, w') →
  ∃ evs, trace w' = trace w ++ evs ∧
    Forall (fun ev => is_top_call ev = false) evs ∧
    (Z.to_nat num_objects = 0%nat → no_add_object evs) ∧
    (∀ res, r = Ok res →
       length (data_objects w') =
       (length (data_objects w) + Z.to_nat num_objects)%nat).
Proof.
  intros Hrun.
  assert (Hemits : emits (Forall placing_event) (fun _ => True)
                     (add_random_objects e a fuel num_objects)).
  { unfold add_random_objects.
    apply (emits_bind (Forall placing_event) (fun _ => True));
      [|intros L; apply (emits_ret (Forall placing_event) (fun _ => True))].
    apply (emits_add_random_objects_locals (Forall placing_event)
             (fun _ => True)).
    - intros evs (? & ? & ? & ? & ? & ? & ? & ? & ->). by repeat constructor.
    - intros evs (? & ? & ? & ? & ? & ? & ->) _. by repeat constructor.
    - intros id. by repeat constructor.
    - by repeat constructor. }
  destruct (Hemits _ _ _ Hrun) as (evs & Ht & Hev); [done|].
  exists evs. split_and!; [done| | |].
  - eapply Forall_impl; [exact Hev|]. intros [] Hp; try done.
    simpl in Hp. destruct Hp as [-> ->]. done.
  - intros Hn0. assert (trace w' = trace w) as Hsame.
    { revert Hrun. unfold add_random_objects.
      destruct fuel as [|fuel]; cbn [add_random_objects_locals];
        [|rewrite Hn0; cbn [place_slots]];
        cbv [mbind M_bind out_of_fuel mret M_ret]; intros ?; by simplify_eq. }
    rewrite Hsame in Ht. rewrite <- (app_nil_r (trace w)) in Ht at 1.
    apply app_inv_head in Ht. subst evs. constructor.
  - intros [objs bobjs] ->.
    apply add_random_objects_Ok in Hrun as (L & Hrun & -> & ->).
    apply add_random_objects_locals_Ok in Hrun as [Hsteps ->].
    apply placements_length in Hsteps as (_ & _ & Hlen).
    rewrite length_app, Hlen. done.
Qed.

End NeutralSteps.

Section GateFacts.
Context {num : Type} `{NumOps num} `{TrigOps num}.
Variable e : env num.
Variable a : args num.
Variable t0 : list (event num).
Variable n : Z.

Local Abbreviation b := (length (base_scene e)).
Local Abbreviation cams := (num_cams a).
Local Abbreviation holds := (orbit_holds t0 n b cams).
Local Abbreviation aborted := (orbit_aborted t0 n b cams).
Local Abbreviation post := (orbit_post t0 n b cams).

Lemma hoare_bind {A B} (P : world num → Prop) (m : M num A)
    (Q1 : outcome A → world num → Prop) (f : A → M num B)
    (Q : outcome B → world num → Prop) :
  hoare P m Q1 →
  (∀ x, hoare (Q1 (Ok x)) (f x) Q) →
  (∀ x w, Q1 (Raise x) w → Q (Raise x) w) →
  (∀ w, Q1 OutOfFuel w → Q OutOfFuel w) →
  hoare P (m ≫= f) Q.
Proof.
  intros Hm Hf Hraise Hfuel w w' r HP Hrun. unfold mbind, M_bind in Hrun.
  destruct (m w) as [[x|x|] w1] eqn:Hmw.
  - eapply Hf; [|exact Hrun]. by eapply Hm.
  - simplify_eq. apply Hraise. by eapply Hm.
  - simplify_eq. apply Hfuel. by eapply Hm.
Qed.

Lemma holds_aborted (objs : option (list (object num))) (w : world num) :
  holds objs w → aborted w.
Proof. intros (evs & ? & ? & _). by exists evs. Qed.

(** A neutral step keeps what holds between the passes of the loop. *)
Lemma hoare_neutral {A} (m : M num A) (objs : option (list (object num))) :
  neutral_step m → hoare (holds objs) m (post (fun _ => objs)).
Proof.
  intros Hm w w' r (evs & Ht & Hinv & Hst) Hrun.
  destruct (Hm _ _ _ Hrun) as (evs1 & Ht1 & Hn1 & Hd1).
  assert (aborted w') as Hab.
  { exists (evs ++ evs1). split; [by rewrite Ht1, Ht, app_assoc|].
    by apply orbit_inv_neutral. }
  destruct r; [|done..].
  exists (evs ++ evs1). split_and!.
  - by rewrite Ht1, Ht, app_assoc.
  - by apply orbit_inv_neutral.
  - rewrite Hd1. by apply orbit_state_neutral.
Qed.

Lemma hoare_for_each {A St} (f : St → option (list (object num)))
    (l : list A) (body : A → St → M num St) (s : St) :
  (∀ x s', x ∈ l → hoare (holds (f s')) (body x s') (post f)) →
  hoare (holds (f s)) (for_each l body s) (post f).
Proof.
  revert s. induction l as [|x l IH]; intros s Hbody; cbn [for_each].
  - intros w w' r Hh Hrun. cbv [mret M_ret] in Hrun. by simplify_eq.
  - eapply hoare_bind; [apply Hbody, elem_of_cons; by left| |done..].
    intros s'. apply IH. intros y s'' Hy. apply Hbody, elem_of_cons. by right.
Qed.

(** The guarded invocation, taken when [bpy.data.objects] has seven
    elements. *)
Lemma hoare_invocation (fuel : nat) (objs : option (list (object num))) :
  (0 < cams / 8)%Z →
  hoare (fun w => holds objs w ∧ length (data_objects w) = 7%nat)
        (emit (Call "render_scene" "add_random_objects");;
         res ← add_random_objects e a fuel n;
         mret (Some (fst res)))
        (post (fun o => o)).
Proof.
  intros Hcams w w' r [(evs & Ht & Hinv & Hst) Hlen] Hrun.
  rewrite Hlen in Hst.
  rewrite (bind_Ok_run _ _ _ _ _ (emit_run _ _)) in Hrun.
  unfold mbind, M_bind in Hrun.
  destruct (add_random_objects e a fuel n _) as [r1 w1] eqn:Hcall.
  destruct (add_random_objects_step _ _ _ _ _ _ _ Hcall)
    as (evs1 & Ht1 & Hq & Hnone & Hlen1).
  cbn [trace data_objects] in Ht1, Hlen1.
  assert (aborted w1) as Hab.
  { exists (evs ++ [Call "render_scene" "add_random_objects"] ++ evs1).
    split; [by rewrite Ht1, Ht, <- !app_assoc|]. by eapply orbit_inv_gate. }
  destruct r1 as [res| |]; cbv [mret M_ret] in Hrun; simplify_eq; [|done..].
  exists (evs ++ [Call "render_scene" "add_random_objects"] ++ evs1).
  split_and!.
  - by rewrite Ht1, Ht, <- !app_assoc.
  - by eapply orbit_inv_gate.
  - rewrite (Hlen1 _ eq_refl), Hlen. by eapply orbit_state_gate.
Qed.

Lemma hoare_camera_shot (fuel : nat) (stepsize : num) (j i : Z)
    (st : render_result num) :
  (0 < cams / 8)%Z →
  hoare (holds (final_objects st))
        (camera_shot e a fuel n stepsize j i st) (post final_objects).
Proof.
  intros Hcams. unfold camera_shot.
  eapply hoare_bind; [apply hoare_neutral, neutral_set_camera| |done..].
  intros ?. cbn [orbit_post].
  eapply hoare_bind; [apply hoare_neutral, neutral_set_camera| |done..].
  intros ?. cbn [orbit_post].
  eapply (hoare_bind _ _
            (fun r w => match r with
                        | Ok k => holds (final_objects st) w ∧
                                  k = length (data_objects w)
                        | _ => aborted w
                        end)); [| |done..].
  { intros w w' r Hh Hrun. cbv [len_data_objects] in Hrun. by simplify_eq. }
  intros k.
  eapply (hoare_bind _ _ (post (fun o => o))); [| |done..].
  { destruct (k =? 7)%nat eqn:Hk.
    - apply Nat.eqb_eq in Hk. subst k.
      intros w w' r [Hh Hlen] Hrun.
      eapply hoare_invocation; [done| |exact Hrun]. done.
    - intros w w' r [Hh _] Hrun. cbv [mret M_ret] in Hrun. by simplify_eq. }
  intros objs. cbn beta.
  eapply hoare_bind;
    [apply hoare_neutral, neutral_render_frame| |done..].
  intros fr w w' r Hh Hrun. cbv [mret M_ret] in Hrun. by simplify_eq.
Qed.

Lemma hoare_camera_tier (fuel : nat) (stepsize : num) (j : Z)
    (st : render_result num) :
  hoare (holds (final_objects st))
        (camera_tier e a fuel n stepsize j st) (post final_objects).
Proof.
  unfold camera_tier.
  eapply hoare_bind; [apply hoare_neutral, neutral_set_camera| |done..].
  intros ?. cbn [orbit_post]. apply (hoare_for_each final_objects).
  intros i st' Hi. apply hoare_camera_shot.
  apply elem_of_seqZ in Hi. unfold num_heights in Hi. lia.
Qed.

End GateFacts.

Section GateTheorem.
Context {num : Type} `{NumOps num} `{TrigOps num}.
Variable e : env num.
Variable a : args num.

Lemma set_camera_run (axis : nat) (value : num) (w : world num) :
  ∃ w1, set_camera axis value w = (Ok tt, w1) ∧
        trace w1 = trace w ++ [MoveCamera axis value] ∧
        data_objects w1 = data_objects w.
Proof.
  unfold set_camera. destruct (camera_location w) as [[c0 c1] c2].
  rewrite emit_run. by eexists.
Qed.

(** A pass of the inner loop that finds another number of objects than
    seven. *)
Lemma camera_shot_closed_gate (fuel : nat) (n : Z) (stepsize : num)
    (j i : Z) (st : render_result num) (w w' : world num)
    (r : outcome (render_result num)) :
  camera_shot e a fuel n stepsize j i st w = (r, w') →
  length (data_objects w) ≠ 7%nat →
  ∃ evs, trace w' = trace w ++ evs ∧ Forall neutral evs ∧
         data_objects w' = data_objects w ∧
         ∀ st', r = Ok st' → final_objects st' = final_objects st.
Proof.
  intros Hrun Hlen. unfold camera_shot in Hrun.
  destruct (set_camera_run 0 (nmul (nmul (of_Z 10) (ncos (shot_azimuth a i)))
                                   (nsin (tier_phi j))) w)
    as (w1 & Hw1 & Ht1 & Hd1).
  rewrite (bind_Ok_run _ _ _ _ _ Hw1) in Hrun.
  destruct (set_camera_run 1 (nmul (nmul (of_Z 10) (nsin (shot_azimuth a i)))
                                   (nsin (tier_phi j))) w1)
    as (w2 & Hw2 & Ht2 & Hd2).
  rewrite (bind_Ok_run _ _ _ _ _ Hw2) in Hrun.
  unfold mbind at 1, M_bind at 1, len_data_objects in Hrun.
  rewrite Hd2, Hd1 in Hrun.
  destruct (length (data_objects w) =? 7)%nat eqn:Hk;
    [by apply Nat.eqb_eq in Hk|].
  cbv [mbind M_bind mret M_ret] in Hrun.
  destruct (render_frame e fuel _ stepsize w2) as [r3 w3] eqn:Hfr.
  destruct (neutral_render_frame _ _ _ _ _ _ _ Hfr) as (evs3 & Ht3 & Hn3 & Hd3).
  assert (w' = w3) as -> by (destruct r3; by simplify_eq).
  eexists. split_and!.
  - rewrite Ht3, Ht2, Ht1, <- !app_assoc. reflexivity.
  - apply Forall_app. split; [by repeat constructor|].
    apply Forall_app. split; [by repeat constructor|done].
  - by rewrite Hd3, Hd2, Hd1.
  - intros st' ->. destruct r3; by simplify_eq.
Qed.

Lemma open_mainfile_holds (n : Z) (w : world num) :
  ∃ w1, open_mainfile e w = (Ok tt, w1) ∧
        orbit_holds (trace w) n (length (base_scene e)) (num_cams a) None w1.
Proof.
  unfold open_mainfile. rewrite emit_run. eexists. split; [done|].
  exists [OpenMainfile]. split; [done|].
  assert (count_top_calls [@OpenMainfile num] = 0%nat) as Hc by done.
  unfold orbit_inv, orbit_state. rewrite !Hc. cbn [data_objects].
  split_and!; try done; try lia.
  - apply placed_once_no_add. by repeat constructor.
  - intros _. by repeat constructor.
  - left. by repeat constructor.
Qed.

(** C10. The camera loop calls [add_random_objects] in a pass only if
    [bpy.data.objects] then holds exactly seven objects; a pass that finds
    another number appends neutral events only and leaves [objects] and the
    scene graph as they were.  In a whole call of [render_scene] no
    object has been added before any of these invocations, so objects are
    placed at most once (and with [num_objects >= 1] the function is invoked
    at most once); and when no pass invokes it, as when
    [num_cams // 8 <= 0] or when the base scene does not hold seven objects,
    no object is added and [objects] is still [None] at the end. *)
Theorem add_random_objects_gate :
  (∀ (fuel : nat) (n : Z) (stepsize : num) (j i : Z)
      (st : render_result num) (w w' : world num)
      (r : outcome (render_result num)),
      camera_shot e a fuel n stepsize j i st w = (r, w') →
      length (data_objects w) ≠ 7%nat →
      ∃ evs, trace w' = trace w ++ evs ∧ Forall neutral evs ∧
             data_objects w' = data_objects w ∧
             ∀ st', r = Ok st' → final_objects st' = final_objects st) ∧
  (∀ (fuel : nat) (n : Z) (output_blendfile : option string)
      (w w' : world num) (r : outcome (render_result num)),
      render_scene e a fuel n output_blendfile w = (r, w') →
      ∃ evs, trace w' = trace w ++ evs ∧
        placed_once evs ∧
        ((1 <= n)%Z → count_top_calls evs ≤ 1) ∧
        (count_top_calls evs = 0%nat →
           no_add_object evs ∧
           ∀ res, r = Ok res → final_objects res = None) ∧
        ((num_cams a / 8 <= 0)%Z → count_top_calls evs = 0%nat) ∧
        (length (base_scene e) ≠ 7%nat → count_top_calls evs = 0%nat)).
Proof.
  split; [intros; by eapply camera_shot_closed_gate|].
  intros fuel n blend w w' r Hrun. unfold render_scene in Hrun.
  destruct (open_mainfile_holds n w) as (w1 & Hopen & Hholds).
  rewrite (bind_Ok_run _ _ _ _ _ Hopen) in Hrun.
  assert (orbit_post (trace w) n (length (base_scene e)) (num_cams a)
            final_objects r w') as Hpost.
  { revert Hholds Hrun. generalize w1 w' r.
    eapply hoare_bind;
      [apply hoare_neutral, neutral_emit; by split| |done..].
    intros ?. cbn [orbit_post].
    eapply hoare_bind; [apply hoare_neutral, neutral_jitter_lamp| |done..].
    intros ?. cbn [orbit_post].
    eapply hoare_bind; [apply hoare_neutral, neutral_jitter_lamp| |done..].
    intros ?. cbn [orbit_post].
    eapply hoare_bind; [apply hoare_neutral, neutral_jitter_lamp| |done..].
    intros ?. cbn [orbit_post].
    destruct (num_cams a =? 0)%Z.
    { intros w2 w3 r2 Hh Hr. cbv [raise] in Hr. simplify_eq.
      by eapply holds_aborted. }
    eapply hoare_bind; [|intros st|done..].
    { apply (hoare_for_each e a (trace w) n final_objects _ _
               {| final_objects := None; frames := [] |}).
      intros j st _. apply hoare_camera_tier. }
    cbn [orbit_post].
    eapply hoare_bind; [apply hoare_neutral| |done..].
    { destruct blend; [by apply neutral_emit|apply neutral_ret]. }
    intros ?. cbn [orbit_post].
    eapply hoare_bind; [apply hoare_neutral, neutral_emit; by split| |done..].
    intros ?. cbn [orbit_post].
    intros w2 w3 r2 Hh Hr. cbv [mret M_ret] in Hr. by simplify_eq. }
  assert (orbit_aborted (trace w) n (length (base_scene e)) (num_cams a) w')
    as (evs & Ht & Hp & Hz & Hn & Hb & Hc).
  { destruct r; [by eapply holds_aborted|done..]. }
  exists evs. split_and!; [done..| |done|done].
  intros Hcount. split; [by apply Hz|]. intros res ->.
  destruct Hpost as (evs' & Ht' & _ & _ & Hsz & _).
  rewrite Ht in Ht'. apply app_inv_head in Ht'. subst evs'.
  by destruct (Hsz Hcount).
Qed.

End GateTheorem.

Lemma add_random_objects_gate_witness :
  ∃ res w' evs,
    eight_cams_run = (Ok res, w') ∧
    trace w' = trace (loaded_world orbit_env) ++ evs ∧
    placed_once evs ∧ count_top_calls evs = 1%nat ∧
    ∃ objs, final_objects res = Some objs ∧ length objs = 1%nat.
Proof.
  destruct eight_cams_run_Ok as (res & w' & Hrun & _ & Hcount & Hobjs).
  destruct (proj2 (add_random_objects_gate orbit_env (orbit_args 8))
              1%nat 1%Z None (loaded_world orbit_env) w' (Ok res) Hrun)
    as (evs & Ht & Hp & _).
  exists res, w', evs. split_and!; [done..| |done].
  rewrite Ht in Hcount. exact Hcount.
Defined.

(** * Further properties *)

(** ** The relation table: keys, order and converse *)

Section TableFacts.
Context {num : Type} `{NumOps num}.

(** Membership in a row, whatever the arithmetic. *)
Lemma related_to_iff (scene : scene_struct num) (eps : num) (name : string)
    (i j : nat) :
  related_to scene eps name i j ↔
  is_vertical name = false ∧
  ∃ vec obj1 obj2,
    ss_directions scene !! name = Some vec ∧
    ss_objects scene !! i = Some obj1 ∧
    ss_objects scene !! j = Some obj2 ∧
    object_eqb obj1 obj2 = false ∧
    nltb eps (dot (diff (coords_3d obj1) (coords_3d obj2)) vec) = true.
Proof.
  unfold related_to. split.
  - intros (rows & row & Hrows & Hrow & Hj).
    rewrite compute_all_relationships_lookup in Hrows.
    destruct (is_vertical name); [done|]. split; [done|].
    destruct (ss_directions scene !! name) as [vec|]; [|done].
    cbn in Hrows. simplify_eq.
    unfold relationship_rows in Hrow.
    change (map ?f ?l) with (f <$> l) in Hrow.
    rewrite list_lookup_fmap in Hrow.
    destruct (ss_objects scene !! i) as [obj1|] eqn:Hi; [|done].
    cbn in Hrow. simplify_eq.
    apply elem_of_sorted, elem_of_related_set in Hj as (obj2 & ? & ? & ?).
    by exists vec, obj1, obj2.
  - intros (Hv & vec & obj1 & obj2 & Hdir & Hi & Hj & Hne & Hlt).
    exists (relationship_rows (ss_objects scene) vec eps),
           (sorted (related_set (ss_objects scene) vec eps obj1)).
    split_and!.
    + by rewrite compute_all_relationships_lookup, Hv, Hdir.
    + by apply relationship_rows_lookup.
    + apply elem_of_sorted, elem_of_related_set. by exists obj2.
Qed.

(** X1. The table has a key for exactly the direction names of the scene
    other than "above" and "below".  Whatever the arithmetic (binary64
    included), the list under a key has one row per object, and every row
    is strictly increasing and lists only indices of objects of the
    scene. *)
Theorem compute_all_relationships_keys (scene : scene_struct num) (eps : num)
    (name : string) :
  (is_Some (compute_all_relationships scene eps !! name) ↔
   is_Some (ss_directions scene !! name) ∧ name ≠ "above" ∧ name ≠ "below") ∧
  ∀ rows : list (list nat),
    compute_all_relationships scene eps !! name = Some rows →
    length rows = length (ss_objects scene) ∧
    Forall (fun row =>
              StronglySorted lt row ∧
              Forall (fun j => j < length (ss_objects scene)) row) rows.
Proof.
  rewrite compute_all_relationships_lookup. unfold is_vertical. split.
  - destruct (String.eqb_spec name "above") as [->|Ha];
      [cbn; split; [by intros [? ?]|by intros (_ & ? & _)]|].
    destruct (String.eqb_spec name "below") as [->|Hb];
      [cbn; split; [by intros [? ?]|by intros (_ & _ & ?)]|].
    cbn. rewrite fmap_is_Some. tauto.
  - intros rows Hrows.
    destruct (String.eqb name "above" || String.eqb name "below"); [done|].
    destruct (ss_directions scene !! name) as [vec|]; [|done].
    cbn in Hrows. simplify_eq. split; [apply relationship_rows_length|].
    unfold relationship_rows. apply Forall_forall. intros row Hrow.
    change (map ?f ?l) with (f <$> l) in Hrow.
    apply list_elem_of_fmap in Hrow as (obj1 & -> & _).
    split; [apply sorted_increasing|].
    apply Forall_forall. intros j Hj.
    apply elem_of_sorted, elem_of_related_set in Hj as (obj2 & Hj & _).
    by eapply lookup_lt_Some.
Qed.

End TableFacts.

Lemma Reqb_sym (x y : R) : Reqb x y = Reqb y x.
Proof. unfold Reqb. destruct (Req_dec_T x y), (Req_dec_T y x); congruence. Qed.

Lemma object_eqb_sym (o1 o2 : object R) : object_eqb o1 o2 = object_eqb o2 o1.
Proof.
  unfold object_eqb, vec3_eqb.
  destruct (coords_3d o1) as [[a0 a1] a2], (coords_3d o2) as [[b0 b1] b2].
  cbn [neqb real_ops].
  rewrite (String.eqb_sym (shape o1)), (String.eqb_sym (size o1)),
    (String.eqb_sym (material o1)), (String.eqb_sym (color o1)).
  rewrite (Reqb_sym a0), (Reqb_sym a1), (Reqb_sym a2), (Reqb_sym (rotation o1)).
  by rewrite (Z.eqb_sym (fst (pixel_coords o1))),
    (Z.eqb_sym (snd (pixel_coords o1))).
Qed.

(** Over the reals and for a slack that is not negative, the test
    [obj1 == obj2] is implied by the comparison of the dot product with the
    slack and can be left out of the condition. *)
Lemma related_to_real (scene : scene_struct R) (eps : R) (name : string)
    (i j : nat) :
  (0 <= eps)%R →
  related_to scene eps name i j ↔
  is_vertical name = false ∧
  ∃ vec obj1 obj2,
    ss_directions scene !! name = Some vec ∧
    ss_objects scene !! i = Some obj1 ∧
    ss_objects scene !! j = Some obj2 ∧
    (eps < dot (diff (coords_3d obj1) (coords_3d obj2)) vec)%R.
Proof.
  intros Heps. rewrite related_to_iff. split.
  - intros (Hv & vec & o1 & o2 & ? & ? & ? & _ & Hlt%Rltb_true).
    split; [done|]. by exists vec, o1, o2.
  - intros (Hv & vec & o1 & o2 & ? & ? & ? & Hlt). split; [done|].
    exists vec, o1, o2. split_and!; [done..| |by apply Rltb_true].
    destruct (object_eqb o1 o2) eqn:Heq; [|done].
    apply object_eqb_coords in Heq. rewrite Heq, dot_diff_same in Hlt. lra.
Qed.

Lemma dot_diff_swap (c1 c2 v : vec3 R) :
  dot (diff c2 c1) v = (- dot (diff c1 c2) v)%R.
Proof.
  destruct c1 as [[a0 a1] a2], c2 as [[b0 b1] b2], v as [[v0 v1] v2].
  unfold dot, diff. simpl. lra.
Qed.

Lemma dot_diff_chain (c1 c2 c3 v : vec3 R) :
  dot (diff c1 c3) v = (dot (diff c1 c2) v + dot (diff c2 c3) v)%R.
Proof.
  destruct c1 as [[a0 a1] a2], c2 as [[b0 b1] b2], c3 as [[d0 d1] d2],
    v as [[v0 v1] v2].
  unfold dot, diff. simpl. lra.
Qed.

Lemma dot_opposite (d v : vec3 R) : dot d (opposite v) = (- dot d v)%R.
Proof.
  destruct d as [[d0 d1] d2], v as [[v0 v1] v2].
  unfold dot, opposite. simpl. lra.
Qed.

(** X2. For a slack that is not negative a relation of the table is
    asymmetric: if [j] is listed for [i] then [i] is not listed for [j]. *)
Theorem related_to_asymmetric (scene : scene_struct R) (eps : R)
    (name : string) (i j : nat) :
  (0 <= eps)%R →
  related_to scene eps name i j → ¬ related_to scene eps name j i.
Proof.
  intros Heps Hij Hji.
  apply related_to_real in Hij as (_ & v & o1 & o2 & Hv & Hi & Hj & Hlt);
    [|done].
  apply related_to_real in Hji as (_ & v' & o2' & o1' & Hv' & Hj' & Hi' & Hlt');
    [|done].
  simplify_eq. rewrite dot_diff_swap in Hlt'. lra.
Qed.

(** X3. For a slack that is not negative a relation of the table is
    transitive: if [j] is listed for [i] and [k] for [j], then [k] is
    listed for [i]. *)
Theorem related_to_transitive (scene : scene_struct R) (eps : R)
    (name : string) (i j k : nat) :
  (0 <= eps)%R →
  related_to scene eps name i j → related_to scene eps name j k →
  related_to scene eps name i k.
Proof.
  intros Heps Hij Hjk.
  apply related_to_real in Hij as (Hn & v & o1 & o2 & Hv & Hi & Hj & Hlt);
    [|done].
  apply related_to_real in Hjk as (_ & v' & o2' & o3 & Hv' & Hj' & Hk & Hlt');
    [|done].
  simplify_eq. apply related_to_real; [done|]. split; [done|].
  exists v, o1, o3. split_and!; [done..|].
  rewrite (dot_diff_chain _ (coords_3d o2)). lra.
Qed.

(** X4. When the vector of one direction name is the opposite of the
    vector of another, the two tables are converse to each other, for any
    slack: [j] is listed for [i] under the first name exactly when [i] is
    listed for [j] under the second. *)
Theorem related_to_converse (scene : scene_struct R) (eps : R)
    (name1 name2 : string) (vec : vec3 R) (i j : nat) :
  ss_directions scene !! name1 = Some vec →
  ss_directions scene !! name2 = Some (opposite vec) →
  is_vertical name1 = false → is_vertical name2 = false →
  related_to scene eps name1 i j ↔ related_to scene eps name2 j i.
Proof.
  intros H1 H2 Hv1 Hv2. rewrite !related_to_iff. split.
  - intros (_ & v & o1 & o2 & Hv & Hi & Hj & Hne & Hlt). simplify_eq.
    split; [done|]. exists (opposite vec), o2, o1.
    split_and!; [done..|by rewrite object_eqb_sym|].
    by rewrite dot_opposite, dot_diff_swap, Ropp_involutive.
  - intros (_ & v & o2 & o1 & Hv & Hj & Hi & Hne & Hlt). simplify_eq.
    split; [done|]. exists vec, o1, o2.
    split_and!; [done..|by rewrite object_eqb_sym|].
    by rewrite dot_opposite, dot_diff_swap, Ropp_involutive in Hlt.
Qed.

Lemma axis_scene_right : ss_directions axis_scene !! "right" = Some (1, 0, 0)%R.
Proof. apply lookup_insert_eq. Qed.

Lemma axis_scene_left :
  ss_directions axis_scene !! "left" = Some (opposite (1, 0, 0)%R).
Proof.
  unfold axis_scene. cbn [ss_directions].
  rewrite lookup_insert_ne by done. rewrite lookup_insert_eq.
  unfold opposite. cbn [nsub of_Z real_ops]. do 2 f_equal; [f_equal|]; lra.
Qed.

(** On the line an object is to the right of every object with a smaller
    [x] by more than the slack. *)
Lemma line_scene_right (i j : nat) (x y : R) :
  ss_objects line_scene !! i = Some (object_at x 0 0) →
  ss_objects line_scene !! j = Some (object_at y 0 0) →
  (1 / 5 < y - x)%R →
  related_to line_scene (1 / 5)%R "right" i j.
Proof.
  intros Hi Hj Hxy. apply related_to_real; [lra|]. split; [done|].
  exists (1, 0, 0)%R, (object_at x 0 0), (object_at y 0 0).
  split_and!; [apply axis_scene_right|done..|].
  unfold dot, diff. cbn. lra.
Qed.

Lemma axis_scene_related : related_to axis_scene (1 / 5)%R "right" 0 1.
Proof.
  apply related_to_real; [lra|]. split; [done|].
  exists (1, 0, 0)%R, (object_at 0 0 0), (object_at 1 0 0).
  split_and!; [apply axis_scene_right|done..|].
  unfold dot, diff. cbn. lra.
Qed.

Lemma related_to_asymmetric_witness :
  related_to axis_scene (1 / 5)%R "right" 0 1 ∧
  ¬ related_to axis_scene (1 / 5)%R "right" 1 0.
Proof.
  split; [exact axis_scene_related|].
  apply (related_to_asymmetric axis_scene (1 / 5)%R "right" 0 1); [lra|].
  exact axis_scene_related.
Defined.

Lemma related_to_transitive_witness :
  related_to line_scene (1 / 5)%R "right" 0 2.
Proof.
  apply (related_to_transitive line_scene (1 / 5)%R "right" 0 1 2); [lra| |].
  - apply (line_scene_right 0 1 0 1); [done..|lra].
  - apply (line_scene_right 1 2 1 2); [done..|lra].
Defined.

Lemma related_to_converse_witness :
  related_to axis_scene (1 / 5)%R "right" 0 1 ↔
  related_to axis_scene (1 / 5)%R "left" 1 0.
Proof.
  apply (related_to_converse axis_scene (1 / 5)%R "right" "left" (1, 0, 0)%R 0 1).
  - exact axis_scene_right.
  - exact axis_scene_left.
  - reflexivity.
  - reflexivity.
Defined.

(** ** The catalogue and the recorded objects *)

Section DictFacts.
Context {V : Type}.

Lemma elem_of_dict_set (d : list (string * V)) (k k' : string) (v v' : V) :
  (k, v) ∈ dict_set d k' v' → (k, v) ∈ d ∨ (k = k' ∧ v = v').
Proof.
  induction d as [|[k0 v0] d IH]; cbn [dict_set].
  - intros Hin%list_elem_of_singleton. right. by simplify_eq.
  - destruct (String.eqb_spec k0 k') as [->|Hne].
    + intros [Hhd|Htl]%elem_of_cons; [right; by simplify_eq|].
      left. apply elem_of_cons. by right.
    + intros [Hhd|Htl]%elem_of_cons.
      * left. apply elem_of_cons. by left.
      * destruct (IH Htl) as [?|?]; [left|by right].
        apply elem_of_cons. by right.
Qed.

Lemma dict_get_elem_of (d : list (string * V)) (k : string) (v : V) :
  dict_get d k = Some v → (k, v) ∈ d.
Proof.
  induction d as [|[k0 v0] d IH]; cbn [dict_get]; [done|].
  destruct (String.eqb_spec k0 k) as [->|Hne].
  - intros [= ->]. apply elem_of_cons. by left.
  - intros Hget. apply elem_of_cons. right. by apply IH.
Qed.

Lemma dict_set_not_nil (d : list (string * V)) (k : string) (v : V) :
  dict_set d k v ≠ [].
Proof.
  destruct d as [|[k0 v0] d]; cbn [dict_set]; [done|].
  by destruct (String.eqb k0 k).
Qed.

End DictFacts.

Section CatalogueFacts.
Context {num : Type} `{NumOps num}.
Variable e : env num.
Variable a : args num.

(** Every entry of [color_name_to_rgba] derives from a colour of the
    catalogue. *)
Lemma elem_of_color_name_to_rgba (name : string) (rgba : list num) :
  (name, rgba) ∈ color_name_to_rgba a →
  ∃ rgb, (name, rgb) ∈ colors (properties_json a) ∧ rgba = rgba_of rgb.
Proof.
  unfold color_name_to_rgba.
  assert (Hgen : ∀ (l : list (string * list num)) d,
    (name, rgba) ∈ foldl (fun d '(name, rgb) =>
        dict_set d name (map (fun c => ndiv c (of_Z 255)) rgb ++ [of_Z 1]))
      d l →
    (name, rgba) ∈ d ∨ ∃ rgb, (name, rgb) ∈ l ∧ rgba = rgba_of rgb).
  { induction l as [|[k rgb] l IH]; intros d; cbn [foldl]; [by left|].
    intros [Hd|(rgb' & Hin & ->)]%IH.
    - apply elem_of_dict_set in Hd as [?|[-> ->]]; [by left|].
      right. exists rgb. split; [apply elem_of_cons; by left|done].
    - right. exists rgb'. split; [apply elem_of_cons; by right|done]. }
  intros [Hnil|?]%Hgen; [|done]. by apply elem_of_nil in Hnil.
Qed.

Lemma color_name_to_rgba_not_nil :
  colors (properties_json a) ≠ [] → color_name_to_rgba a ≠ [].
Proof.
  unfold color_name_to_rgba.
  assert (Hgen : ∀ (l : list (string * list num)) d,
    d ≠ [] →
    foldl (fun d '(name, rgb) =>
        dict_set d name (map (fun c => ndiv c (of_Z 255)) rgb ++ [of_Z 1]))
      d l ≠ []).
  { induction l as [|[k rgb] l IH]; intros d Hd; cbn [foldl]; [done|].
    apply IH, dict_set_not_nil. }
  destruct (colors (properties_json a)) as [|[k rgb] l]; [done|].
  intros _. cbn [foldl]. apply Hgen, dict_set_not_nil.
Qed.

(** The colour chosen for a slot, with its rgba list. *)
Lemma shape_color_ok_rgba (obj_name obj_name_out color_name : string)
    (rgba : list num) :
  shape_color_ok a obj_name obj_name_out color_name rgba →
  ∃ rgb, (color_name, rgb) ∈ colors (properties_json a) ∧ rgba = rgba_of rgb.
Proof.
  intros [_ Hc]. destruct (shape_color_combos_json a).
  - destruct Hc as [_ Hget%dict_get_elem_of].
    by apply elem_of_color_name_to_rgba.
  - by apply elem_of_color_name_to_rgba.
Qed.

Lemma elem_of_object_mapping (name name_out : string) :
  (name, name_out) ∈ object_mapping a ↔
  (name_out, name) ∈ shapes (properties_json a).
Proof.
  unfold object_mapping. change (map ?f ?l) with (f <$> l).
  rewrite list_elem_of_fmap. split.
  - intros ([k v] & ? & ?). by simplify_eq.
  - intros Hin. by exists (name_out, name).
Qed.

Lemma elem_of_material_mapping (name name_out : string) :
  (name, name_out) ∈ material_mapping a ↔
  (name_out, name) ∈ materials (properties_json a).
Proof.
  unfold material_mapping. change (map ?f ?l) with (f <$> l).
  rewrite list_elem_of_fmap. split.
  - intros ([k v] & ? & ?). by simplify_eq.
  - intros Hin. by exists (name_out, name).
Qed.

(** *** A slot in full *)

Lemma sample_position_Some (fuel : nat) (num_tries : Z)
    (ps : list (num * num * num)) (r x y : num) (w w' : world num) :
  sample_position e a fuel num_tries ps r w = (Ok (Some (x, y)), w') →
  ∃ t, x = coordinate_draw e t ∧ y = coordinate_draw e (S t) ∧
       (draws w <= t)%nat ∧ draws w' = S (S t).
Proof.
  revert num_tries w. induction fuel as [|fuel IH]; intros num_tries w; [done|].
  cbn [sample_position].
  destruct (max_retries a <? num_tries + 1)%Z; [done|].
  rewrite (bind_Ok_run _ _ _ _ _ (random_uniform_run _ _ _ _)).
  rewrite (bind_Ok_run _ _ _ _ _ (random_uniform_run _ _ _ _)).
  destruct (dists_good a ps _ _ r) eqn:Hgood.
  - intros Heq. cbv [mret M_ret] in Heq. simplify_eq.
    exists (draws w). split_and!; [done..|lia|done].
  - intros (t & ? & ? & Ht & ?)%IH. exists t. cbn [draws next_draw] in Ht.
    split_and!; [done..|lia|done].
Qed.

Lemma place_object_Ok (size_name : string) (r x y : num) (L L' : locals num)
    (w w' : world num) :
  place_object e a size_name r x y L w = (Ok L', w') →
  ∃ obj_name obj_name_out color_name rgba t' mat_name mat_name_out,
    shape_color_ok a obj_name obj_name_out color_name rgba ∧
    (mat_name, mat_name_out) ∈ material_mapping a ∧
    (draws w <= t')%nat ∧
    let scale := adjust_size obj_name r in
    let location := object_location e obj_name scale (x, y) in
    let id := fresh_id (data_objects w) in
    L' = {| positions := positions L ++ [(x, y, scale)];
            objects := objects L ++
              [ {| shape := obj_name_out;
                   size := size_name;
                   material := mat_name_out;
                   coords_3d := location;
                   rotation := nmul (of_Z 360) (random_src e t');
                   pixel_coords :=
                     get_camera_coords e (camera_location w) location;
                   color := color_name |} ];
            blender_objects := blender_objects L ++
              [ {| ob_id := id; ob_location := location |} ] |} ∧
    camera_location w' = camera_location w ∧
    renders w' = renders w ∧
    trace w' = trace w ++
      [AddObject (path_join (output_dir a) (shape_dir a)) obj_name scale
                 (x, y) (nmul (of_Z 360) (random_src e t')) id;
       SetLayer id; AddMaterial mat_name rgba].
Proof.
  unfold place_object.
  intros ([[[on oo] cn] rg] & w1 & Hch & Hrun)%bind_Ok_inv.
  pose proof Hch as Hdraw.
  apply choose_shape_color_Ok in Hch as [Hok (Hd & Hc & Hr & Ht)].
  assert (draws w <= draws w1)%nat as Hle.
  { revert Hdraw. unfold choose_shape_color.
    destruct (shape_color_combos_json a) as [combos|].
    - intros ([out choices] & w2 & [_ ->]%random_choice_Ok & Hrun')%bind_Ok_inv.
      apply bind_Ok_inv in Hrun' as (c & w3 & [_ ->]%random_choice_Ok & Hrun').
      destruct (filter _ (object_mapping a)) as [|[k v] rest]; [done|].
      destruct (dict_get _ c); [|done].
      cbv [mret M_ret] in Hrun'. simplify_eq. cbn. lia.
    - intros ([name out] & w2 & [_ ->]%random_choice_Ok & Hrun')%bind_Ok_inv.
      apply bind_Ok_inv in Hrun' as ([c rg'] & w3 & [_ ->]%random_choice_Ok & Hrun').
      cbv [mret M_ret] in Hrun'. simplify_eq. cbn. lia. }
  rewrite (bind_Ok_run _ _ _ _ _ (random_random_run _ _)) in Hrun.
  rewrite (bind_Ok_run _ _ _ _ _ (add_object_run _ _ _ _ _ _ _)) in Hrun.
  unfold set_layer, add_material in Hrun.
  rewrite (bind_Ok_run _ _ _ _ _ (emit_run _ _)) in Hrun.
  apply bind_Ok_inv in Hrun as ([mn mo] & w2 & [Hm ->]%random_choice_Ok & Hrun).
  rewrite (bind_Ok_run _ _ _ _ _ (emit_run _ _)) in Hrun.
  cbv [mbind M_bind get_camera_location mret M_ret] in Hrun.
  injection Hrun as <- <-. cbn.
  exists on, oo, cn, rg, (draws w1), mn, mo.
  split_and!; [done..| | | |].
  - by rewrite Hd, Hc.
  - done.
  - done.
  - by rewrite Ht, Hd, <- !app_assoc.
Qed.

Lemma place_slots_steps (restart : M num (locals num)) (slots : nat)
    (L Lf : locals num) (w w' : world num) :
  place_slots e a restart slots L w = (Ok Lf, w') →
  nsteps (slot_step e a (camera_location w)) slots L Lf ∨
  ∃ w1, camera_location w1 = camera_location w ∧ restart w1 = (Ok Lf, w').
Proof.
  revert L w. induction slots as [|slots IH]; intros L w.
  - cbn [place_slots]. cbv [mret M_ret]. intros ?; simplify_eq.
    left. constructor.
  - cbn [place_slots].
    intros ([sn r] & w1 & [Hsize ->]%random_choice_Ok & Hrun)%bind_Ok_inv.
    apply bind_Ok_inv in Hrun as (pos & w2 & Hpos & Hrun).
    pose proof (sample_position_Ok _ _ _ _ _ _ _ _ _ Hpos)
      as [(_ & Hc2 & _ & _) Hgood].
    cbn [next_draw camera_location] in Hc2. destruct pos as [[x y]|].
    + apply sample_position_Some in Hpos as (t & -> & -> & _ & _).
      apply bind_Ok_inv in Hrun as (L' & w3 & Hplace & Hrun).
      apply place_object_Ok in Hplace
        as (on & oo & cn & rg & t' & mn & mo & Hok & Hm & _ & HL & Hc3 & _).
      cbn zeta in HL. rewrite Hc2 in HL.
      apply IH in Hrun. rewrite Hc3, Hc2 in Hrun.
      destruct Hrun as [Hsteps|Hrestart]; [left|by right].
      eapply nsteps_l; [|exact Hsteps].
      by eapply (slot_step_intro _ _ _ _ _ sn r t on oo cn rg t' _ mn mo).
    + destruct (delete_all_run (blender_objects L) w2)
        as (w3 & Hdel & _ & _ & Hc3 & _ & _).
      rewrite (bind_Ok_run _ _ _ _ _ Hdel) in Hrun.
      rewrite (bind_Ok_run _ _ _ _ _ (emit_run _ _)) in Hrun.
      right. eexists. split; [|exact Hrun]. cbn. by rewrite Hc3, Hc2.
Qed.

(** The lists of a call that returns were built by [num_objects] slots of
    its last attempt. *)
Lemma add_random_objects_locals_steps (fuel : nat) (num_objects : Z)
    (w w' : world num) (L : locals num) :
  add_random_objects_locals e a fuel num_objects w = (Ok L, w') →
  nsteps (slot_step e a (camera_location w)) (Z.to_nat num_objects)
         no_locals L.
Proof.
  revert w. induction fuel as [|fuel IH]; intros w; [done|].
  cbn [add_random_objects_locals].
  intros [?|(w1 & Hc & Hrun)]%place_slots_steps; [done|].
  rewrite <- Hc. by apply IH.
Qed.

(** A property of the three lists that every slot keeps holds of the lists
    a call returns. *)
Lemma slot_steps_invariant (cam : vec3 num) (P : locals num → Prop)
    (n : nat) (L L' : locals num) :
  (∀ L1 L2, slot_step e a cam L1 L2 → P L1 → P L2) →
  nsteps (slot_step e a cam) n L L' → P L → P L'.
Proof.
  intros Hstep. induction 1 as [|k L0 L1 L2 Hs _ IH]; [done|].
  intros HP. by eapply IH, Hstep.
Qed.

End CatalogueFacts.

Section RecordFacts.
Context {num : Type} `{NumOps num}.
Variable e : env num.
Variable a : args num.

(** X5. Every object a call returns is described with names of the
    catalogue: its shape, size, material and colour are keys of the four
    dictionaries of the properties file. *)
Theorem recorded_attributes (fuel : nat) (num_objects : Z)
    (w w' : world num) (objs : list (object num))
    (bobjs : list (blender_object num)) :
  add_random_objects e a fuel num_objects w = (Ok (objs, bobjs), w') →
  Forall (fun o =>
            (∃ asset, (shape o, asset) ∈ shapes (properties_json a)) ∧
            (∃ r, (size o, r) ∈ sizes (properties_json a)) ∧
            (∃ file, (material o, file) ∈ materials (properties_json a)) ∧
            (∃ rgb, (color o, rgb) ∈ colors (properties_json a))) objs.
Proof.
  intros (L & Hrun & -> & _)%add_random_objects_Ok.
  apply add_random_objects_locals_steps in Hrun.
  eapply (slot_steps_invariant e a _ (fun L => Forall _ (objects L)));
    [|exact Hrun|constructor].
  intros L1 L2 [sn r t on oo cn rg t' id mn mo Hsize _ Hok Hm ->] HP.
  cbn [slot_locals objects]. apply Forall_app. split; [done|].
  apply Forall_singleton. cbn [shape size material color].
  destruct (shape_color_ok_rgba a _ _ _ _ Hok) as (rgb & Hrgb & _).
  destruct Hok as [Hshape _].
  split_and!.
  - exists on. by apply elem_of_object_mapping.
  - by exists r.
  - exists mn. by apply elem_of_material_mapping.
  - by exists rgb.
Qed.

(** X6. The two lists a call returns are aligned: the coordinates recorded
    for the i-th object are the location of the i-th Blender object, and
    its pixel coordinates are those of that location for the camera as it
    stood when the function was called. *)
Theorem recorded_locations (fuel : nat) (num_objects : Z)
    (w w' : world num) (objs : list (object num))
    (bobjs : list (blender_object num)) :
  add_random_objects e a fuel num_objects w = (Ok (objs, bobjs), w') →
  Forall2 (fun o b =>
             coords_3d o = ob_location b ∧
             pixel_coords o =
               get_camera_coords e (camera_location w) (ob_location b))
          objs bobjs.
Proof.
  intros (L & Hrun & -> & ->)%add_random_objects_Ok.
  apply add_random_objects_locals_steps in Hrun.
  eapply (slot_steps_invariant e a _
            (fun L => Forall2 _ (objects L) (blender_objects L)));
    [|exact Hrun|constructor].
  intros L1 L2 [sn r t on oo cn rg t' id mn mo _ _ _ _ ->] HP.
  cbn [slot_locals objects blender_objects].
  apply Forall2_app; [done|]. by repeat constructor.
Qed.

(** *** What the calls into the scene graph are given *)

Lemma emits_bind_post {A B} (T : list (event num) → Prop) `{!TraceMonoid T}
    (F : exn → Prop) (m : M num A) (f : A → M num B) :
  emits T F m →
  (∀ x, (∃ w w1, m w = (Ok x, w1)) → emits T F (f x)) →
  emits T F (m ≫= f).
Proof.
  intros Hm Hf w w' r Hrun HF. unfold mbind, M_bind in Hrun.
  destruct (m w) as [[x|x|] w1] eqn:Hmw.
  - destruct (Hm _ _ _ Hmw) as (evs1 & Ht1 & HT1); [done|].
    destruct (Hf x (ex_intro _ w (ex_intro _ w1 Hmw)) _ _ _ Hrun HF)
      as (evs2 & Ht2 & HT2).
    exists (evs1 ++ evs2). split; [|by apply trace_app].
    by rewrite Ht2, Ht1, app_assoc.
  - injection Hrun as <- <-. apply (Hm _ _ _ Hmw). intros x0 [= <-]. by apply HF.
  - injection Hrun as <- <-. by apply (Hm _ _ _ Hmw).
Qed.

Lemma place_object_catalogue (size_name : string) (r x y : num)
    (L : locals num) :
  (size_name, r) ∈ size_mapping a →
  emits (Forall (catalogue_event a)) (fun _ => True)
        (place_object e a size_name r x y L).
Proof.
  intros Hsize w w' res Hrun _. revert Hrun. unfold place_object.
  unfold mbind at 1, M_bind at 1.
  destruct (choose_shape_color e a w) as [[[[[on oo] cn] rg]|ex|] w1] eqn:Hch.
  - apply choose_shape_color_Ok in Hch as [Hok (Hd & Hc & Hr & Ht)].
    destruct (shape_color_ok_rgba a _ _ _ _ Hok) as (rgb & Hrgb & ->).
    destruct Hok as [Hshape%elem_of_object_mapping _].
    assert (catalogue_event a
              (AddObject (path_join (output_dir a) (shape_dir a)) on
                 (adjust_size on r) (x, y)
                 (nmul (of_Z 360) (random_src e (draws w1)))
                 (fresh_id (data_objects w1)))) as Hadd.
    { split_and!; [done|by exists oo|by exists size_name, r]. }
    rewrite (bind_Ok_run _ _ _ _ _ (random_random_run _ _)).
    rewrite (bind_Ok_run _ _ _ _ _ (add_object_run _ _ _ _ _ _ _)).
    unfold set_layer, add_material.
    rewrite (bind_Ok_run _ _ _ _ _ (emit_run _ _)).
    unfold mbind at 1, M_bind at 1.
    destruct (random_choice e (material_mapping a) _)
      as [[[mn mo]|ex|] w2] eqn:Hm.
    + apply random_choice_Ok in Hm as [Hm%elem_of_material_mapping ->].
      rewrite (bind_Ok_run _ _ _ _ _ (emit_run _ _)).
      cbv [mbind M_bind get_camera_location mret M_ret].
      intros Heq. injection Heq as <- <-. cbn.
      eexists. rewrite Ht, <- !app_assoc. split; [done|].
      apply Forall_cons. split; [exact Hadd|].
      apply Forall_cons. split; [done|].
      apply Forall_singleton. split; [by exists mo|by exists cn, rgb].
    + apply random_choice_Raise in Hm as (_ & -> & ->).
      intros Heq. injection Heq as <- <-. cbn.
      eexists. rewrite Ht, <- !app_assoc. split; [done|].
      apply Forall_cons. split; [exact Hadd|]. by apply Forall_singleton.
    + by apply random_choice_fuel in Hm.
  - intros Heq. injection Heq as <- <-.
    apply choose_shape_color_Raise in Hch as (_ & _ & _ & Ht).
    exists []. by rewrite app_nil_r.
  - by apply choose_shape_color_fuel in Hch.
Qed.

Lemma place_slots_catalogue (restart : M num (locals num)) (slots : nat)
    (L : locals num) :
  emits (Forall (catalogue_event a)) (fun _ => True) restart →
  emits (Forall (catalogue_event a)) (fun _ => True)
        (place_slots e a restart slots L).
Proof.
  intros Hrestart. revert L.
  induction slots as [|slots IH]; intros L; cbn [place_slots].
  { apply (emits_ret _ _). }
  apply (emits_bind_post _ _); [apply (emits_random_choice _ _)|].
  intros [sn sz] (w & w1 & [Hsize _]%random_choice_Ok).
  apply (emits_bind _ _).
  { apply (emits_same_scene _ _). intros ? ? ?.
    apply sample_position_same_scene. }
  intros [[x y]|].
  - apply (emits_bind _ _); [by apply place_object_catalogue|].
    intros L'. apply IH.
  - apply (emits_bind _ _).
    { apply (emits_delete_all _ _). intros id. by repeat constructor. }
    intros _. apply (emits_bind _ _); [|by intros _].
    apply (emits_emit _ _). by repeat constructor.
Qed.

Lemma add_random_objects_locals_catalogue (fuel : nat) (num_objects : Z) :
  emits (Forall (catalogue_event a)) (fun _ => True)
        (add_random_objects_locals e a fuel num_objects).
Proof.
  induction fuel as [|fuel IH]; cbn [add_random_objects_locals].
  - apply (emits_out_of_fuel _ _).
  - by apply place_slots_catalogue.
Qed.


(** *** Edge cases of the options and of the catalogue *)

Lemma random_choice_nonempty {A} (l : list A) (w : world num) :
  l ≠ [] → ∃ x, random_choice e l w = (Ok x, next_draw w) ∧ x ∈ l.
Proof.
  intros Hl. unfold random_choice.
  destruct (l !! _) as [x|] eqn:Hx.
  - exists x. split; [done|]. by eapply list_elem_of_lookup_2.
  - apply lookup_ge_None in Hx. destruct l as [|y l]; [done|].
    pose proof (Nat.mod_upper_bound (randbelow_src e (draws w))
                  (length (y :: l))) as Hb.
    cbn [length] in *. lia.
Qed.

(** X8. A call for no object (a count that is zero or negative) returns two
    empty lists at once: it draws nothing and touches nothing, whatever
    the catalogue and the options are. *)
Theorem add_random_objects_no_slots (fuel : nat) (num_objects : Z)
    (w : world num) :
  (num_objects <= 0)%Z →
  add_random_objects e a (S fuel) num_objects w = (Ok ([], []), w).
Proof.
  intros Hn. unfold add_random_objects. cbn [add_random_objects_locals].
  replace (Z.to_nat num_objects) with 0%nat by lia. done.
Qed.

(** X9. With an empty size dictionary a call for at least one object raises
    [IndexError] at its first draw and leaves everything as it was. *)
Theorem add_random_objects_empty_sizes (fuel : nat) (num_objects : Z)
    (w : world num) :
  sizes (properties_json a) = [] → (1 <= num_objects)%Z →
  add_random_objects e a (S fuel) num_objects w =
  (Raise (IndexError "Cannot choose from an empty sequence"), w).
Proof.
  intros Hs Hn. unfold add_random_objects. cbn [add_random_objects_locals].
  destruct (Z.to_nat num_objects) as [|k] eqn:Hk; [lia|].
  cbn [place_slots]. unfold size_mapping. rewrite Hs. done.
Qed.

(** X10. With [max_retries] below 1 a call for at least one object never
    returns and never places anything: at each level it draws a size, gives
    up before drawing a position and calls itself again. *)
Theorem add_random_objects_no_retries (fuel : nat) (num_objects : Z)
    (w : world num) :
  (max_retries a <= 0)%Z → (1 <= num_objects)%Z →
  sizes (properties_json a) ≠ [] →
  ∃ w', add_random_objects e a fuel num_objects w = (OutOfFuel, w') ∧
        data_objects w' = data_objects w ∧
        draws w' = (draws w + fuel)%nat ∧
        trace w' = trace w ++
          replicate fuel (Call "add_random_objects" "add_random_objects").
Proof.
  intros Hmax Hn Hs.
  assert (Hloc : ∀ w, ∃ w',
    add_random_objects_locals e a fuel num_objects w = (OutOfFuel, w') ∧
    data_objects w' = data_objects w ∧
    draws w' = (draws w + fuel)%nat ∧
    trace w' = trace w ++
      replicate fuel (Call "add_random_objects" "add_random_objects")).
  { induction fuel as [|fuel IH]; intros w0.
    - exists w0. cbn. rewrite app_nil_r, Nat.add_0_r. done.
    - cbn [add_random_objects_locals].
      destruct (Z.to_nat num_objects) as [|k] eqn:Hk; [lia|].
      cbn [place_slots].
      destruct (random_choice_nonempty (size_mapping a) w0 Hs)
        as ([sn r] & Hsize & _).
      rewrite (bind_Ok_run _ _ _ _ _ Hsize). cbn beta iota.
      cbn [sample_position].
      destruct (max_retries a <? 0 + 1)%Z eqn:Hlt; [|apply Z.ltb_ge in Hlt; lia].
      cbv [mret M_ret]. unfold mbind at 1, M_bind at 1.
      cbn [blender_objects no_locals delete_all].
      cbv [mret M_ret]. unfold mbind at 1, M_bind at 1.
      rewrite (bind_Ok_run _ _ _ _ _ (emit_run _ _)).
      edestruct IH as (w' & -> & Hd & Hdr & Ht).
      exists w'. split; [done|]. cbn in Hd, Hdr, Ht.
      rewrite Hd, Hdr, Ht. split_and!; [done|lia|].
      by rewrite <- app_assoc. }
  destruct (Hloc w) as (w' & Hrun & ?). exists w'. split; [|done].
  unfold add_random_objects, mbind, M_bind. by rewrite Hrun.
Qed.

(** X11. With an empty material dictionary (and sizes, shapes and colours to
    choose from) a call for at least one object raises [IndexError] after
    it has added its first object: the object stays in the scene graph. *)
Theorem add_random_objects_empty_materials (fuel : nat) (num_objects : Z)
    (w : world num) :
  materials (properties_json a) = [] →
  sizes (properties_json a) ≠ [] →
  shapes (properties_json a) ≠ [] →
  colors (properties_json a) ≠ [] →
  shape_color_combos_json a = None →
  (1 <= max_retries a)%Z → (1 <= num_objects)%Z →
  ∃ w' dir name scale loc theta id,
    add_random_objects e a (S fuel) num_objects w =
      (Raise (IndexError "Cannot choose from an empty sequence"), w') ∧
    trace w' = trace w ++ [AddObject dir name scale loc theta id; SetLayer id] ∧
    data_objects w' =
      data_objects w ++
        [ {| ob_id := id; ob_location := object_location e name scale loc |} ].
Proof.
  intros Hm Hs Hsh Hc Hcombos Hmax Hn.
  assert (Hloc : ∃ w' dir name scale loc theta id,
    add_random_objects_locals e a (S fuel) num_objects w =
      (Raise (IndexError "Cannot choose from an empty sequence"), w') ∧
    trace w' = trace w ++ [AddObject dir name scale loc theta id; SetLayer id] ∧
    data_objects w' =
      data_objects w ++
        [ {| ob_id := id; ob_location := object_location e name scale loc |} ]).
  { cbn [add_random_objects_locals].
    destruct (Z.to_nat num_objects) as [|k] eqn:Hk; [lia|].
    cbn [place_slots].
    destruct (random_choice_nonempty (size_mapping a) w Hs)
      as ([sn r] & Hsize & _).
    rewrite (bind_Ok_run _ _ _ _ _ Hsize). cbn beta iota.
    rewrite (bind_Ok_run _ _ _ _ _
               (sample_position_first_try e a _ [] r _ Hmax eq_refl)).
    cbn beta iota. unfold place_object, choose_shape_color. rewrite Hcombos.
    assert (object_mapping a ≠ []) as Hom.
    { unfold object_mapping. by destruct (shapes (properties_json a)). }
    destruct (random_choice_nonempty (object_mapping a)
                (next_draw (next_draw (next_draw w))) Hom)
      as ([on oo] & Hshape & _).
    destruct (random_choice_nonempty (color_name_to_rgba a)
                (next_draw (next_draw (next_draw (next_draw w))))
                (color_name_to_rgba_not_nil a Hc))
      as ([cn rg] & Hcolor & _).
    unfold material_mapping. rewrite Hm.
    unfold mbind, M_bind. rewrite Hshape, Hcolor.
    eexists _, _, _, _, _, _, _. split; [reflexivity|]. cbn.
    split; [by rewrite <- app_assoc|done]. }
  destruct Hloc as (w' & dir & name & scale & loc & theta & id & Hrun & ?).
  exists w', dir, name, scale, loc, theta, id. split; [|done].
  unfold add_random_objects, mbind, M_bind. by rewrite Hrun.
Qed.

End RecordFacts.

(** The draws of a generator in the unit interval give coordinates in the
    square and rotations within one turn. *)
Lemma coordinate_draw_range (e : env R) (t : nat) :
  (0 <= random_src e t < 1)%R → (-3 <= coordinate_draw e t < 3)%R.
Proof. unfold coordinate_draw. cbn [nadd nmul nsub of_Z real_ops]. lra. Qed.

(** X12. When [random.random()] draws from the unit interval [0, 1), every
    placement a call records lies in the square [-3, 3) x [-3, 3) and every
    recorded rotation in [0, 360). *)
Theorem placements_in_range (e : env R) (a : args R) (fuel : nat)
    (num_objects : Z) (w w' : world R) (L : locals R) :
  (∀ t, (0 <= random_src e t < 1)%R) →
  add_random_objects_locals e a fuel num_objects w = (Ok L, w') →
  Forall (fun p => (-3 <= fst (fst p) < 3)%R ∧ (-3 <= snd (fst p) < 3)%R)
         (positions L) ∧
  Forall (fun o => (0 <= rotation o < 360)%R) (objects L).
Proof.
  intros Hu Hrun. apply add_random_objects_locals_steps in Hrun.
  eapply (slot_steps_invariant e a _
            (fun L => Forall _ (positions L) ∧ Forall _ (objects L)));
    [|exact Hrun|split; constructor].
  intros L1 L2 [sn r t on oo cn rg t' id mn mo _ _ _ _ ->] [Hp Ho].
  cbn [slot_locals positions objects]. split.
  - apply Forall_app. split; [done|]. apply Forall_singleton. cbn [fst snd].
    split; by apply coordinate_draw_range.
  - apply Forall_app. split; [done|]. apply Forall_singleton.
    cbn [rotation nmul of_Z real_ops]. specialize (Hu t'). lra.
Qed.

Lemma recorded_attributes_witness :
  ∃ objs bobjs w',
    add_random_objects cogent_env cogent_args 1 2 (loaded_world cogent_env)
      = (Ok (objs, bobjs), w') ∧
    Forall (fun o =>
              (∃ asset, (shape o, asset) ∈ shapes (properties_json cogent_args)) ∧
              (∃ r, (size o, r) ∈ sizes (properties_json cogent_args)) ∧
              (∃ file, (material o, file)
                         ∈ materials (properties_json cogent_args)) ∧
              (∃ rgb, (color o, rgb) ∈ colors (properties_json cogent_args)))
           objs.
Proof.
  eexists _, _, _. split; [vm_compute; reflexivity|].
  eapply (recorded_attributes cogent_env cogent_args 1 2
            (loaded_world cogent_env)).
  vm_compute. reflexivity.
Defined.

Lemma recorded_locations_witness :
  ∃ objs bobjs w',
    add_random_objects cogent_env cogent_args 1 2 (loaded_world cogent_env)
      = (Ok (objs, bobjs), w') ∧
    Forall2 (fun o b =>
               coords_3d o = ob_location b ∧
               pixel_coords o =
                 get_camera_coords cogent_env
                   (camera_location (loaded_world cogent_env)) (ob_location b))
            objs bobjs.
Proof.
  eexists _, _, _. split; [vm_compute; reflexivity|].
  eapply (recorded_locations cogent_env cogent_args 1 2
            (loaded_world cogent_env)).
  vm_compute. reflexivity.
Defined.


Lemma add_random_objects_no_slots_witness :
  add_random_objects steady_env sizeless_args 1 (-2) (loaded_world steady_env)
  = (Ok ([], []), loaded_world steady_env).
Proof.
  apply (add_random_objects_no_slots steady_env sizeless_args 0 (-2)). lia.
Defined.

Lemma add_random_objects_empty_sizes_witness :
  add_random_objects steady_env sizeless_args 1 3 (loaded_world steady_env)
  = (Raise (IndexError "Cannot choose from an empty sequence"),
     loaded_world steady_env).
Proof.
  apply (add_random_objects_empty_sizes steady_env sizeless_args 0 3);
    [reflexivity|lia].
Defined.

Lemma add_random_objects_no_retries_witness :
  ∃ w',
    add_random_objects steady_env hasty_args 3 2 (loaded_world steady_env)
      = (OutOfFuel, w') ∧
    data_objects w' = data_objects (loaded_world steady_env) ∧
    draws w' = (draws (loaded_world steady_env) + 3)%nat ∧
    trace w' = trace (loaded_world steady_env) ++
      replicate 3 (Call "add_random_objects" "add_random_objects").
Proof.
  apply (add_random_objects_no_retries steady_env hasty_args 3 2
           (loaded_world steady_env)).
  - simpl. lia.
  - lia.
  - simpl. discriminate.
Defined.

Lemma add_random_objects_empty_materials_witness :
  ∃ w' dir name scale loc theta id,
    add_random_objects steady_env bare_args 1 2 (loaded_world steady_env) =
      (Raise (IndexError "Cannot choose from an empty sequence"), w') ∧
    trace w' = trace (loaded_world steady_env)
               ++ [AddObject dir name scale loc theta id; SetLayer id] ∧
    data_objects w' =
      data_objects (loaded_world steady_env) ++
        [ {| ob_id := id;
             ob_location := object_location steady_env name scale loc |} ].
Proof.
  apply (add_random_objects_empty_materials steady_env bare_args 0 2
           (loaded_world steady_env)).
  - reflexivity.
  - simpl. discriminate.
  - simpl. discriminate.
  - simpl. discriminate.
  - reflexivity.
  - simpl. lia.
  - lia.
Defined.

Lemma second_at_unit (u : R) (t : nat) :
  (0 <= u < 1)%R → (0 <= second_at u t < 1)%R.
Proof. intros Hu. unfold second_at. destruct (t =? 8)%nat; lra. Qed.

Lemma placements_in_range_witness :
  ∃ L : locals R,
    positions L = [(origin_x, origin_x, (7 / 10 / sqrt 2)%R);
                   (second_x (5 / 6), origin_x, (7 / 10 / sqrt 2)%R)] ∧
    Forall (fun p => (-3 <= fst (fst p) < 3)%R ∧ (-3 <= snd (fst p) < 3)%R)
           (positions L) ∧
    Forall (fun o => (0 <= rotation o < 360)%R) (objects L).
Proof.
  destruct (cube_run (7 / 10) (1 / 4) (5 / 6) cube_far_accepted)
    as (L & w' & Hrun & Hpos).
  exists L. split; [exact Hpos|].
  apply (placements_in_range (cube_env (5 / 6)) (cube_args (7 / 10) (1 / 4))
           1 2 (loaded_world (cube_env (5 / 6))) w' L); [|exact Hrun].
  intros t. apply second_at_unit. lra.
Defined.

(** ** The camera loop: poses, frames and phases *)

Section LoopFacts.
Context {num : Type} `{NumOps num}.

(** A property of the processed prefix, the loop variables and the state
    that each completed pass extends holds after a loop that completes. *)
Lemma for_each_Ok_prefix {A St} (I : list A → St → world num → Prop)
    (l : list A) (body : A → St → M num St) (s s' : St) (w w' : world num) :
  I [] s w →
  (∀ pre x s1 s2 w1 w2,
      I pre s1 w1 → body x s1 w1 = (Ok s2, w2) → I (pre ++ [x]) s2 w2) →
  for_each l body s w = (Ok s', w') → I l s' w'.
Proof.
  intros Hinit Hstep.
  assert (Hgen : ∀ l pre s w, I pre s w →
            for_each l body s w = (Ok s', w') → I (pre ++ l) s' w').
  { clear l s w Hinit. induction l as [|x l IH]; intros pre s w HI;
      cbn [for_each].
    - cbv [mret M_ret]. intros ?; simplify_eq. by rewrite app_nil_r.
    - intros (s1 & w1 & Hbody & Hrest)%bind_Ok_inv.
      rewrite (cons_middle x pre l), app_assoc.
      eapply IH; [|exact Hrest]. by eapply Hstep. }
  apply (Hgen l [] s w Hinit).
Qed.

(** A loop over a list that is not empty ends in what every pass
    establishes. *)
Lemma for_each_Ok_last {A St} (P Q : St → world num → Prop)
    (l : list A) (body : A → St → M num St) (s s' : St) (w w' : world num) :
  l ≠ [] →
  (∀ x s1 s2 w1 w2,
      P s1 w1 ∨ Q s1 w1 → body x s1 w1 = (Ok s2, w2) → Q s2 w2) →
  P s w ∨ Q s w →
  for_each l body s w = (Ok s', w') → Q s' w'.
Proof.
  intros Hl Hstep Hinit Hrun.
  eapply (for_each_Ok_prefix
            (fun pre s w => (pre = [] → P s w ∨ Q s w) ∧ (pre ≠ [] → Q s w)))
    in Hrun as [_ HQ]; [by apply HQ|done|].
  intros pre x s1 s2 w1 w2 [H0 H1] Hbody. split.
  - intros [_ [=]]%app_eq_nil.
  - intros _. eapply Hstep; [|exact Hbody].
    destruct pre; [by apply H0|right; by apply H1].
Qed.

(** A loop whose passes never complete does not complete, unless it has
    nothing to do. *)
Lemma for_each_never_Ok {A St} (l : list A) (body : A → St → M num St)
    (s : St) (w w' : world num) (r : outcome St) :
  l ≠ [] →
  (∀ x s1 w1 w2 r1, body x s1 w1 = (r1, w2) → returned r1 = false) →
  for_each l body s w = (r, w') → returned r = false.
Proof.
  intros Hl Hbody. destruct l as [|x l]; [done|]. cbn [for_each].
  unfold mbind, M_bind. destruct (body x s w) as [r1 w1] eqn:Hb.
  apply Hbody in Hb. destruct r1; [done|..]; by intros ?; simplify_eq.
Qed.

Lemma keeps_camera_ret {A} (x : A) : keeps_camera (mret x : M num A).
Proof. intros w w' r Hrun. cbv [mret M_ret] in Hrun. by simplify_eq. Qed.

Lemma keeps_camera_bind {A B} (m : M num A) (f : A → M num B) :
  keeps_camera m → (∀ x, keeps_camera (f x)) → keeps_camera (m ≫= f).
Proof.
  intros Hm Hf w w' r Hrun. unfold mbind, M_bind in Hrun.
  destruct (m w) as [[x|x|] w1] eqn:Hmw.
  - rewrite (Hf _ _ _ _ Hrun). by eapply Hm.
  - simplify_eq. by eapply Hm.
  - simplify_eq. by eapply Hm.
Qed.

Lemma keeps_camera_same_scene {A} (m : M num A) :
  (∀ w w' r, m w = (r, w') → same_scene w w') → keeps_camera m.
Proof. intros Hm w w' r Hrun. by apply Hm in Hrun as (_ & ? & _). Qed.

Lemma keeps_camera_emit (ev : event num) : keeps_camera (emit ev).
Proof. intros w w' r Hrun. rewrite emit_run in Hrun. by simplify_eq. Qed.

Lemma keeps_camera_out_of_fuel {A} : keeps_camera (out_of_fuel : M num A).
Proof. intros w w' r Hrun. cbv [out_of_fuel] in Hrun. by simplify_eq. Qed.

Variable e : env num.
Variable a : args num.

Lemma keeps_camera_random_choice {A} (l : list A) :
  keeps_camera (random_choice e l).
Proof. apply keeps_camera_same_scene, random_choice_same_scene. Qed.

Lemma choose_shape_color_same_scene (w w' : world num)
    (r : outcome (string * string * string * list num)) :
  choose_shape_color e a w = (r, w') → same_scene w w'.
Proof.
  destruct r as [[[[on oo] cn] rg]|x|].
  - by intros [_ ?]%choose_shape_color_Ok.
  - apply choose_shape_color_Raise.
  - by intros ?%choose_shape_color_fuel.
Qed.

Lemma keeps_camera_place_object (size_name : string) (r x y : num)
    (L : locals num) :
  keeps_camera (place_object e a size_name r x y L).
Proof.
  unfold place_object. apply keeps_camera_bind.
  { apply keeps_camera_same_scene, choose_shape_color_same_scene. }
  intros [[[on oo] cn] rg]. apply keeps_camera_bind.
  { intros w w' r0 Hrun. rewrite random_random_run in Hrun. by simplify_eq. }
  intros u. apply keeps_camera_bind.
  { intros w w' r0 Hrun. rewrite add_object_run in Hrun. by simplify_eq. }
  intros obj. apply keeps_camera_bind; [apply keeps_camera_emit|]. intros _.
  apply keeps_camera_bind; [apply keeps_camera_random_choice|].
  intros [mn mo]. apply keeps_camera_bind; [apply keeps_camera_emit|].
  intros _. apply keeps_camera_bind; [|intros cam; apply keeps_camera_ret].
  intros w w' r0 Hrun. cbv [get_camera_location] in Hrun. by simplify_eq.
Qed.

Lemma keeps_camera_place_slots (restart : M num (locals num)) (slots : nat)
    (L : locals num) :
  keeps_camera restart → keeps_camera (place_slots e a restart slots L).
Proof.
  intros Hrestart. revert L.
  induction slots as [|slots IH]; intros L; cbn [place_slots].
  { apply keeps_camera_ret. }
  apply keeps_camera_bind; [apply keeps_camera_random_choice|].
  intros [sn sz]. apply keeps_camera_bind.
  { apply keeps_camera_same_scene. intros ? ? ?.
    apply sample_position_same_scene. }
  intros [[x y]|].
  - apply keeps_camera_bind; [apply keeps_camera_place_object|].
    intros L'. apply IH.
  - apply keeps_camera_bind.
    { intros w w' r Hrun.
      destruct (delete_all_run (blender_objects L) w)
        as (w1 & Hw1 & _ & _ & Hc & _).
      rewrite Hw1 in Hrun. by simplify_eq. }
    intros _. apply keeps_camera_bind; [apply keeps_camera_emit|].
    by intros _.
Qed.

(** [add_random_objects] never moves the camera. *)
Lemma keeps_camera_add_random_objects (fuel : nat) (num_objects : Z) :
  keeps_camera (add_random_objects e a fuel num_objects).
Proof.
  unfold add_random_objects.
  apply keeps_camera_bind; [|intros L; apply keeps_camera_ret].
  induction fuel as [|fuel IH]; cbn [add_random_objects_locals].
  - apply keeps_camera_out_of_fuel.
  - by apply keeps_camera_place_slots.
Qed.

End LoopFacts.

Section FrameExact.
Context {num : Type} `{NumOps num} `{TrigOps num}.
Variable e : env num.
Variable a : args num.

Lemma set_camera_Ok (axis : nat) (value : num) (w : world num) :
  ∃ w1, set_camera axis value w = (Ok tt, w1) ∧
    camera_location w1 =
      match axis with
      | 0%nat =>
          (value, snd (fst (camera_location w)), snd (camera_location w))
      | 1%nat =>
          (fst (fst (camera_location w)), value, snd (camera_location w))
      | _ =>
          (fst (fst (camera_location w)), snd (fst (camera_location w)), value)
      end ∧
    data_objects w1 = data_objects w ∧
    draws w1 = draws w ∧ renders w1 = renders w ∧
    trace w1 = trace w ++ [MoveCamera axis value].
Proof.
  unfold set_camera. destruct (camera_location w) as [[c0 c1] c2].
  rewrite emit_run. eexists. split; [done|]. cbn. by destruct axis as [|[|]].
Qed.

Lemma render_run (file_index : Z) (w : world num) :
  render e file_index w =
  (Ok (render_raises e (renders w)),
   {| draws := draws w; renders := S (renders w);
      data_objects := data_objects w;
      camera_location := camera_location w;
      trace := trace w ++ [Render file_index (render_raises e (renders w))] |}).
Proof. done. Qed.

(** The record of a render that succeeds, after any number of failures. *)
Lemma render_frame_Ok (fuel : nat) (file_index : Z) (stepsize : num)
    (w w' : world num) (fr : frame num) :
  render_frame e fuel file_index stepsize w = (Ok fr, w') →
  fr = {| file_path := file_index;
          frame_rotation := radians stepsize;
          transform_matrix := matrix_world e (camera_location w) |} ∧
  camera_location w' = camera_location w ∧
  data_objects w' = data_objects w.
Proof.
  revert w. induction fuel as [|fuel IH]; intros w; [done|].
  cbn [render_frame]. rewrite (bind_Ok_run _ _ _ _ _ (render_run _ _)).
  destruct (render_raises e (renders w)).
  - intros Hrun%IH. exact Hrun.
  - cbv [mbind M_bind get_camera_location mret M_ret].
    intros ?; by simplify_eq.
Qed.

Lemma camera_shot_Ok (fuel : nat) (num_objects : Z) (stepsize : num)
    (j i : Z) (st st' : render_result num) (w w' : world num) :
  camera_shot e a fuel num_objects stepsize j i st w = (Ok st', w') →
  frames st' = frames st ++
    [ {| file_path := (num_cams a / num_heights * j + i)%Z;
         frame_rotation := radians stepsize;
         transform_matrix :=
           matrix_world e
             (nmul (nmul (of_Z 10) (ncos (shot_azimuth a i)))
                   (nsin (tier_phi j)),
              nmul (nmul (of_Z 10) (nsin (shot_azimuth a i)))
                   (nsin (tier_phi j)),
              snd (camera_location w)) |} ] ∧
  snd (camera_location w') = snd (camera_location w).
Proof.
  unfold camera_shot.
  destruct (set_camera_Ok 0 (nmul (nmul (of_Z 10) (ncos (shot_azimuth a i)))
                                  (nsin (tier_phi j))) w)
    as (w1 & Hw1 & Hc1 & _).
  rewrite (bind_Ok_run _ _ _ _ _ Hw1).
  destruct (set_camera_Ok 1 (nmul (nmul (of_Z 10) (nsin (shot_azimuth a i)))
                                  (nsin (tier_phi j))) w1)
    as (w2 & Hw2 & Hc2 & _).
  rewrite (bind_Ok_run _ _ _ _ _ Hw2).
  rewrite Hc1 in Hc2. cbn [fst snd] in Hc2.
  unfold mbind at 1, M_bind at 1, len_data_objects.
  intros (objs & w3 & Hgate & Hrun)%bind_Ok_inv.
  assert (camera_location w3 = camera_location w2) as Hc3.
  { destruct (length (data_objects w2) =? 7)%nat.
    - rewrite (bind_Ok_run _ _ _ _ _ (emit_run _ _)) in Hgate.
      apply bind_Ok_inv in Hgate as (res & w4 & Hcall & Hret).
      cbv [mret M_ret] in Hret. simplify_eq.
      by apply keeps_camera_add_random_objects in Hcall.
    - cbv [mret M_ret] in Hgate. by simplify_eq. }
  apply bind_Ok_inv in Hrun as (fr & w4 & (-> & Hc4 & _)%render_frame_Ok & Hret).
  cbv [mret M_ret] in Hret. simplify_eq. cbn [frames].
  rewrite Hc4, Hc3, Hc2. done.
Qed.

Lemma camera_tier_Ok (fuel : nat) (num_objects : Z) (j : Z)
    (st st' : render_result num) (w w' : world num) :
  camera_tier e a fuel num_objects
    (nmul (ndiv (of_Z 360) (of_Z (num_cams a))) (of_Z num_heights)) j st w
    = (Ok st', w') →
  frames st' = frames st ++ tier_frames e a j.
Proof.
  unfold camera_tier.
  destruct (set_camera_Ok 2 (nmul (of_Z 10) (ncos (tier_phi j))) w)
    as (w1 & Hw1 & Hc1 & _).
  rewrite (bind_Ok_run _ _ _ _ _ Hw1). intros Hrun.
  eapply (for_each_Ok_prefix
            (fun pre s w0 =>
               frames s = frames st ++ map (frame_of e a j) pre ∧
               snd (camera_location w0) = nmul (of_Z 10) (ncos (tier_phi j))))
    in Hrun as [Hfr _]; [done| |].
  - split; [by rewrite app_nil_r|]. by rewrite Hc1.
  - intros pre i s1 s2 w2 w3 [Hfr Hz] [Hshot Hz']%camera_shot_Ok.
    split; [|congruence].
    rewrite Hshot, Hfr, map_app, <- app_assoc, Hz. done.
Qed.

(** The index of the file written for each frame. *)
Lemma all_frames_file_path :
  map file_path (all_frames e a) = seqZ 0 (num_heights * (num_cams a / num_heights)).
Proof.
  unfold all_frames, tier_frames. set (q := (num_cams a / num_heights)%Z).
  assert (Htier : ∀ j, map file_path (map (frame_of e a j) (seqZ 0 q))
                       = seqZ (q * j) q).
  { intros j. rewrite map_map. cbn [frame_of file_path]. fold q.
    replace (seqZ (q * j) q) with (seqZ (q * j + 0) q) by (f_equal; lia).
    by rewrite <- fmap_add_seqZ. }
  assert (Hgen : ∀ k : nat,
    map file_path
      (concat (map (fun j => map (frame_of e a j) (seqZ 0 q))
                   (seqZ 0 (Z.of_nat k))))
    = seqZ 0 (Z.of_nat k * q)).
  { induction k as [|k IH]; [done|].
    rewrite seqZ_S, map_app, concat_app, map_app, IH.
    cbn [map concat]. rewrite app_nil_r, Htier, Z.add_0_l.
    destruct (decide (0 <= q)%Z) as [Hq|Hq].
    - replace (Z.of_nat (S k) * q)%Z with (Z.of_nat k * q + q)%Z by lia.
      rewrite seqZ_app by lia. by rewrite Z.add_0_l, (Z.mul_comm q).
    - rewrite !seqZ_nil by nia. done. }
  exact (Hgen 8%nat).
Qed.

(** X13. The frames of a call that returns are the shots of the eight tiers
    in order, each with [num_cams // 8] shots: the frame of shot [i] of
    tier [j] has the file index [num_cams // 8 * j + i], the rotation
    [radians(360 / num_cams * 8)] and the matrix of the camera at the point
    [camera_pose j i].  The file indices run from 0 without a gap. *)
Theorem render_scene_frames_exact (fuel : nat) (num_objects : Z)
    (output_blendfile : option string) (w w' : world num)
    (res : render_result num) :
  render_scene e a fuel num_objects output_blendfile w = (Ok res, w') →
  frames res = all_frames e a ∧
  map file_path (frames res) = seqZ 0 (8 * (num_cams a / 8)).
Proof.
  intros Hrun.
  assert (frames res = all_frames e a) as Hfr.
  { revert Hrun. unfold render_scene.
    intros (_ & w1 & _ & Hrun)%bind_Ok_inv.
    apply bind_Ok_inv in Hrun as (_ & w2 & _ & Hrun).
    apply bind_Ok_inv in Hrun as (_ & w3 & _ & Hrun).
    apply bind_Ok_inv in Hrun as (_ & w4 & _ & Hrun).
    apply bind_Ok_inv in Hrun as (_ & w5 & _ & Hrun).
    destruct (num_cams a =? 0)%Z; [done|].
    apply bind_Ok_inv in Hrun as (st & w6 & Hloop & Hrun).
    apply bind_Ok_inv in Hrun as (_ & w7 & _ & Hrun).
    apply bind_Ok_inv in Hrun as (_ & w8 & _ & Hrun).
    cbv [mret M_ret] in Hrun. simplify_eq.
    eapply (for_each_Ok_prefix
              (fun pre s _ => frames s = concat (map (tier_frames e a) pre)))
      in Hloop; [done|done|].
    intros pre j s1 s2 w9 w10 Hpre Htier%camera_tier_Ok.
    rewrite Htier, Hpre, map_app, concat_app. cbn [map concat].
    by rewrite app_nil_r. }
  split; [done|]. rewrite Hfr. apply all_frames_file_path.
Qed.

End FrameExact.

(** The poses over the reals: on the sphere of radius 10 about the origin
    and above the ground plane. *)
Lemma tier_phi_range (j : Z) :
  (0 <= j < 8)%Z → (0 < tier_phi j < PI / 2)%R.
Proof.
  intros Hj. unfold tier_phi, num_heights.
  cbn [nmul ndiv of_Z real_ops npi real_trig].
  assert (1 <= IZR (j + 1) <= 8)%R as Hr.
  { split; apply IZR_le; lia. }
  pose proof PI_RGT_0 as Hpi. split; [apply Rmult_lt_0_compat; lra|].
  apply Rle_lt_trans with (PI * 3 / 10 / 8 * 8)%R; [|lra].
  apply Rmult_le_compat_l; lra.
Qed.

Lemma camera_pose_sphere (a : args R) (j i : Z) :
  let '(x, y, z) := camera_pose a j i in
  (x * x + y * y + z * z = 100)%R.
Proof.
  unfold camera_pose. cbn [nmul of_Z real_ops ncos nsin real_trig].
  pose proof (sin2_cos2 (shot_azimuth a i)) as Ha.
  pose proof (sin2_cos2 (tier_phi j)) as Hp.
  unfold Rsqr in Ha, Hp. nra.
Qed.

(** X14. Every frame of a call that returns was taken with the camera on
    the sphere of radius 10 about the origin, strictly above the ground
    plane. *)
Theorem render_scene_camera_on_sphere (e : env R) (a : args R) (fuel : nat)
    (num_objects : Z) (output_blendfile : option string) (w w' : world R)
    (res : render_result R) :
  render_scene e a fuel num_objects output_blendfile w = (Ok res, w') →
  Forall (fun fr =>
            ∃ x y z : R,
              transform_matrix fr = matrix_world e (x, y, z) ∧
              (x * x + y * y + z * z = 100)%R ∧ (0 < z)%R)
         (frames res).
Proof.
  intros [-> _]%render_scene_frames_exact.
  unfold all_frames. apply Forall_concat, Forall_forall.
  intros fs Hfs. change (map ?f ?l) with (f <$> l) in Hfs.
  apply list_elem_of_fmap in Hfs as (j & -> & Hj%elem_of_seqZ).
  unfold tier_frames. apply Forall_forall. intros fr Hfr.
  change (map ?f ?l) with (f <$> l) in Hfr.
  apply list_elem_of_fmap in Hfr as (i & -> & _).
  pose proof (camera_pose_sphere a j i) as Hs.
  destruct (camera_pose a j i) as [[x y] z] eqn:Hpose.
  exists x, y, z. split_and!; [by rewrite <- Hpose|done|].
  unfold camera_pose in Hpose. simplify_eq.
  cbn [nmul of_Z real_ops ncos real_trig].
  unfold num_heights in Hj.
  destruct (tier_phi_range j ltac:(lia)) as [Hlo Hhi].
  pose proof (cos_gt_0 (tier_phi j)) as Hcos.
  pose proof PI_RGT_0. apply Rmult_lt_0_compat; [lra|]. apply Hcos; lra.
Qed.

Section PhaseFacts.
Context {num : Type} `{NumOps num} `{TrigOps num}.
Variable e : env num.
Variable a : args num.

Lemma jitter_lamp_run (lamp : string) (L : num) (w : world num) :
  ∃ w1, jitter_lamp e lamp L w = (Ok tt, w1) ∧
    draws w1 = (draws w + lamp_draws L)%nat ∧
    renders w1 = renders w ∧
    data_objects w1 = data_objects w ∧
    camera_location w1 = camera_location w ∧
    trace w1 = trace w ++ lamp_moves e lamp L (draws w).
Proof.
  unfold jitter_lamp, lamp_moves, lamp_draws.
  destruct (nltb (of_Z 0) L).
  - eexists. split; [reflexivity|]. cbn.
    split_and!; [lia|done..|by rewrite <- !app_assoc].
  - exists w. cbn. rewrite app_nil_r, Nat.add_0_r. done.
Qed.

Lemma open_mainfile_run (w : world num) :
  open_mainfile e w =
  (Ok tt, {| draws := draws w; renders := renders w;
             data_objects := base_scene e;
             camera_location := base_camera_location e;
             trace := trace w ++ [OpenMainfile] |}).
Proof. done. Qed.

(** The start of [render_scene]: the base scene is loaded and the lamps are
    moved. *)
Lemma render_scene_prelude (fuel : nat) (num_objects : Z)
    (output_blendfile : option string) (w : world num) :
  ∃ w5,
    render_scene e a fuel num_objects output_blendfile w =
      render_scene_tail e a fuel num_objects output_blendfile w5 ∧
    data_objects w5 = base_scene e ∧
    camera_location w5 = base_camera_location e ∧
    renders w5 = renders w ∧
    draws w5 = (draws w + lamp_draws (key_light_jitter a)
                + lamp_draws (back_light_jitter a)
                + lamp_draws (fill_light_jitter a))%nat ∧
    trace w5 = trace w ++ [OpenMainfile; LoadMaterials]
                       ++ all_lamp_moves e a (draws w).
Proof.
  unfold render_scene.
  rewrite (bind_Ok_run _ _ _ _ _ (open_mainfile_run _)).
  rewrite (bind_Ok_run _ _ _ _ _ (emit_run _ _)).
  cbn [draws renders data_objects camera_location trace].
  match goal with |- context [mbind _ _ ?w0] =>
    destruct (jitter_lamp_run "Lamp_Key" (key_light_jitter a) w0)
      as (w3 & Hw3 & Hd3 & Hr3 & Ho3 & Hc3 & Ht3) end.
  rewrite (bind_Ok_run _ _ _ _ _ Hw3).
  destruct (jitter_lamp_run "Lamp_Back" (back_light_jitter a) w3)
    as (w4 & Hw4 & Hd4 & Hr4 & Ho4 & Hc4 & Ht4).
  rewrite (bind_Ok_run _ _ _ _ _ Hw4).
  destruct (jitter_lamp_run "Lamp_Fill" (fill_light_jitter a) w4)
    as (w5 & Hw5 & Hd5 & Hr5 & Ho5 & Hc5 & Ht5).
  rewrite (bind_Ok_run _ _ _ _ _ Hw5).
  exists w5. split; [reflexivity|].
  cbn [draws renders data_objects camera_location trace] in *.
  rewrite Ho5, Ho4, Ho3, Hc5, Hc4, Hc3, Hr5, Hr4, Hr3, Hd5, Hd4, Hd3.
  split_and!; [done..|].
  rewrite Ht5, Ht4, Ht3, Hd4, Hd3. unfold all_lamp_moves.
  by rewrite <- !app_assoc.
Qed.

Section LoopEmits.
Context (T : list (event num) → Prop) `{!TraceMonoid T} (F : exn → Prop).
Hypothesis T_camera : ∀ axis value, T [MoveCamera axis value].
Hypothesis T_render : ∀ file_index raised, T [Render file_index raised].
Hypothesis T_slot : ∀ evs, slot_events evs → T evs.
Hypothesis T_broken : ∀ evs, broken_slot_events evs → T evs.
Hypothesis T_delete : ∀ id, T [DeleteObject id].
Hypothesis T_restart : T [Call "add_random_objects" "add_random_objects"].
Hypothesis T_top : T [Call "render_scene" "add_random_objects"].

Lemma loop_emits_set_camera (axis : nat) (value : num) :
  emits T F (set_camera axis value).
Proof.
  intros w w' r Hrun _.
  destruct (set_camera_Ok axis value w) as (w1 & Hw1 & _ & _ & _ & _ & Ht).
  rewrite Hw1 in Hrun. simplify_eq. eexists. split; [done|]. apply T_camera.
Qed.

Lemma loop_emits_render_frame (fuel : nat) (file_index : Z) (stepsize : num) :
  emits T F (render_frame e fuel file_index stepsize).
Proof.
  induction fuel as [|fuel IH]; cbn [render_frame].
  - apply (emits_out_of_fuel T F).
  - apply (emits_bind T F).
    + intros w w' r Hrun _. rewrite render_run in Hrun. simplify_eq.
      eexists. split; [done|]. apply T_render.
    + intros [|]; [exact IH|].
      apply (emits_bind T F); [|intros cam; apply (emits_ret T F)].
      apply (emits_same_scene T F). intros w w' r Hrun.
      cbv [get_camera_location] in Hrun. by simplify_eq.
Qed.

Lemma loop_emits_camera_shot (fuel : nat) (num_objects : Z) (stepsize : num)
    (j i : Z) (st : render_result num) :
  emits T F (camera_shot e a fuel num_objects stepsize j i st).
Proof.
  unfold camera_shot.
  apply (emits_bind T F); [apply loop_emits_set_camera|]. intros _.
  apply (emits_bind T F); [apply loop_emits_set_camera|]. intros _.
  apply (emits_bind T F).
  { apply (emits_same_scene T F). intros w w' r Hrun.
    cbv [len_data_objects] in Hrun. by simplify_eq. }
  intros k. apply (emits_bind T F).
  { destruct (k =? 7)%nat; [|apply (emits_ret T F)].
    apply (emits_bind T F); [apply (emits_emit T F), T_top|].
    intros _. apply (emits_bind T F); [|intros res; apply (emits_ret T F)].
    unfold add_random_objects.
    apply (emits_bind T F); [|intros L; apply (emits_ret T F)].
    apply (emits_add_random_objects_locals T F); auto. }
  intros objs. apply (emits_bind T F); [apply loop_emits_render_frame|].
  intros fr. apply (emits_ret T F).
Qed.

Lemma loop_emits_camera_loop (fuel : nat) (num_objects : Z) (stepsize : num)
    (st : render_result num) :
  emits T F (for_each (seqZ 0 num_heights)
               (camera_tier e a fuel num_objects stepsize) st).
Proof.
  apply (emits_for_each T F). intros j st'. unfold camera_tier.
  apply (emits_bind T F); [apply loop_emits_set_camera|]. intros _.
  apply (emits_for_each T F). intros i st''. apply loop_emits_camera_shot.
Qed.

End LoopEmits.

Lemma camera_loop_events (fuel : nat) (num_objects : Z) (stepsize : num)
    (st : render_result num) :
  emits (Forall loop_event) (fun _ => True)
        (for_each (seqZ 0 num_heights)
           (camera_tier e a fuel num_objects stepsize) st).
Proof.
  apply (loop_emits_camera_loop (Forall loop_event) (fun _ => True)).
  - intros. by apply Forall_singleton.
  - intros. by apply Forall_singleton.
  - intros evs (? & ? & ? & ? & ? & ? & ? & ? & ->). by repeat constructor.
  - intros evs (? & ? & ? & ? & ? & ? & ->). by repeat constructor.
  - intros. by apply Forall_singleton.
  - apply Forall_singleton. split; [done|by right].
  - apply Forall_singleton. split; [done|by left].
Qed.

(** The phases of a call: loading, lamps, camera loop, output files. *)
Lemma render_scene_phases_run (fuel : nat) (num_objects : Z)
    (output_blendfile : option string) (w w' : world num)
    (r : outcome (render_result num)) :
  render_scene e a fuel num_objects output_blendfile w = (r, w') →
  ∃ loop,
    trace w' = trace w ++ [OpenMainfile; LoadMaterials]
                 ++ all_lamp_moves e a (draws w) ++ loop
                 ++ (if returned r then output_events output_blendfile
                     else []) ∧
    Forall loop_event loop.
Proof.
  destruct (render_scene_prelude fuel num_objects output_blendfile w)
    as (w5 & -> & _ & _ & _ & _ & Ht5).
  unfold render_scene_tail. destruct (num_cams a =? 0)%Z.
  { intros Hrun. cbv [raise] in Hrun. simplify_eq. exists [].
    cbn [returned]. split; [|done]. by rewrite Ht5, !app_nil_r. }
  unfold mbind at 1, M_bind at 1.
  destruct (for_each _ _ _ w5) as [r1 w6] eqn:Hloop.
  destruct (camera_loop_events _ _ _ _ _ _ _ Hloop) as (loop & Ht6 & Hev);
    [done|].
  intros Hrun. exists loop. split; [|done].
  destruct r1 as [st|x|].
  - destruct output_blendfile as [path|].
    + rewrite (bind_Ok_run _ _ _ _ _ (emit_run _ _)) in Hrun.
      rewrite (bind_Ok_run _ _ _ _ _ (emit_run _ _)) in Hrun.
      cbv [mret M_ret] in Hrun. simplify_eq.
      cbn [returned output_events trace].
      rewrite Ht6, Ht5, <- ?app_assoc. done.
    + cbv [mret M_ret] in Hrun. unfold mbind at 1, M_bind at 1 in Hrun.
      rewrite (bind_Ok_run _ _ _ _ _ (emit_run _ _)) in Hrun.
      simplify_eq. cbn [returned output_events trace].
      rewrite Ht6, Ht5, <- ?app_assoc. done.
  - simplify_eq. cbn [returned]. by rewrite Ht6, Ht5, app_nil_r, <- ?app_assoc.
  - simplify_eq. cbn [returned]. by rewrite Ht6, Ht5, app_nil_r, <- ?app_assoc.
Qed.

End PhaseFacts.

Section PhaseTheorems.
Context {num : Type} `{NumOps num} `{TrigOps num}.
Variable e : env num.
Variable a : args num.

(** X15. The events of a call come in phases: the base scene is opened and
    the materials are loaded, then the lamps are moved (three moves for
    each lamp whose jitter is positive, none for the others), then come
    the events of the camera loop; the blend file (when one is asked for)
    and the transforms file are written once, as the last events, and only
    by a call that returns. *)
Theorem render_scene_phases (fuel : nat) (num_objects : Z)
    (output_blendfile : option string) (w w' : world num)
    (r : outcome (render_result num)) :
  render_scene e a fuel num_objects output_blendfile w = (r, w') →
  ∃ loop,
    trace w' = trace w ++ [OpenMainfile; LoadMaterials]
                 ++ all_lamp_moves e a (draws w) ++ loop
                 ++ (if returned r then output_events output_blendfile
                     else []) ∧
    Forall loop_event loop.
Proof. apply render_scene_phases_run. Qed.

Lemma render_scene_zero_cams_run (fuel : nat) (num_objects : Z)
    (output_blendfile : option string) (w : world num) :
  num_cams a = 0%Z →
  ∃ w',
    render_scene e a fuel num_objects output_blendfile w
      = (Raise ZeroDivisionError, w') ∧
    data_objects w' = base_scene e ∧
    trace w' = trace w ++ [OpenMainfile; LoadMaterials]
                       ++ all_lamp_moves e a (draws w).
Proof.
  intros Hz.
  destruct (render_scene_prelude e a fuel num_objects output_blendfile w)
    as (w5 & -> & Hd & _ & _ & _ & Ht).
  exists w5. unfold render_scene_tail. rewrite Hz. done.
Qed.

(** X16. With [num_cams = 0] a call raises [ZeroDivisionError], but only
    after it has loaded the base scene and moved the lamps; nothing is
    rendered and no file is written. *)
Theorem render_scene_zero_cams (fuel : nat) (num_objects : Z)
    (output_blendfile : option string) (w : world num) :
  num_cams a = 0%Z →
  ∃ w',
    render_scene e a fuel num_objects output_blendfile w
      = (Raise ZeroDivisionError, w') ∧
    data_objects w' = base_scene e ∧
    trace w' = trace w ++ [OpenMainfile; LoadMaterials]
                       ++ all_lamp_moves e a (draws w).
Proof. apply render_scene_zero_cams_run. Qed.

(** *** A renderer that always fails *)

Lemma render_frame_fails (fuel : nat) (file_index : Z) (stepsize : num)
    (w w' : world num) (r : outcome (frame num)) :
  (∀ k, render_raises e k = true) →
  render_frame e fuel file_index stepsize w = (r, w') → r = OutOfFuel.
Proof.
  intros Hdown. revert w. induction fuel as [|fuel IH]; intros w.
  - cbv [render_frame out_of_fuel]. by intros ?; simplify_eq.
  - cbn [render_frame]. rewrite (bind_Ok_run _ _ _ _ _ (render_run _ _ _)).
    rewrite Hdown. apply IH.
Qed.

Lemma bind_never_Ok {A B} (m : M num A) (f : A → M num B)
    (w w' : world num) (r : outcome B) :
  (∀ x w1 w2 r1, f x w1 = (r1, w2) → returned r1 = false) →
  (m ≫= f) w = (r, w') → returned r = false.
Proof.
  intros Hf. unfold mbind, M_bind. destruct (m w) as [[x|x|] w1].
  - apply Hf.
  - by intros ?; simplify_eq.
  - by intros ?; simplify_eq.
Qed.

Lemma camera_shot_fails (fuel : nat) (num_objects : Z) (stepsize : num)
    (j i : Z) (st : render_result num) (w w' : world num)
    (r : outcome (render_result num)) :
  (∀ k, render_raises e k = true) →
  camera_shot e a fuel num_objects stepsize j i st w = (r, w') →
  returned r = false.
Proof.
  intros Hdown. unfold camera_shot.
  apply bind_never_Ok. intros _ w1 w2 r1.
  apply bind_never_Ok. intros _ w3 w4 r2.
  apply bind_never_Ok. intros k w5 w6 r3.
  apply bind_never_Ok. intros objs w7 w8 r4.
  unfold mbind, M_bind.
  destruct (render_frame e fuel _ stepsize w7) as [r5 w9] eqn:Hfr.
  apply (render_frame_fails _ _ _ _ _ _ Hdown) in Hfr. subst r5.
  by intros ?; simplify_eq.
Qed.

(** X17. When every call of the renderer raises and at least one shot is
    due ([num_cams >= 8]), a call never returns: the loop around the
    renderer swallows each exception and tries again. *)
Theorem render_scene_renderer_down (fuel : nat) (num_objects : Z)
    (output_blendfile : option string) (w w' : world num)
    (r : outcome (render_result num)) :
  (∀ k, render_raises e k = true) →
  (8 <= num_cams a)%Z →
  render_scene e a fuel num_objects output_blendfile w = (r, w') →
  returned r = false.
Proof.
  intros Hdown Hcams.
  destruct (render_scene_prelude e a fuel num_objects output_blendfile w)
    as (w5 & -> & _).
  unfold render_scene_tail.
  destruct (num_cams a =? 0)%Z;
    [intros Hrun; cbv [raise] in Hrun; by simplify_eq|].
  unfold mbind at 1, M_bind at 1.
  destruct (for_each _ _ _ w5) as [r1 w6] eqn:Hloop.
  apply for_each_never_Ok in Hloop.
  - destruct r1; [done|..]; by intros ?; simplify_eq.
  - done.
  - intros j s1 w1 w2 r2. unfold camera_tier.
    apply bind_never_Ok. intros _ w3 w4 r3.
    apply for_each_never_Ok.
    + assert (0 < num_cams a / num_heights)%Z as Hq.
      { unfold num_heights. apply Z.div_str_pos. lia. }
      rewrite seqZ_cons by done. done.
    + intros i s2 w7 w8 r4. by apply camera_shot_fails.
Qed.

(** *** Exceptions come before the first render *)

Lemma add_random_objects_unrendered (fuel : nat) (num_objects : Z) :
  emits (Forall unrendered) (fun _ => True)
        (add_random_objects e a fuel num_objects).
Proof.
  unfold add_random_objects.
  apply (emits_bind _ _); [|intros L; apply (emits_ret _ _)].
  apply (emits_add_random_objects_locals _ _).
  - intros evs (? & ? & ? & ? & ? & ? & ? & ? & ->). by repeat constructor.
  - intros evs (? & ? & ? & ? & ? & ? & ->) _. by repeat constructor.
  - intros id. by repeat constructor.
  - by repeat constructor.
Qed.

(** A call for no object does not raise. *)
Lemma add_random_objects_no_slots_Raise (fuel : nat) (num_objects : Z)
    (w w' : world num) (x : exn) :
  (num_objects <= 0)%Z →
  add_random_objects e a fuel num_objects w ≠ (Raise x, w').
Proof.
  intros Hn. unfold add_random_objects.
  destruct fuel as [|fuel]; cbn [add_random_objects_locals]; [done|].
  replace (Z.to_nat num_objects) with 0%nat by lia. done.
Qed.

Lemma render_frame_Raise (fuel : nat) (file_index : Z) (stepsize : num)
    (w w' : world num) (x : exn) :
  render_frame e fuel file_index stepsize w ≠ (Raise x, w').
Proof.
  revert w. induction fuel as [|fuel IH]; intros w; [done|].
  cbn [render_frame]. rewrite (bind_Ok_run _ _ _ _ _ (render_run _ _ _)).
  destruct (render_raises e (renders w)); [apply IH|done].
Qed.

Lemma render_frame_objects (fuel : nat) (file_index : Z) (stepsize : num)
    (w w' : world num) (r : outcome (frame num)) :
  render_frame e fuel file_index stepsize w = (r, w') →
  data_objects w' = data_objects w.
Proof.
  intros Hrun.
  by destruct (neutral_render_frame _ _ _ _ _ _ _ Hrun) as (_ & _ & _ & ?).
Qed.

Lemma quiet_since_app (t0 : list (event num)) (w w' : world num)
    (evs : list (event num)) :
  quiet_since t0 w → trace w' = trace w ++ evs → Forall unrendered evs →
  quiet_since t0 w'.
Proof.
  intros (evs0 & Ht & Hq) Ht' Hevs. exists (evs0 ++ evs).
  split; [by rewrite Ht', Ht, app_assoc|by apply Forall_app].
Qed.

Lemma camera_shot_outcome (t0 : list (event num)) (fuel : nat) (n : Z)
    (stepsize : num) (j i : Z) (st : render_result num) (w w' : world num)
    (r : outcome (render_result num)) :
  quiet_since t0 w ∨ settled n w →
  camera_shot e a fuel n stepsize j i st w = (r, w') →
  match r with
  | Ok _ => settled n w'
  | Raise _ => quiet_since t0 w'
  | OutOfFuel => True
  end.
Proof.
  intros HJ. unfold camera_shot.
  destruct (set_camera_Ok 0 (nmul (nmul (of_Z 10) (ncos (shot_azimuth a i)))
                                  (nsin (tier_phi j))) w)
    as (w1 & Hw1 & _ & Hd1 & _ & _ & Ht1).
  rewrite (bind_Ok_run _ _ _ _ _ Hw1).
  destruct (set_camera_Ok 1 (nmul (nmul (of_Z 10) (nsin (shot_azimuth a i)))
                                  (nsin (tier_phi j))) w1)
    as (w2 & Hw2 & _ & Hd2 & _ & _ & Ht2).
  rewrite (bind_Ok_run _ _ _ _ _ Hw2).
  assert (quiet_since t0 w2 ∨ settled n w2) as HJ2.
  { destruct HJ as [Hq|Hs]; [left|right].
    - eapply (quiet_since_app _ w w2 [_; _]);
        [done|by rewrite Ht2, Ht1, <- app_assoc|by repeat constructor].
    - unfold settled in *. by rewrite Hd2, Hd1. }
  clear HJ Hw1 Hw2 Hd1 Hd2 Ht1 Ht2.
  unfold mbind at 1, M_bind at 1, len_data_objects.
  assert (Hrender : ∀ objs w3,
    settled n w3 →
    (frame_data ← render_frame e fuel (num_cams a / num_heights * j + i)
                   stepsize;
     mret {| final_objects := objs; frames := frames st ++ [frame_data] |})
      w3 = (r, w') →
    match r with
    | Ok _ => settled n w'
    | Raise _ => quiet_since t0 w'
    | OutOfFuel => True
    end).
  { intros objs w3 Hs. unfold mbind, M_bind.
    destruct (render_frame e fuel _ stepsize w3) as [[fr|x|] w4] eqn:Hfr.
    - apply render_frame_objects in Hfr.
      cbv [mret M_ret]. intros ?; simplify_eq.
      unfold settled in *. by rewrite Hfr.
    - by apply render_frame_Raise in Hfr.
    - by intros ?; simplify_eq. }
  destruct (length (data_objects w2) =? 7)%nat eqn:Hk.
  - apply Nat.eqb_eq in Hk.
    unfold mbind at 1, M_bind at 1.
    rewrite (bind_Ok_run _ _ _ _ _ (emit_run _ _)).
    unfold mbind at 1, M_bind at 1.
    destruct (add_random_objects e a fuel n _) as [[res|x|] w4] eqn:Hcall.
    + cbv [mret M_ret]. apply Hrender.
      destruct (add_random_objects_step _ _ _ _ _ _ _ Hcall)
        as (_ & _ & _ & _ & Hlen).
      specialize (Hlen _ eq_refl). cbn [data_objects] in Hlen.
      unfold settled. rewrite Hlen, Hk.
      destruct (decide (n <= 0)%Z); [by right|left; lia].
    + intros ?; simplify_eq.
      destruct HJ2 as [Hq|[Hs|Hs]]; [|done|].
      * destruct (add_random_objects_unrendered _ _ _ _ _ Hcall)
          as (evs & Ht & Hevs); [done|].
        cbn [trace] in Ht.
        eapply (quiet_since_app _ w2 _ (_ :: evs));
          [done|by rewrite Ht, <- app_assoc|].
        apply Forall_cons. split; [done|exact Hevs].
      * by apply add_random_objects_no_slots_Raise in Hcall.
    + by intros ?; simplify_eq.
  - apply Nat.eqb_neq in Hk. unfold mbind at 1, M_bind at 1.
    cbv [mret M_ret]. apply Hrender. by left.
Qed.

(** A loop whose passes keep [P] and raise only in [Q]. *)
Lemma for_each_outcome {A St} (P Q : world num → Prop) (l : list A)
    (body : A → St → M num St) (s : St) (w w' : world num) (r : outcome St) :
  (∀ x s1 w1 w2 r1,
      P w1 → body x s1 w1 = (r1, w2) →
      match r1 with Ok _ => P w2 | Raise _ => Q w2 | OutOfFuel => True end) →
  P w →
  for_each l body s w = (r, w') →
  match r with Ok _ => P w' | Raise _ => Q w' | OutOfFuel => True end.
Proof.
  intros Hbody. revert s w. induction l as [|x l IH]; intros s w HP;
    cbn [for_each].
  - cbv [mret M_ret]. by intros ?; simplify_eq.
  - unfold mbind, M_bind. destruct (body x s w) as [[s1|x1|] w1] eqn:Hb.
    + apply IH. by apply (Hbody _ _ _ _ _ HP Hb).
    + intros ?; simplify_eq. by apply (Hbody _ _ _ _ _ HP Hb).
    + by intros ?; simplify_eq.
Qed.

Lemma all_lamp_moves_unrendered (t : nat) :
  Forall unrendered (all_lamp_moves e a t).
Proof.
  unfold all_lamp_moves, lamp_moves.
  repeat (apply Forall_app; split);
    (destruct (nltb (of_Z 0) _); by repeat constructor).
Qed.

Lemma render_scene_Raise_quiet (fuel : nat) (num_objects : Z)
    (output_blendfile : option string) (w w' : world num) (x : exn) :
  render_scene e a fuel num_objects output_blendfile w = (Raise x, w') →
  quiet_since (trace w) w'.
Proof.
  destruct (render_scene_prelude e a fuel num_objects output_blendfile w)
    as (w5 & -> & _ & _ & _ & _ & Ht5).
  assert (quiet_since (trace w) w5) as Hq5.
  { eexists. split; [exact Ht5|].
    apply Forall_cons. split; [done|]. apply Forall_cons. split; [done|].
    apply all_lamp_moves_unrendered. }
  unfold render_scene_tail.
  destruct (num_cams a =? 0)%Z;
    [intros Hrun; cbv [raise] in Hrun; by simplify_eq|].
  unfold mbind at 1, M_bind at 1.
  destruct (for_each _ _ _ w5) as [r1 w6] eqn:Hloop.
  apply (for_each_outcome
           (fun w0 => quiet_since (trace w) w0 ∨ settled num_objects w0)
           (quiet_since (trace w))) in Hloop.
  - destruct r1 as [st|x1|]; [|by intros ?; simplify_eq..].
    destruct output_blendfile.
    + rewrite (bind_Ok_run _ _ _ _ _ (emit_run _ _)).
      by rewrite (bind_Ok_run _ _ _ _ _ (emit_run _ _)).
    + cbv [mret M_ret]. unfold mbind at 1, M_bind at 1.
      by rewrite (bind_Ok_run _ _ _ _ _ (emit_run _ _)).
  - intros j s1 w1 w2 r2 HJ. unfold camera_tier.
    destruct (set_camera_Ok 2 (nmul (of_Z 10) (ncos (tier_phi j))) w1)
      as (w3 & Hw3 & _ & Hd3 & _ & _ & Ht3).
    rewrite (bind_Ok_run _ _ _ _ _ Hw3).
    apply (for_each_outcome
             (fun w0 => quiet_since (trace w) w0 ∨ settled num_objects w0)
             (quiet_since (trace w))).
    + intros i s2 w7 w8 r3 HJ7 Hshot.
      pose proof (camera_shot_outcome _ _ _ _ _ _ _ _ _ _ HJ7 Hshot) as Hout.
      destruct r3; [by right|done..].
    + destruct HJ as [Hq|Hs]; [left|right].
      * eapply (quiet_since_app _ w1 w3 [_]); [done|exact Ht3|].
        by repeat constructor.
      * unfold settled in *. by rewrite Hd3.
  - by left.
Qed.

(** X18. The exceptions of the function's own code and of
    [add_random_objects] ([ZeroDivisionError], [IndexError], [KeyError];
    the calls into Blender and the writing of files are taken not to fail)
    come only before the first render: when a call ends in one of them, the
    renderer has not been called and the transforms file and the blend file
    have not been written. *)
Theorem render_scene_raises_early (fuel : nat) (num_objects : Z)
    (output_blendfile : option string) (w w' : world num) (x : exn) :
  render_scene e a fuel num_objects output_blendfile w = (Raise x, w') →
  ∃ evs, trace w' = trace w ++ evs ∧ Forall unrendered evs.
Proof. apply render_scene_Raise_quiet. Qed.

(** *** The scene of a call that returns *)

Lemma camera_shot_placed (fuel : nat) (n : Z) (stepsize : num) (j i : Z)
    (st st' : render_result num) (w w' : world num) :
  (1 <= n)%Z →
  unplaced st w ∨ placed n st w →
  camera_shot e a fuel n stepsize j i st w = (Ok st', w') →
  placed n st' w'.
Proof.
  intros Hn Hst. unfold camera_shot.
  destruct (set_camera_Ok 0 (nmul (nmul (of_Z 10) (ncos (shot_azimuth a i)))
                                  (nsin (tier_phi j))) w)
    as (w1 & Hw1 & _ & Hd1 & _).
  rewrite (bind_Ok_run _ _ _ _ _ Hw1).
  destruct (set_camera_Ok 1 (nmul (nmul (of_Z 10) (nsin (shot_azimuth a i)))
                                  (nsin (tier_phi j))) w1)
    as (w2 & Hw2 & _ & Hd2 & _).
  rewrite (bind_Ok_run _ _ _ _ _ Hw2).
  unfold mbind at 1, M_bind at 1, len_data_objects.
  rewrite Hd2, Hd1.
  intros (objs & w3 & Hgate & Hrun)%bind_Ok_inv.
  apply bind_Ok_inv in Hrun as (fr & w4 & Hfr & Hret).
  apply render_frame_objects in Hfr.
  cbv [mret M_ret] in Hret. simplify_eq. unfold placed. cbn [final_objects].
  rewrite Hfr. destruct Hst as [[Hnone Hlen]|(objs0 & Hsome & Hlen0 & Hlen)].
  - rewrite Hlen in Hgate. cbn [Nat.eqb] in Hgate.
    rewrite (bind_Ok_run _ _ _ _ _ (emit_run _ _)) in Hgate.
    apply bind_Ok_inv in Hgate as ([os bs] & w5 & Hcall & Hret).
    cbv [mret M_ret] in Hret. simplify_eq.
    apply add_random_objects_Ok in Hcall as (L & Hcall & -> & ->).
    apply add_random_objects_locals_Ok in Hcall as [Hsteps Hdata].
    apply placements_length in Hsteps as (_ & Hobjs & Hbobjs).
    cbn [no_locals objects blender_objects length data_objects] in *.
    exists (objects L). rewrite Hdata, length_app, Hd2, Hd1, Hlen.
    split_and!; [done|lia|lia].
  - rewrite Hlen in Hgate.
    destruct (7 + Z.to_nat n =? 7)%nat eqn:Hk; [apply Nat.eqb_eq in Hk; lia|].
    cbv [mret M_ret] in Hgate. simplify_eq.
    exists objs0. by rewrite Hd2, Hd1.
Qed.

Lemma render_scene_Ok_placed (fuel : nat) (num_objects : Z)
    (output_blendfile : option string) (w w' : world num)
    (res : render_result num) :
  length (base_scene e) = 7%nat →
  (1 <= num_objects)%Z →
  (8 <= num_cams a)%Z →
  render_scene e a fuel num_objects output_blendfile w = (Ok res, w') →
  ∃ objs, final_objects res = Some objs ∧
          length objs = Z.to_nat num_objects ∧
          length (data_objects w') = (7 + Z.to_nat num_objects)%nat.
Proof.
  intros Hbase Hn Hcams.
  destruct (render_scene_prelude e a fuel num_objects output_blendfile w)
    as (w5 & -> & Hd5 & _).
  unfold render_scene_tail.
  destruct (num_cams a =? 0)%Z; [done|].
  intros (st & w6 & Hloop & Hrun)%bind_Ok_inv.
  assert (placed num_objects st w6) as (objs & Hobjs & Hlen & Hdata).
  { eapply (for_each_Ok_last unplaced (placed num_objects)) in Hloop;
      [done|done| |left; split; [done|by rewrite Hd5]].
    intros j s1 s2 w1 w2 Hst. unfold camera_tier.
    destruct (set_camera_Ok 2 (nmul (of_Z 10) (ncos (tier_phi j))) w1)
      as (w3 & Hw3 & _ & Hd3 & _).
    rewrite (bind_Ok_run _ _ _ _ _ Hw3).
    apply (for_each_Ok_last unplaced (placed num_objects)).
    - assert (0 < num_cams a / num_heights)%Z as Hq.
      { unfold num_heights. apply Z.div_str_pos. lia. }
      rewrite seqZ_cons by done. done.
    - intros i s3 s4 w7 w8 Hst7. by apply camera_shot_placed.
    - unfold unplaced, placed in *. by rewrite Hd3. }
  exists objs. destruct output_blendfile.
  - rewrite (bind_Ok_run _ _ _ _ _ (emit_run _ _)) in Hrun.
    rewrite (bind_Ok_run _ _ _ _ _ (emit_run _ _)) in Hrun.
    cbv [mret M_ret] in Hrun. by simplify_eq.
  - cbv [mret M_ret] in Hrun. unfold mbind at 1, M_bind at 1 in Hrun.
    rewrite (bind_Ok_run _ _ _ _ _ (emit_run _ _)) in Hrun.
    by simplify_eq.
Qed.

(** X19. A call that returns after at least one shot ([num_cams >= 8]), for
    at least one object and on a base scene of seven objects, has placed
    exactly [num_objects] objects: that many are recorded in [objects] and
    the scene graph holds them on top of the seven. *)
Theorem render_scene_places_all (fuel : nat) (num_objects : Z)
    (output_blendfile : option string) (w w' : world num)
    (res : render_result num) :
  length (base_scene e) = 7%nat →
  (1 <= num_objects)%Z →
  (8 <= num_cams a)%Z →
  render_scene e a fuel num_objects output_blendfile w = (Ok res, w') →
  ∃ objs, final_objects res = Some objs ∧
          length objs = Z.to_nat num_objects ∧
          length (data_objects w') = (7 + Z.to_nat num_objects)%nat.
Proof. apply render_scene_Ok_placed. Qed.

End PhaseTheorems.

(** *** The jitter of the lamps *)

Lemma rand_draw_range (e : env R) (L : R) (t : nat) :
  (0 <= random_src e t < 1)%R → (0 < L)%R →
  (- L <= rand_draw e L t < L)%R.
Proof.
  intros Hu HL. unfold rand_draw. cbn [nmul nsub ndiv of_Z real_ops]. nra.
Qed.

Lemma lamp_moves_bounded (e : env R) (a : args R) (lamp : string) (L : R)
    (t : nat) :
  (∀ t, (0 <= random_src e t < 1)%R) →
  lamp_jitter a lamp = Some L →
  Forall (bounded_move a) (lamp_moves e lamp L t).
Proof.
  intros Hu Hlamp. unfold lamp_moves. cbn [nltb of_Z real_ops].
  destruct (Rltb 0 L) eqn:HL; [|constructor]. apply Rltb_true in HL.
  assert (∀ axis t', (axis < 3)%nat →
            bounded_move a (MoveLamp lamp axis (rand_draw e L t'))) as Hmove.
  { intros axis t' Haxis. exists L.
    split; [done|]. split; [done|].
    split; [by apply rand_draw_range|done]. }
  repeat (apply Forall_cons; split; [apply Hmove; lia|]). constructor.
Qed.

Lemma loop_event_not_lamp (ev : event R) :
  loop_event ev → is_move_lamp ev = false.
Proof. by destruct ev. Qed.

(** X20. When [random.random()] draws from the unit interval, the lamps are
    moved only at the start of a call, each of the three lamps along each
    of its three axes by an amount in [-L, L), where [L] is the jitter
    option of that lamp; a lamp whose jitter is zero or negative is not
    moved. *)
Theorem render_scene_lamp_moves (e : env R) (a : args R) (fuel : nat)
    (num_objects : Z) (output_blendfile : option string) (w w' : world R)
    (r : outcome (render_result R)) :
  (∀ t, (0 <= random_src e t < 1)%R) →
  render_scene e a fuel num_objects output_blendfile w = (r, w') →
  ∃ rest,
    trace w' = trace w ++ [OpenMainfile; LoadMaterials]
                 ++ all_lamp_moves e a (draws w) ++ rest ∧
    Forall (bounded_move a) (all_lamp_moves e a (draws w)) ∧
    Forall (fun ev => is_move_lamp ev = false) rest.
Proof.
  intros Hu (loop & Ht & Hloop)%render_scene_phases_run.
  eexists. split; [exact Ht|]. split.
  - unfold all_lamp_moves.
    repeat (apply Forall_app; split); by apply lamp_moves_bounded.
  - apply Forall_app. split.
    + eapply Forall_impl; [exact Hloop|]. apply loop_event_not_lamp.
    + destruct (returned r); [|constructor].
      destruct output_blendfile; by repeat constructor.
Qed.

Lemma render_scene_lamp_moves_witness :
  ∃ res w' rest,
    eight_cams_run = (Ok res, w') ∧
    trace w' = trace (loaded_world orbit_env) ++ [OpenMainfile; LoadMaterials]
                 ++ all_lamp_moves orbit_env (orbit_args 8)
                      (draws (loaded_world orbit_env)) ++ rest ∧
    Forall (bounded_move (orbit_args 8))
           (all_lamp_moves orbit_env (orbit_args 8)
              (draws (loaded_world orbit_env))) ∧
    Forall (fun ev => is_move_lamp ev = false) rest.
Proof.
  destruct eight_cams_run_Ok as (res & w' & Hrun & _).
  assert (∀ t, (0 <= random_src orbit_env t < 1)%R) as Hu.
  { intros t. apply second_at_unit. lra. }
  destruct (render_scene_lamp_moves orbit_env (orbit_args 8) 1 1 None
              (loaded_world orbit_env) w' (Ok res) Hu Hrun)
    as (rest & Ht & Hb & Hrest).
  by exists res, w', rest.
Defined.

Lemma render_scene_frames_exact_witness :
  ∃ res w',
    eight_cams_run = (Ok res, w') ∧
    frames res = all_frames orbit_env (orbit_args 8) ∧
    map file_path (frames res) = seqZ 0 (8 * (num_cams (orbit_args 8) / 8)).
Proof.
  destruct eight_cams_run_Ok as (res & w' & Hrun & _).
  exists res, w'. split; [exact Hrun|].
  exact (render_scene_frames_exact orbit_env (orbit_args 8) 1 1 None
           (loaded_world orbit_env) w' res Hrun).
Defined.

Lemma render_scene_camera_on_sphere_witness :
  ∃ res w',
    eight_cams_run = (Ok res, w') ∧
    Forall (fun fr =>
              ∃ x y z : R,
                transform_matrix fr = matrix_world orbit_env (x, y, z) ∧
                (x * x + y * y + z * z = 100)%R ∧ (0 < z)%R)
           (frames res).
Proof.
  destruct eight_cams_run_Ok as (res & w' & Hrun & _).
  exists res, w'. split; [exact Hrun|].
  exact (render_scene_camera_on_sphere orbit_env (orbit_args 8) 1 1 None
           (loaded_world orbit_env) w' res Hrun).
Defined.

Lemma render_scene_phases_witness :
  ∃ res w' loop,
    eight_cams_run = (Ok res, w') ∧
    trace w' = trace (loaded_world orbit_env) ++ [OpenMainfile; LoadMaterials]
                 ++ all_lamp_moves orbit_env (orbit_args 8)
                      (draws (loaded_world orbit_env)) ++ loop
                 ++ [WriteTransforms] ∧
    Forall loop_event loop.
Proof.
  destruct eight_cams_run_Ok as (res & w' & Hrun & _).
  destruct (render_scene_phases orbit_env (orbit_args 8) 1 1 None
              (loaded_world orbit_env) w' (Ok res) Hrun) as (loop & Ht & Hl).
  by exists res, w', loop.
Defined.

Lemma render_scene_zero_cams_witness :
  ∃ w',
    render_scene orbit_env (orbit_args 0) 1 1 None (loaded_world orbit_env)
      = (Raise ZeroDivisionError, w') ∧
    data_objects w' = base_scene orbit_env ∧
    trace w' = trace (loaded_world orbit_env) ++ [OpenMainfile; LoadMaterials]
                 ++ all_lamp_moves orbit_env (orbit_args 0)
                      (draws (loaded_world orbit_env)).
Proof.
  apply (render_scene_zero_cams orbit_env (orbit_args 0) 1 1 None
           (loaded_world orbit_env)).
  reflexivity.
Defined.

Lemma render_scene_renderer_down_witness :
  returned (fst (render_scene stuck_env (orbit_args 8) 5 1 None
                   (loaded_world stuck_env))) = false.
Proof.
  apply (render_scene_renderer_down stuck_env (orbit_args 8) 5 1 None
           (loaded_world stuck_env)
           (snd (render_scene stuck_env (orbit_args 8) 5 1 None
                   (loaded_world stuck_env)))).
  - intros k. reflexivity.
  - simpl. lia.
  - apply surjective_pairing.
Defined.

Lemma render_scene_raises_early_witness :
  ∃ w' evs,
    render_scene orbit_env (orbit_args 0) 1 1 None (loaded_world orbit_env)
      = (Raise ZeroDivisionError, w') ∧
    trace w' = trace (loaded_world orbit_env) ++ evs ∧
    Forall unrendered evs.
Proof.
  destruct (render_scene_zero_cams_run orbit_env (orbit_args 0) 1 1 None
              (loaded_world orbit_env) eq_refl) as (w' & Hrun & _).
  destruct (render_scene_raises_early orbit_env (orbit_args 0) 1 1 None
              (loaded_world orbit_env) w' ZeroDivisionError Hrun)
    as (evs & Ht & Hq).
  by exists w', evs.
Defined.

Lemma render_scene_places_all_witness :
  ∃ res w' objs,
    eight_cams_run = (Ok res, w') ∧
    final_objects res = Some objs ∧
    length objs = Z.to_nat 1 ∧
    length (data_objects w') = (7 + Z.to_nat 1)%nat.
Proof.
  destruct eight_cams_run_Ok as (res & w' & Hrun & _).
  destruct (render_scene_places_all orbit_env (orbit_args 8) 1 1 None
              (loaded_world orbit_env) w' res) as (objs & ? & ? & ?).
  - reflexivity.
  - lia.
  - simpl. lia.
  - exact Hrun.
  - by exists res, w', objs.
Defined.

(** ** main and listify_matrix *)

(** X21. [listify_matrix] returns the rows of its argument unchanged and in
    order: the same number of rows, the same entries. *)
Theorem listify_matrix_rows {A} (matrix : list (list A)) :
  listify_matrix matrix = matrix ∧
  length (listify_matrix matrix) = length matrix ∧
  ∀ i j, (listify_matrix matrix !! i) ≫= (fun row => row !! j)
         = (matrix !! i) ≫= (fun row => row !! j).
Proof.
  assert (Hgen : ∀ (l acc : list (list A)),
            foldl (fun matrix_list row => matrix_list ++ [row]) acc l
            = acc ++ l).
  { induction l as [|row l IH]; intros acc; cbn [foldl].
    - by rewrite app_nil_r.
    - by rewrite IH, <- app_assoc. }
  assert (listify_matrix matrix = matrix) as Heq by apply Hgen.
  rewrite Heq. done.
Qed.

Lemma string_app_assoc (s t u : string) :
  (s +:+ t) +:+ u = s +:+ t +:+ u.
Proof.
  induction s as [|c s IH]; [done|].
  change ((String c s +:+ t) +:+ u) with (String c ((s +:+ t) +:+ u)).
  change (String c s +:+ t +:+ u) with (String c (s +:+ t +:+ u)).
  by rewrite IH.
Qed.

Lemma string_app_not_nil (s t : string) :
  t ≠ EmptyString → s +:+ t ≠ EmptyString.
Proof. intros Ht. destruct s; [done|discriminate]. Qed.

Lemma string_app_nil_r (s : string) : s +:+ "" = s.
Proof.
  induction s as [|c s IH]; [done|].
  change (String c s +:+ "") with (String c (s +:+ "")). by rewrite IH.
Qed.

Lemma drop_last_app (s t : string) :
  t ≠ EmptyString → drop_last (s +:+ t) = s +:+ drop_last t.
Proof.
  intros Ht. induction s as [|c s IH]; [done|].
  change (String c s +:+ t) with (String c (s +:+ t)).
  change (String c s +:+ drop_last t) with (String c (s +:+ drop_last t)).
  rewrite <- IH. pose proof (string_app_not_nil s t Ht).
  by destruct (s +:+ t).
Qed.

(** [prefix[:-1]] takes the trailing underscore off the prefix. *)
Lemma drop_last_prefix (p q : string) :
  drop_last (p +:+ "_" +:+ q +:+ "_") = p +:+ "_" +:+ q.
Proof.
  rewrite !drop_last_app by first [done|by apply string_app_not_nil].
  cbn [drop_last]. by rewrite string_app_nil_r.
Qed.

Lemma starts_with_sep_app (s t : string) :
  starts_with_sep s = true → starts_with_sep (s +:+ t) = true.
Proof.
  unfold starts_with_sep. destruct s as [|c s]; [done|].
  change (String c s +:+ t) with (String c (s +:+ t)).
  cbn [String.prefix]. destruct (Ascii.ascii_dec _ c); [|done].
  intros _. by destruct (s +:+ t).
Qed.

Section MainFacts.
Context {num : Type} `{NumOps num} `{TrigOps num}.
Variable os : os_env.
Variable e : env num.
Variable ma : main_args num.

Lemma random_randint_Some (lo hi n : Z) (w w1 : world num) :
  random_randint e lo hi w = (Some n, w1) →
  (lo <= n <= hi)%Z ∧ w1 = next_draw w.
Proof.
  unfold random_randint.
  destruct (0 <? hi + 1 - lo)%Z eqn:Hw; [|done]. apply Z.ltb_lt in Hw.
  intros [= <- <-]. split; [|done].
  pose proof (Nat.mod_upper_bound (randbelow_src e (draws w))
                (Z.to_nat (hi + 1 - lo))) as Hb.
  lia.
Qed.

Lemma random_randint_None (lo hi : Z) (w : world num) :
  (hi < lo)%Z → random_randint e lo hi w = (None, w).
Proof.
  intros Hlt. unfold random_randint.
  destruct (0 <? hi + 1 - lo)%Z eqn:Hw; [apply Z.ltb_lt in Hw; lia|done].
Qed.

(** A call of [main] that returns has called [render_scene] for a number
    of objects between the two bounds. *)
Lemma main_Ok_scene (fuel : nat) (w : world num) (res : render_result num) :
  returned_main (main ma os e fuel w) = MainOk res →
  ∃ n,
    (min_objects ma <= n <= max_objects ma)%Z ∧
    render_scene e (scene_args ma) fuel n
      (if (save_blendfiles ma =? 1)%Z then Some (blend_path ma) else None)
      (next_draw w)
    = (Ok res, left_world (main ma os e fuel w)).
Proof.
  unfold main.
  destruct (ensure_dir os true (output_image_dir ma)) as [made1 [|]]; [done|].
  destruct (ensure_dir os _ (output_blend_dir ma)) as [made2 [|]]; [done|].
  destruct (random_randint e _ _ w) as [[n|] w1] eqn:Hn; [|done].
  apply random_randint_Some in Hn as [Hn ->].
  destruct (render_scene e _ fuel n _ _) as [[res'| |] w2] eqn:Hrun;
    [|done..].
  cbn. intros ?; simplify_eq. by exists n.
Qed.

(** X22. A call of [main] that returns, with at least one shot due, a lower
    bound of at least one object and a base scene of seven objects, has
    placed a number of objects between [min_objects] and [max_objects]. *)
Theorem main_object_count (fuel : nat) (w : world num)
    (res : render_result num) :
  length (base_scene e) = 7%nat →
  (1 <= min_objects ma)%Z →
  (8 <= num_cams (scene_args ma))%Z →
  returned_main (main ma os e fuel w) = MainOk res →
  ∃ objs, final_objects res = Some objs ∧
          (min_objects ma <= Z.of_nat (length objs) <= max_objects ma)%Z.
Proof.
  intros Hbase Hmin Hcams (n & Hn & Hrun)%main_Ok_scene.
  apply render_scene_Ok_placed in Hrun as (objs & Hobjs & Hlen & _);
    [|done|lia|done].
  exists objs. split; [done|]. lia.
Qed.

(** X23. When [max_objects] is below [min_objects] (and the output
    directories can be created), [main] raises [ValueError] at
    [random.randint]: the missing output directories have been created by
    then, but the base scene is not loaded and nothing is drawn. *)
Theorem main_empty_range (fuel : nat) (w : world num) :
  (max_objects ma < min_objects ma)%Z →
  (∀ path, makedirs_raises os path = false) →
  main ma os e fuel w =
  {| made_dirs :=
       (if isdir os (output_image_dir ma) then [] else [output_image_dir ma])
       ++ (if (save_blendfiles ma =? 1)%Z
              && negb (isdir os (output_blend_dir ma))
           then [output_blend_dir ma] else []);
     returned_main := MainRaise ValueError;
     left_world := w |}.
Proof.
  intros Hlt Hok. unfold main, ensure_dir. rewrite !Hok.
  rewrite (random_randint_None _ _ _ Hlt). cbn [andb].
  destruct (isdir os (output_image_dir ma)); cbn [negb];
    destruct ((save_blendfiles ma =? 1)%Z
              && negb (isdir os (output_blend_dir ma))); done.
Qed.

(** X24. A call of [main] that returns has written the transforms file as
    its last event and, right before it, the blend file exactly when
    [save_blendfiles] is 1; the blend file is
    [<output_dir>/blendfiles/<filename_prefix>_<split>.blend] for a
    relative prefix.  The only directories [main] creates are the image
    directory and, when [save_blendfiles] is 1, the blend directory, each
    only when it is missing. *)
Theorem main_output_files (fuel : nat) (w : world num)
    (res : render_result num) :
  returned_main (main ma os e fuel w) = MainOk res →
  (∃ evs,
      trace (left_world (main ma os e fuel w)) =
        trace w ++ evs
        ++ (if (save_blendfiles ma =? 1)%Z
            then [SaveAsMainfile (blend_path ma); WriteTransforms]
            else [WriteTransforms]) ∧
      Forall (fun ev => match ev with
                        | SaveAsMainfile _ | WriteTransforms => False
                        | _ => True
                        end) evs) ∧
  blend_path ma =
    os_path_join (output_blend_dir ma)
      (filename_prefix ma +:+ "_" +:+ split ma +:+ ".blend") ∧
  ∀ path, path ∈ made_dirs (main ma os e fuel w) →
    isdir os path = false ∧
    (path = output_image_dir ma ∨
     (path = output_blend_dir ma ∧ save_blendfiles ma = 1%Z)).
Proof.
  intros Hret. split; [|split].
  - apply main_Ok_scene in Hret as (n & _ & Hrun).
    apply render_scene_phases_run in Hrun as (loop & Ht & Hloop).
    cbn [returned next_draw trace] in Ht.
    exists ([OpenMainfile; LoadMaterials]
            ++ all_lamp_moves e (scene_args ma) (draws (next_draw w)) ++ loop).
    split.
    + rewrite Ht, <- !app_assoc. by destruct (save_blendfiles ma =? 1)%Z.
    + apply Forall_app. split; [by repeat constructor|].
      apply Forall_app. split.
      * unfold all_lamp_moves, lamp_moves.
        repeat (apply Forall_app; split);
          (destruct (nltb (of_Z 0) _); by repeat constructor).
      * eapply Forall_impl; [exact Hloop|]. by intros [].
  - unfold blend_path, prefix. f_equal.
    by rewrite drop_last_prefix, !string_app_assoc.
  - clear Hret. intros path. unfold main, ensure_dir. cbn [andb].
    destruct (isdir os (output_image_dir ma)) eqn:Hi; cbn [negb];
      [|destruct (makedirs_raises os (output_image_dir ma))];
      (destruct (save_blendfiles ma =? 1)%Z eqn:Hs;
         [apply Z.eqb_eq in Hs|clear Hs]); cbn [andb];
      try (destruct (isdir os (output_blend_dir ma)) eqn:Hb; cbn [negb];
           try destruct (makedirs_raises os (output_blend_dir ma)));
      try destruct (random_randint e _ _ w) as [[n|] w1];
      try destruct (render_scene e _ fuel _ _ _) as [r w2];
      cbn [made_dirs app];
      rewrite ?elem_of_cons, ?elem_of_nil; intuition congruence.
Qed.

(** X25. With POSIX paths, a [filename_prefix] that starts with "/" takes
    the image files and the blend file out of the output directory: both
    paths are then the prefix itself, followed by the split. *)
Theorem main_absolute_prefix :
  starts_with_sep (filename_prefix ma) = true →
  img_template ma =
    filename_prefix ma +:+ "_" +:+ split ma +:+ "_" +:+ "%06d.png" ∧
  blend_path ma = filename_prefix ma +:+ "_" +:+ split ma +:+ ".blend".
Proof.
  intros Habs. unfold img_template, blend_path, prefix, os_path_join.
  split.
  - rewrite !string_app_assoc. by rewrite starts_with_sep_app.
  - rewrite drop_last_prefix, !string_app_assoc.
    by rewrite starts_with_sep_app.
Qed.

End MainFacts.

(** The run of [main] for one or two objects, eight cameras and a blend
    file, on a disk without the output directories. *)
Lemma studio_run_Ok :
  ∃ res,
    returned_main (main (studio_args 8 1 2 1) fresh_disk orbit_env 1
                     (loaded_world orbit_env)) = MainOk res.
Proof.
  unfold main, render_scene, jitter_lamp.
  cbn [nltb real_ops of_Z key_light_jitter back_light_jitter
       fill_light_jitter orbit_args with_num_cams cube_args options
       studio_args scene_args].
  rewrite !Rltb_0_1. eexists.
  lazy -[Rplus Rminus Rmult Rdiv Rinv Ropp sqrt IZR Rlt_dec Req_dec_T
         cos sin PI].
  reflexivity.
Qed.

Lemma main_object_count_witness :
  ∃ res objs,
    returned_main (main (studio_args 8 1 2 1) fresh_disk orbit_env 1
                     (loaded_world orbit_env)) = MainOk res ∧
    final_objects res = Some objs ∧
    (1 <= Z.of_nat (length objs) <= 2)%Z.
Proof.
  destruct studio_run_Ok as (res & Hrun).
  destruct (main_object_count fresh_disk orbit_env (studio_args 8 1 2 1) 1
              (loaded_world orbit_env) res) as (objs & Hobjs & Hlen).
  - reflexivity.
  - simpl. lia.
  - simpl. lia.
  - exact Hrun.
  - by exists res, objs.
Defined.

Lemma main_empty_range_witness :
  main (studio_args 8 3 1 1) fresh_disk orbit_env 1 (loaded_world orbit_env) =
  {| made_dirs := ["output/images"; "output/blendfiles"];
     returned_main := MainRaise ValueError;
     left_world := loaded_world orbit_env |}.
Proof.
  apply (main_empty_range fresh_disk orbit_env (studio_args 8 3 1 1) 1
           (loaded_world orbit_env)).
  - simpl. lia.
  - intros path. reflexivity.
Defined.

Lemma main_output_files_witness :
  ∃ res evs,
    returned_main (main (studio_args 8 1 2 1) fresh_disk orbit_env 1
                     (loaded_world orbit_env)) = MainOk res ∧
    trace (left_world (main (studio_args 8 1 2 1) fresh_disk orbit_env 1
                         (loaded_world orbit_env))) =
      trace (loaded_world orbit_env) ++ evs
      ++ [SaveAsMainfile "output/blendfiles/CLEVR_new.blend"; WriteTransforms] ∧
    Forall (fun ev => match ev with
                      | SaveAsMainfile _ | WriteTransforms => False
                      | _ => True
                      end) evs.
Proof.
  destruct studio_run_Ok as (res & Hrun).
  destruct (main_output_files fresh_disk orbit_env (studio_args 8 1 2 1) 1
              (loaded_world orbit_env) res Hrun)
    as ((evs & Ht & Hevs) & _ & _).
  by exists res, evs.
Defined.

Lemma main_absolute_prefix_witness :
  img_template escaping_args = "/tmp/CLEVR_new_%06d.png" ∧
  blend_path escaping_args = "/tmp/CLEVR_new.blend".
Proof.
  apply (main_absolute_prefix escaping_args). reflexivity.
Defined.

(** ** The retry loop of a slot *)

Section RetryFacts.
Context {num : Type} `{NumOps num}.
Variable e : env num.
Variable a : args num.

Lemma sample_position_first_fit (fuel : nat) (num_tries : Z)
    (ps : list (num * num * num)) (r : num) (w w' : world num)
    (pos : option (num * num)) :
  sample_position e a fuel num_tries ps r w = (Ok pos, w') →
  ∃ k : nat,
    (∀ i, (i < k)%nat →
       dists_good a ps (coordinate_draw e (draws w + 2 * i))
                  (coordinate_draw e (S (draws w + 2 * i))) r = false) ∧
    match pos with
    | Some (x, y) =>
        x = coordinate_draw e (draws w + 2 * k) ∧
        y = coordinate_draw e (S (draws w + 2 * k)) ∧
        dists_good a ps x y r = true ∧
        draws w' = (draws w + 2 * k + 2)%nat ∧
        (num_tries + Z.of_nat k < max_retries a)%Z
    | None =>
        draws w' = (draws w + 2 * k)%nat ∧
        Z.of_nat k = Z.max 0 (max_retries a - num_tries)
    end.
Proof.
  revert num_tries w. induction fuel as [|fuel IH]; intros num_tries w; [done|].
  cbn [sample_position].
  destruct (max_retries a <? num_tries + 1)%Z eqn:Hlt.
  { apply Z.ltb_lt in Hlt. cbv [mret M_ret]. intros ?; simplify_eq.
    exists 0%nat. split; [lia|]. split; lia. }
  apply Z.ltb_ge in Hlt.
  rewrite (bind_Ok_run _ _ _ _ _ (random_uniform_run _ _ _ _)).
  rewrite (bind_Ok_run _ _ _ _ _ (random_uniform_run _ _ _ _)).
  cbn [draws next_draw]. fold (coordinate_draw e (draws w)).
  fold (coordinate_draw e (S (draws w))).
  destruct (dists_good a ps _ _ r) eqn:Hgood.
  - cbv [mret M_ret]. intros ?; simplify_eq. exists 0%nat.
    split; [lia|]. rewrite Nat.mul_0_r, Nat.add_0_r.
    split_and!; [done|done|done|cbn; lia|lia].
  - intros (k & Hrej & Hpos)%IH. cbn [draws next_draw] in Hrej, Hpos.
    exists (S k). split.
    + intros [|i] Hi.
      * by rewrite Nat.mul_0_r, Nat.add_0_r.
      * replace (draws w + 2 * S i)%nat with (S (S (draws w)) + 2 * i)%nat
          by lia.
        apply Hrej. lia.
    + replace (draws w + 2 * S k)%nat with (S (S (draws w)) + 2 * k)%nat
        by lia.
      destruct pos as [[x y]|].
      * destruct Hpos as (-> & -> & Hg & Hd & Hk).
        split_and!; [done|done|done|lia|lia].
      * destruct Hpos as [Hd Hk]. split; lia.
Qed.

(** X26. The retry loop of a slot is a first fit with a budget: it tries
    the candidates in the order they are drawn, two draws each, returns the
    first one that [dists_good] accepts, and gives up when [max_retries]
    candidates have been rejected (at once when [max_retries] is zero or
    negative). *)
Theorem retry_loop_first_fit (fuel : nat) (ps : list (num * num * num))
    (r : num) (w w' : world num) (pos : option (num * num)) :
  sample_position e a fuel 0 ps r w = (Ok pos, w') →
  ∃ k : nat,
    (∀ i, (i < k)%nat →
       dists_good a ps (coordinate_draw e (draws w + 2 * i))
                  (coordinate_draw e (S (draws w + 2 * i))) r = false) ∧
    match pos with
    | Some (x, y) =>
        x = coordinate_draw e (draws w + 2 * k) ∧
        y = coordinate_draw e (S (draws w + 2 * k)) ∧
        dists_good a ps x y r = true ∧
        draws w' = (draws w + 2 * k + 2)%nat ∧
        (Z.of_nat k < max_retries a)%Z
    | None =>
        draws w' = (draws w + 2 * k)%nat ∧
        Z.of_nat k = Z.max 0 (max_retries a)
    end.
Proof.
  intros (k & Hrej & Hpos)%sample_position_first_fit. exists k.
  split; [done|]. destruct pos as [[x y]|].
  - destruct Hpos as (? & ? & ? & ? & ?). split_and!; [done..|lia].
  - destruct Hpos as [? ?]. split; [done|lia].
Qed.

End RetryFacts.

(** ** Renders and frames *)

Section RenderedFacts.
Context {num : Type} `{NumOps num} `{TrigOps num}.
Variable e : env num.
Variable a : args num.

Lemma rendered_indices_app (evs1 evs2 : list (event num)) :
  rendered_indices (evs1 ++ evs2)
  = rendered_indices evs1 ++ rendered_indices evs2.
Proof. apply omap_app. Qed.

Lemma rendered_indices_unrendered (evs : list (event num)) :
  Forall unrendered evs → rendered_indices evs = [].
Proof.
  induction 1 as [|ev evs Hev _ IH]; [done|].
  destruct ev; first [done|exact IH].
Qed.

Lemma render_frame_rendered (fuel : nat) (file_index : Z) (stepsize : num)
    (w w' : world num) (fr : frame num) :
  render_frame e fuel file_index stepsize w = (Ok fr, w') →
  ∃ evs, trace w' = trace w ++ evs ∧ rendered_indices evs = [file_index] ∧
         Forall still evs.
Proof.
  revert w. induction fuel as [|fuel IH]; intros w; [done|].
  cbn [render_frame]. rewrite (bind_Ok_run _ _ _ _ _ (render_run _ _ _)).
  destruct (render_raises e (renders w)).
  - intros (evs & Ht & Hr & Hs)%IH. cbn [trace] in Ht.
    exists (Render file_index true :: evs).
    split_and!; [by rewrite Ht, <- app_assoc|done|by constructor].
  - cbv [mbind M_bind get_camera_location mret M_ret].
    intros ?; simplify_eq. exists [Render file_index false].
    split_and!; [done|done|by repeat constructor].
Qed.

(** What the guarded invocation appends. *)
Lemma gate_unrendered (fuel : nat) (n : Z) (k : nat)
    (objs0 : option (list (object num))) :
  emits (Forall unrendered) (fun _ => True)
    (if (k =? 7)%nat then
       emit (Call "render_scene" "add_random_objects");;
       res ← add_random_objects e a fuel n;
       mret (Some (fst res))
     else mret objs0).
Proof.
  destruct (k =? 7)%nat; [|apply (emits_ret _ _)].
  apply (emits_bind _ _); [apply (emits_emit _ _); by repeat constructor|].
  intros _. apply (emits_bind _ _); [apply add_random_objects_unrendered|].
  intros res. apply (emits_ret _ _).
Qed.

Lemma camera_shot_rendered (fuel : nat) (n : Z) (stepsize : num) (j i : Z)
    (st st' : render_result num) (w w' : world num) :
  camera_shot e a fuel n stepsize j i st w = (Ok st', w') →
  ∃ evs, trace w' = trace w ++ evs ∧
    rendered_indices evs = [(num_cams a / num_heights * j + i)%Z] ∧
    map file_path (frames st') =
      map file_path (frames st) ++ [(num_cams a / num_heights * j + i)%Z].
Proof.
  intros Hrun. pose proof Hrun as [Hfr _]%camera_shot_Ok.
  revert Hrun. unfold camera_shot.
  destruct (set_camera_Ok 0 (nmul (nmul (of_Z 10) (ncos (shot_azimuth a i)))
                                  (nsin (tier_phi j))) w)
    as (w1 & Hw1 & _ & _ & _ & _ & Ht1).
  rewrite (bind_Ok_run _ _ _ _ _ Hw1).
  destruct (set_camera_Ok 1 (nmul (nmul (of_Z 10) (nsin (shot_azimuth a i)))
                                  (nsin (tier_phi j))) w1)
    as (w2 & Hw2 & _ & _ & _ & _ & Ht2).
  rewrite (bind_Ok_run _ _ _ _ _ Hw2).
  unfold mbind at 1, M_bind at 1, len_data_objects.
  intros (objs & w3 & Hgate & Hrun)%bind_Ok_inv.
  destruct (gate_unrendered _ _ _ _ _ _ _ Hgate) as (evs3 & Ht3 & Hq3);
    [done|].
  apply bind_Ok_inv in Hrun as (fr & w4 & Hrf & Hret).
  apply render_frame_rendered in Hrf as (evs4 & Ht4 & Hr4 & _).
  cbv [mret M_ret] in Hret. simplify_eq.
  exists ([MoveCamera 0 (nmul (nmul (of_Z 10) (ncos (shot_azimuth a i)))
                                (nsin (tier_phi j)));
           MoveCamera 1 (nmul (nmul (of_Z 10) (nsin (shot_azimuth a i)))
                                (nsin (tier_phi j)))] ++ evs3 ++ evs4).
  split_and!.
  - rewrite Ht4, Ht3, Ht2, Ht1, <- !app_assoc. done.
  - rewrite !rendered_indices_app, Hr4, (rendered_indices_unrendered evs3 Hq3).
    done.
  - rewrite Hfr, map_app. done.
Qed.

(** X27. In a call that returns, the renders that succeeded are the frames,
    one for one and in order: the file indices of the renders that did not
    raise are the file indices of the frames. *)
Theorem render_scene_rendered (fuel : nat) (num_objects : Z)
    (output_blendfile : option string) (w w' : world num)
    (res : render_result num) :
  render_scene e a fuel num_objects output_blendfile w = (Ok res, w') →
  ∃ evs, trace w' = trace w ++ evs ∧
    rendered_indices evs = map file_path (frames res).
Proof.
  destruct (render_scene_prelude e a fuel num_objects output_blendfile w)
    as (w5 & -> & _ & _ & _ & _ & Ht5).
  unfold render_scene_tail. destruct (num_cams a =? 0)%Z; [done|].
  intros (st & w6 & Hloop & Hrun)%bind_Ok_inv.
  assert (∃ evs, trace w6 = trace w ++ evs ∧
            rendered_indices evs = map file_path (frames st))
    as (evs & Ht6 & Hr6).
  { eapply (for_each_Ok_prefix
              (fun _ s w0 => ∃ evs, trace w0 = trace w ++ evs ∧
                 rendered_indices evs = map file_path (frames s)))
      in Hloop; [exact Hloop| |].
    - eexists. split; [exact Ht5|]. apply rendered_indices_unrendered.
      apply Forall_cons. split; [done|]. apply Forall_cons. split; [done|].
      apply all_lamp_moves_unrendered.
    - intros _ j s1 s2 w1 w2 (evs1 & Ht1 & Hr1). unfold camera_tier.
      destruct (set_camera_Ok 2 (nmul (of_Z 10) (ncos (tier_phi j))) w1)
        as (w3 & Hw3 & _ & _ & _ & _ & Ht3).
      rewrite (bind_Ok_run _ _ _ _ _ Hw3). intros Htier.
      eapply (for_each_Ok_prefix
                (fun _ s w0 => ∃ evs, trace w0 = trace w ++ evs ∧
                   rendered_indices evs = map file_path (frames s)))
        in Htier; [exact Htier| |].
      + exists (evs1 ++ [MoveCamera 2 (nmul (of_Z 10) (ncos (tier_phi j)))]).
        split; [by rewrite Ht3, Ht1, app_assoc|].
        by rewrite rendered_indices_app, Hr1, app_nil_r.
      + intros _ i s3 s4 w7 w8 (evs7 & Ht7 & Hr7)
          (evs8 & Ht8 & Hr8 & Hf8)%camera_shot_rendered.
        exists (evs7 ++ evs8). split; [by rewrite Ht8, Ht7, app_assoc|].
        by rewrite rendered_indices_app, Hr7, Hr8, Hf8. }
  destruct output_blendfile.
  - rewrite (bind_Ok_run _ _ _ _ _ (emit_run _ _)) in Hrun.
    rewrite (bind_Ok_run _ _ _ _ _ (emit_run _ _)) in Hrun.
    cbv [mret M_ret] in Hrun. simplify_eq. cbn [trace].
    exists (evs ++ [SaveAsMainfile s; WriteTransforms]).
    split; [by rewrite Ht6, <- !app_assoc|].
    by rewrite rendered_indices_app, Hr6, app_nil_r.
  - cbv [mret M_ret] in Hrun. unfold mbind at 1, M_bind at 1 in Hrun.
    rewrite (bind_Ok_run _ _ _ _ _ (emit_run _ _)) in Hrun.
    simplify_eq. cbn [trace]. exists (evs ++ [WriteTransforms]).
    split; [by rewrite Ht6, <- !app_assoc|].
    by rewrite rendered_indices_app, Hr6, app_nil_r.
Qed.

End RenderedFacts.

(** ** The scene after the first render *)

Section FixedFacts.
Context {num : Type} `{NumOps num} `{TrigOps num}.
Variable e : env num.
Variable a : args num.

Lemma unrendered_not_render (evs pre post : list (event num))
    (file_index : Z) (raised : bool) :
  Forall unrendered evs → evs ≠ pre ++ Render file_index raised :: post.
Proof.
  intros Hq ->. apply Forall_app in Hq as [_ Hq].
  by apply Forall_cons in Hq as [? _].
Qed.

Lemma fixed_after_render_quiet (evs : list (event num)) :
  Forall unrendered evs → fixed_after_render evs.
Proof.
  intros Hq pre idx raised post Heq. by eapply unrendered_not_render in Hq.
Qed.

Lemma fixed_after_render_app (evs evs' : list (event num)) :
  fixed_after_render evs → Forall still evs' →
  fixed_after_render (evs ++ evs').
Proof.
  intros Hf Hs pre idx raised post Heq.
  apply app_eq_app in Heq as [l [[-> Heq]|[-> Heq]]].
  - destruct l as [|ev l].
    + cbn in Heq. subst evs'. by apply Forall_cons in Hs as [_ ?].
    + cbn in Heq. injection Heq as <- ->.
      apply Forall_app. split; [|done]. by eapply Hf.
  - subst evs'. apply Forall_app in Hs as [_ Hs].
    by apply Forall_cons in Hs as [_ ?].
Qed.

(** A call for no object changes nothing. *)
Lemma add_random_objects_no_slots_world (fuel : nat) (n : Z)
    (w w' : world num)
    (r : outcome (list (object num) * list (blender_object num))) :
  (n <= 0)%Z → add_random_objects e a fuel n w = (r, w') → w' = w.
Proof.
  intros Hn. unfold add_random_objects.
  destruct fuel as [|fuel]; cbn [add_random_objects_locals].
  - cbv [mbind M_bind out_of_fuel]. by intros ?; simplify_eq.
  - replace (Z.to_nat n) with 0%nat by lia. cbn [place_slots].
    cbv [mbind M_bind mret M_ret]. by intros ?; simplify_eq.
Qed.

Lemma render_frame_still (fuel : nat) (file_index : Z) (stepsize : num) :
  emits (Forall still) (fun _ => True)
        (render_frame e fuel file_index stepsize).
Proof.
  apply (loop_emits_render_frame e (Forall still) (fun _ => True)).
  intros. by apply Forall_singleton.
Qed.

(** What holds of the events [evs] since [t0] between two passes of the
    camera loop, and what is left of it when a pass does not complete. *)
Lemma camera_shot_fixed (t0 : list (event num)) (fuel : nat) (n : Z)
    (stepsize : num) (j i : Z) (st : render_result num) (w w' : world num)
    (r : outcome (render_result num)) :
  (∃ evs, trace w = t0 ++ evs ∧ fixed_after_render evs ∧
          (Forall unrendered evs ∨ settled n w)) →
  camera_shot e a fuel n stepsize j i st w = (r, w') →
  ∃ evs, trace w' = t0 ++ evs ∧ fixed_after_render evs ∧
         (returned r = true → settled n w').
Proof.
  intros (evs & Ht & Hf & Hst). unfold camera_shot.
  destruct (set_camera_Ok 0 (nmul (nmul (of_Z 10) (ncos (shot_azimuth a i)))
                                  (nsin (tier_phi j))) w)
    as (w1 & Hw1 & _ & Hd1 & _ & _ & Ht1).
  rewrite (bind_Ok_run _ _ _ _ _ Hw1).
  destruct (set_camera_Ok 1 (nmul (nmul (of_Z 10) (nsin (shot_azimuth a i)))
                                  (nsin (tier_phi j))) w1)
    as (w2 & Hw2 & _ & Hd2 & _ & _ & Ht2).
  rewrite (bind_Ok_run _ _ _ _ _ Hw2).
  set (moves := [MoveCamera 0
                   (nmul (nmul (of_Z 10) (ncos (shot_azimuth a i)))
                         (nsin (tier_phi j)));
                 MoveCamera 1
                   (nmul (nmul (of_Z 10) (nsin (shot_azimuth a i)))
                         (nsin (tier_phi j)))]).
  assert (trace w2 = t0 ++ evs ++ moves) as Ht2'.
  { by rewrite Ht2, Ht1, Ht, <- !app_assoc. }
  assert (fixed_after_render (evs ++ moves)) as Hf2.
  { apply fixed_after_render_app; [done|]. by repeat constructor. }
  assert (Forall unrendered (evs ++ moves) ∨ settled n w2) as Hst2.
  { destruct Hst as [Hq|Hs]; [left|right].
    - apply Forall_app. split; [done|]. by repeat constructor.
    - unfold settled in *. by rewrite Hd2, Hd1. }
  clearbody moves. clear Hw1 Hw2 Ht1 Ht2 Hd1 Hd2 Ht Hf Hst w w1.
  unfold mbind at 1, M_bind at 1, len_data_objects.
  assert (Hrender : ∀ objs w3 evs3,
    trace w3 = t0 ++ evs3 → fixed_after_render evs3 → settled n w3 →
    (frame_data ← render_frame e fuel (num_cams a / num_heights * j + i)
                   stepsize;
     mret {| final_objects := objs; frames := frames st ++ [frame_data] |})
      w3 = (r, w') →
    ∃ evs, trace w' = t0 ++ evs ∧ fixed_after_render evs ∧
           (returned r = true → settled n w')).
  { intros objs w3 evs3 Ht3 Hf3 Hs3. unfold mbind, M_bind.
    destruct (render_frame e fuel _ stepsize w3) as [r4 w4] eqn:Hfr.
    destruct (render_frame_still _ _ _ _ _ _ Hfr) as (evs4 & Ht4 & Hs4);
      [done|].
    apply render_frame_objects in Hfr. intros Hrun.
    assert (w' = w4) as ->.
    { destruct r4; cbv [mret M_ret] in Hrun; by simplify_eq. }
    exists (evs3 ++ evs4). split_and!.
    - by rewrite Ht4, Ht3, app_assoc.
    - by apply fixed_after_render_app.
    - intros _. unfold settled in *. by rewrite Hfr. }
  destruct (length (data_objects w2) =? 7)%nat eqn:Hk.
  - apply Nat.eqb_eq in Hk.
    unfold mbind at 1, M_bind at 1.
    rewrite (bind_Ok_run _ _ _ _ _ (emit_run _ _)).
    unfold mbind at 1, M_bind at 1.
    destruct (add_random_objects e a fuel n _) as [r3 w3] eqn:Hcall.
    assert (∃ evs3, trace w3 = t0 ++ evs3 ∧ fixed_after_render evs3 ∧
              (returned r3 = true → settled n w3)) as (evs3 & Ht3 & Hf3 & Hs3).
    { destruct Hst2 as [Hq|[Hs|Hs]]; [|done|].
      - destruct (add_random_objects_unrendered _ _ _ _ _ _ _ Hcall)
          as (evs1 & Ht1 & Hq1); [done|].
        cbn [trace] in Ht1.
        exists (evs ++ moves ++ Call "render_scene" "add_random_objects"
                  :: evs1).
        split_and!.
        + rewrite Ht1, Ht2', <- !app_assoc. done.
        + apply fixed_after_render_quiet. rewrite app_assoc.
          apply Forall_app. split; [done|].
          apply Forall_cons. split; [done|exact Hq1].
        + intros Hret. destruct r3 as [res| |]; [|done..].
          destruct (add_random_objects_step _ _ _ _ _ _ _ Hcall)
            as (_ & _ & _ & _ & Hlen).
          specialize (Hlen _ eq_refl). cbn [data_objects] in Hlen.
          unfold settled. rewrite Hlen, Hk.
          destruct (decide (n <= 0)%Z); [by right|left; lia].
      - apply (add_random_objects_no_slots_world _ _ _ _ _ Hs) in Hcall.
        subst w3. cbn [trace].
        exists ((evs ++ moves)
                ++ [Call "render_scene" "add_random_objects"]).
        split_and!.
        + by rewrite Ht2', <- !app_assoc.
        + apply fixed_after_render_app; [done|]. by repeat constructor.
        + intros _. by right. }
    destruct r3 as [res|x|].
    + cbv [mret M_ret]. apply (Hrender _ _ evs3); [done|done|by apply Hs3].
    + intros ?; simplify_eq. by exists evs3.
    + intros ?; simplify_eq. by exists evs3.
  - apply Nat.eqb_neq in Hk. unfold mbind at 1, M_bind at 1.
    cbv [mret M_ret]. apply (Hrender _ _ (evs ++ moves)); [by rewrite Ht2', app_assoc|done|].
    by left.
Qed.

(** A loop whose passes keep [P] when they complete and end in [Q] when
    they do not. *)
Lemma for_each_returned {A St} (P Q : world num → Prop) (l : list A)
    (body : A → St → M num St) (s : St) (w w' : world num) (r : outcome St) :
  (∀ x s1 w1 w2 r1,
      P w1 → body x s1 w1 = (r1, w2) → if returned r1 then P w2 else Q w2) →
  P w →
  for_each l body s w = (r, w') →
  if returned r then P w' else Q w'.
Proof.
  intros Hbody. revert s w. induction l as [|x l IH]; intros s w HP;
    cbn [for_each].
  - cbv [mret M_ret]. by intros ?; simplify_eq.
  - unfold mbind, M_bind. destruct (body x s w) as [[s1|x1|] w1] eqn:Hb.
    + apply IH. by apply (Hbody _ _ _ _ _ HP Hb).
    + intros ?; simplify_eq. by apply (Hbody _ _ _ _ _ HP Hb).
    + intros ?; simplify_eq. by apply (Hbody _ _ _ _ _ HP Hb).
Qed.

Lemma render_scene_fixed (fuel : nat) (num_objects : Z)
    (output_blendfile : option string) (w w' : world num)
    (r : outcome (render_result num)) :
  render_scene e a fuel num_objects output_blendfile w = (r, w') →
  ∃ evs, trace w' = trace w ++ evs ∧ fixed_after_render evs.
Proof.
  destruct (render_scene_prelude e a fuel num_objects output_blendfile w)
    as (w5 & -> & _ & _ & _ & _ & Ht5).
  set (P := fun w0 : world num =>
         ∃ evs, trace w0 = trace w ++ evs ∧ fixed_after_render evs ∧
                (Forall unrendered evs ∨ settled num_objects w0)).
  set (Q := fun w0 : world num =>
         ∃ evs, trace w0 = trace w ++ evs ∧ fixed_after_render evs).
  assert (P w5) as HP5.
  { eexists. split; [exact Ht5|].
    assert (Forall unrendered
              ([OpenMainfile; LoadMaterials] ++ all_lamp_moves e a (draws w)))
      as Hq.
    { apply Forall_cons. split; [done|]. apply Forall_cons. split; [done|].
      apply all_lamp_moves_unrendered. }
    split; [by apply fixed_after_render_quiet|by left]. }
  assert (HPQ : ∀ w0, P w0 → Q w0).
  { intros w0 (evs & ? & ? & _). by exists evs. }
  unfold render_scene_tail.
  destruct (num_cams a =? 0)%Z.
  { intros Hrun. cbv [raise] in Hrun. simplify_eq. by apply HPQ. }
  unfold mbind at 1, M_bind at 1.
  destruct (for_each _ _ _ w5) as [r1 w6] eqn:Hloop.
  apply (for_each_returned P Q) in Hloop; [|clear Hloop|done].
  - destruct r1 as [st|x|]; cbn [returned] in Hloop;
      [|by intros ?; simplify_eq..].
    destruct Hloop as (evs & Ht6 & Hf6 & _).
    destruct output_blendfile.
    + rewrite (bind_Ok_run _ _ _ _ _ (emit_run _ _)).
      rewrite (bind_Ok_run _ _ _ _ _ (emit_run _ _)).
      cbv [mret M_ret]. intros ?; simplify_eq. cbn [trace].
      exists (evs ++ [SaveAsMainfile s; WriteTransforms]).
      split; [by rewrite Ht6, <- !app_assoc|].
      apply fixed_after_render_app; [done|]. by repeat constructor.
    + cbv [mret M_ret]. unfold mbind at 1, M_bind at 1.
      rewrite (bind_Ok_run _ _ _ _ _ (emit_run _ _)).
      intros ?; simplify_eq. cbn [trace].
      exists (evs ++ [WriteTransforms]).
      split; [by rewrite Ht6, <- !app_assoc|].
      apply fixed_after_render_app; [done|]. by repeat constructor.
  - intros j s1 w1 w2 r2 (evs1 & Ht1 & Hf1 & Hst1). unfold camera_tier.
    destruct (set_camera_Ok 2 (nmul (of_Z 10) (ncos (tier_phi j))) w1)
      as (w3 & Hw3 & _ & Hd3 & _ & _ & Ht3).
    rewrite (bind_Ok_run _ _ _ _ _ Hw3).
    apply (for_each_returned P Q).
    + intros i s2 w7 w8 r3 HP7 Hshot.
      destruct (camera_shot_fixed _ _ _ _ _ _ _ _ _ _ HP7 Hshot)
        as (evs8 & Ht8 & Hf8 & Hs8).
      destruct (returned r3) eqn:Hret.
      * exists evs8. split_and!; [done..|right; by apply Hs8].
      * by exists evs8.
    + exists (evs1 ++ [MoveCamera 2 (nmul (of_Z 10) (ncos (tier_phi j)))]).
      split_and!.
      * by rewrite Ht3, Ht1, app_assoc.
      * apply fixed_after_render_app; [done|]. by repeat constructor.
      * destruct Hst1 as [Hq|Hs]; [left|right].
        -- apply Forall_app. split; [done|]. by repeat constructor.
        -- unfold settled in *. by rewrite Hd3.
Qed.

(** X28. Once the renderer has been called, a call never touches the
    objects of the scene again: after the first render no object is added
    or deleted and no layer or material is set, however the call ends. *)
Theorem render_scene_objects_fixed (fuel : nat) (num_objects : Z)
    (output_blendfile : option string) (w w' : world num)
    (r : outcome (render_result num)) :
  render_scene e a fuel num_objects output_blendfile w = (r, w') →
  ∃ evs, trace w' = trace w ++ evs ∧
    ∀ pre file_index raised post,
      evs = pre ++ Render file_index raised :: post → Forall still post.
Proof. apply render_scene_fixed. Qed.

End FixedFacts.

(** With an object of radius 0.7 recorded at the origin and every candidate
    drawn at the origin, both tries of the slot are rejected. *)
Lemma retry_loop_first_fit_witness :
  ∃ k : nat,
    (∀ i, (i < k)%nat →
       dists_good two_tries_args [(0%float, 0%float, 0.7%float)]
         (coordinate_draw steady_env
            (draws (loaded_world steady_env) + 2 * i))
         (coordinate_draw steady_env
            (S (draws (loaded_world steady_env) + 2 * i)))
         0.7%float = false) ∧
    draws (snd (sample_position steady_env two_tries_args 3 0
                  [(0%float, 0%float, 0.7%float)] 0.7%float
                  (loaded_world steady_env)))
      = (draws (loaded_world steady_env) + 2 * k)%nat ∧
    Z.of_nat k = Z.max 0 (max_retries two_tries_args).
Proof.
  apply (retry_loop_first_fit steady_env two_tries_args 3
           [(0%float, 0%float, 0.7%float)] 0.7%float
           (loaded_world steady_env) _ None).
  vm_compute. reflexivity.
Defined.

Lemma render_scene_rendered_witness :
  ∃ res w' evs,
    eight_cams_run = (Ok res, w') ∧
    trace w' = trace (loaded_world orbit_env) ++ evs ∧
    rendered_indices evs = map file_path (frames res).
Proof.
  destruct eight_cams_run_Ok as (res & w' & Hrun & _).
  destruct (render_scene_rendered orbit_env (orbit_args 8) 1 1 None
              (loaded_world orbit_env) w' res Hrun) as (evs & Ht & Hr).
  by exists res, w', evs.
Defined.

Lemma render_scene_objects_fixed_witness :
  ∃ res w' evs,
    eight_cams_run = (Ok res, w') ∧
    trace w' = trace (loaded_world orbit_env) ++ evs ∧
    fixed_after_render evs.
Proof.
  destruct eight_cams_run_Ok as (res & w' & Hrun & _).
  destruct (render_scene_objects_fixed orbit_env (orbit_args 8) 1 1 None
              (loaded_world orbit_env) w' (Ok res) Hrun) as (evs & Ht & Hf).
  by exists res, w', evs.
Defined.

(** ** Fewer than eight cameras *)

Section IdleFacts.
Context {num : Type} `{NumOps num} `{TrigOps num}.
Variable e : env num.
Variable a : args num.

(** A tier without a shot only lifts the camera. *)
Lemma camera_tier_idle (fuel : nat) (n : Z) (stepsize : num) (j : Z)
    (st : render_result num) (w : world num) :
  (num_cams a / num_heights <= 0)%Z →
  ∃ w1,
    camera_tier e a fuel n stepsize j st w = (Ok st, w1) ∧
    data_objects w1 = data_objects w ∧
    trace w1 = trace w ++ [MoveCamera 2 (nmul (of_Z 10) (ncos (tier_phi j)))].
Proof.
  intros Hq. unfold camera_tier. rewrite (seqZ_nil _ _ Hq). cbn [for_each].
  destruct (set_camera_Ok 2 (nmul (of_Z 10) (ncos (tier_phi j))) w)
    as (w1 & Hw1 & _ & Hd1 & _ & _ & Ht1).
  rewrite (bind_Ok_run _ _ _ _ _ Hw1). by exists w1.
Qed.

Lemma camera_loop_idle (fuel : nat) (n : Z) (stepsize : num) (l : list Z)
    (st : render_result num) (w : world num) :
  (num_cams a / num_heights <= 0)%Z →
  ∃ w1,
    for_each l (camera_tier e a fuel n stepsize) st w = (Ok st, w1) ∧
    data_objects w1 = data_objects w ∧
    trace w1 = trace w ++
      map (fun j => MoveCamera 2 (nmul (of_Z 10) (ncos (tier_phi j)))) l.
Proof.
  intros Hq. revert w. induction l as [|j l IH]; intros w; cbn [for_each map].
  - exists w. by rewrite app_nil_r.
  - destruct (camera_tier_idle fuel n stepsize j st w Hq)
      as (w1 & Hw1 & Hd1 & Ht1).
    rewrite (bind_Ok_run _ _ _ _ _ Hw1).
    destruct (IH w1) as (w2 & Hw2 & Hd2 & Ht2).
    exists w2. split_and!; [done|congruence|].
    by rewrite Ht2, Ht1, <- app_assoc.
Qed.

Lemma render_scene_idle (fuel : nat) (n : Z)
    (output_blendfile : option string) (w : world num) :
  (num_cams a < 8)%Z → num_cams a ≠ 0%Z →
  ∃ w',
    render_scene e a fuel n output_blendfile w =
      (Ok {| final_objects := None; frames := [] |}, w') ∧
    data_objects w' = base_scene e ∧
    trace w' = trace w ++ [OpenMainfile; LoadMaterials]
      ++ all_lamp_moves e a (draws w)
      ++ map (fun j => MoveCamera 2 (nmul (of_Z 10) (ncos (tier_phi j))))
             (seqZ 0 num_heights)
      ++ output_events output_blendfile.
Proof.
  intros Hlt Hne.
  destruct (render_scene_prelude e a fuel n output_blendfile w)
    as (w5 & -> & Hd5 & _ & _ & _ & Ht5).
  unfold render_scene_tail.
  destruct (num_cams a =? 0)%Z eqn:Hz; [by apply Z.eqb_eq in Hz|].
  assert (num_cams a / num_heights <= 0)%Z as Hq.
  { unfold num_heights.
    pose proof (Z.div_lt_upper_bound (num_cams a) 8 1). lia. }
  destruct (camera_loop_idle fuel n
              (nmul (ndiv (of_Z 360) (of_Z (num_cams a))) (of_Z num_heights))
              (seqZ 0 num_heights)
              {| final_objects := None; frames := [] |} w5 Hq)
    as (w6 & Hw6 & Hd6 & Ht6).
  rewrite (bind_Ok_run _ _ _ _ _ Hw6).
  destruct output_blendfile as [path|].
  - rewrite (bind_Ok_run _ _ _ _ _ (emit_run _ _)).
    rewrite (bind_Ok_run _ _ _ _ _ (emit_run _ _)).
    eexists. split; [reflexivity|]. cbn [data_objects trace output_events].
    split; [congruence|]. by rewrite Ht6, Ht5, <- !app_assoc.
  - cbv [mret M_ret]. unfold mbind at 1, M_bind at 1.
    rewrite (bind_Ok_run _ _ _ _ _ (emit_run _ _)).
    eexists. split; [reflexivity|]. cbn [data_objects trace output_events].
    split; [congruence|]. by rewrite Ht6, Ht5, <- !app_assoc.
Qed.

End IdleFacts.

Section IdleMain.
Context {num : Type} `{NumOps num} `{TrigOps num}.
Variable os : os_env.
Variable e : env num.
Variable ma : main_args num.

(** X29. With fewer than eight cameras (but not zero), as with the default
    [--num_cams 1], [main] returns without a frame and without an object:
    it loads the base scene, moves the lamps, lifts the camera through the
    eight tiers and writes the output files; the renderer and
    [add_random_objects] are never called. *)
Theorem main_few_cameras (fuel : nat) (w : world num) :
  (num_cams (scene_args ma) < 8)%Z →
  num_cams (scene_args ma) ≠ 0%Z →
  (min_objects ma <= max_objects ma)%Z →
  (∀ path, makedirs_raises os path = false) →
  returned_main (main ma os e fuel w)
    = MainOk {| final_objects := None; frames := [] |} ∧
  data_objects (left_world (main ma os e fuel w)) = base_scene e ∧
  trace (left_world (main ma os e fuel w)) =
    trace w ++ [OpenMainfile; LoadMaterials]
      ++ all_lamp_moves e (scene_args ma) (S (draws w))
      ++ map (fun j => MoveCamera 2 (nmul (of_Z 10) (ncos (tier_phi j))))
             (seqZ 0 num_heights)
      ++ output_events
           (if (save_blendfiles ma =? 1)%Z then Some (blend_path ma)
            else None).
Proof.
  intros Hlt Hne Hrange Hok. unfold main, ensure_dir. rewrite !Hok.
  unfold random_randint.
  destruct (0 <? max_objects ma + 1 - min_objects ma)%Z eqn:Hw;
    [|apply Z.ltb_ge in Hw; lia].
  match goal with |- context [render_scene e _ fuel ?n ?b ?w0] =>
    destruct (render_scene_idle e (scene_args ma) fuel n b w0 Hlt Hne)
      as (w' & Hrun & Hd & Ht) end.
  cbn [andb] in *.
  destruct (isdir os (output_image_dir ma)); cbn [negb];
    destruct ((save_blendfiles ma =? 1)%Z
              && negb (isdir os (output_blend_dir ma)));
    rewrite Hrun; cbn [returned_main left_world]; by rewrite Hd, Ht.
Qed.

End IdleMain.

(** ** A single object *)

Section SingleFacts.
Context {num : Type} `{NumOps num}.
Variable e : env num.
Variable a : args num.

(** X30. A call for a single object, with at least one try allowed, never
    restarts: the first candidate of a first slot has nothing to collide
    with, so the call returns or raises after one slot, without deleting
    anything and without calling itself. *)
Theorem add_random_objects_single (fuel : nat) (w w' : world num)
    (r : outcome (list (object num) * list (blender_object num))) :
  (1 <= max_retries a)%Z →
  add_random_objects e a (S fuel) 1 w = (r, w') →
  match r with OutOfFuel => False | _ => True end ∧
  ∃ evs, trace w' = trace w ++ evs ∧
    Forall (fun ev => match ev with
                      | DeleteObject _ | Call _ _ => False
                      | _ => True
                      end) evs.
Proof.
  intros Hmax. unfold add_random_objects. cbn [add_random_objects_locals].
  change (Z.to_nat 1) with 1%nat. cbn [place_slots].
  unfold mbind at 1 2, M_bind at 1 2.
  destruct (random_choice e (size_mapping a) w) as [[[sn sz]|x|] w1] eqn:Hsize.
  - apply random_choice_Ok in Hsize as [_ ->].
    rewrite (bind_Ok_run _ _ _ _ _
               (sample_position_first_try e a _ [] sz _ Hmax eq_refl)).
    unfold mbind at 1, M_bind at 1.
    destruct (place_object e a sn sz _ _ no_locals _) as [r1 w2] eqn:Hplace.
    apply place_object_run in Hplace.
    destruct r1 as [L'|x|]; [| |done].
    + destruct Hplace as (_ & _ & evs & Ht & Hevs).
      cbv [mret M_ret]. intros ?; simplify_eq. split; [done|].
      exists evs. split; [done|].
      destruct Hevs as (? & ? & ? & ? & ? & ? & ? & ? & ->).
      by repeat constructor.
    + intros ?; simplify_eq. split; [done|].
      destruct Hplace as [(_ & _ & _ & Ht)|[_ (evs & Ht & Hevs)]].
      * exists []. by rewrite app_nil_r.
      * exists evs. split; [done|].
        destruct Hevs as (? & ? & ? & ? & ? & ? & ->). by repeat constructor.
  - apply random_choice_Raise in Hsize as (_ & -> & _).
    intros ?; simplify_eq. split; [done|]. exists []. by rewrite app_nil_r.
  - by apply random_choice_fuel in Hsize.
Qed.

End SingleFacts.

Lemma main_few_cameras_witness :
  returned_main
    (main (parser_defaults (cube_catalogue (7 / 10)%R) None "output")
       fresh_disk orbit_env 1 (loaded_world orbit_env))
    = MainOk {| final_objects := None; frames := [] |} ∧
  data_objects
    (left_world
       (main (parser_defaults (cube_catalogue (7 / 10)%R) None "output")
          fresh_disk orbit_env 1 (loaded_world orbit_env)))
    = base_scene orbit_env ∧
  trace
    (left_world
       (main (parser_defaults (cube_catalogue (7 / 10)%R) None "output")
          fresh_disk orbit_env 1 (loaded_world orbit_env)))
    = trace (loaded_world orbit_env) ++ [OpenMainfile; LoadMaterials]
      ++ all_lamp_moves orbit_env
           (scene_args
              (parser_defaults (cube_catalogue (7 / 10)%R) None "output"))
           (S (draws (loaded_world orbit_env)))
      ++ map (fun j => MoveCamera 2 (nmul (of_Z 10) (ncos (tier_phi j))))
             (seqZ 0 num_heights)
      ++ [WriteTransforms].
Proof.
  apply (main_few_cameras fresh_disk orbit_env
           (parser_defaults (cube_catalogue (7 / 10)%R) None "output") 1
           (loaded_world orbit_env)).
  - simpl. lia.
  - simpl. lia.
  - simpl. lia.
  - intros path. reflexivity.
Defined.

Lemma add_random_objects_single_witness :
  match fst (add_random_objects steady_env two_tries_args 1 1
               (loaded_world steady_env)) with
  | OutOfFuel => False
  | _ => True
  end ∧
  ∃ evs,
    trace (snd (add_random_objects steady_env two_tries_args 1 1
                  (loaded_world steady_env)))
      = trace (loaded_world steady_env) ++ evs ∧
    Forall (fun ev => match ev with
                      | DeleteObject _ | Call _ _ => False
                      | _ => True
                      end) evs.
Proof.
  apply (add_random_objects_single steady_env two_tries_args 0
           (loaded_world steady_env)).
  - simpl. lia.
  - apply surjective_pairing.
Defined.
